(** * Index-management dashboards: form components and their handlers

    A shallow embedding of the handlers of five components of the plugin
    ([AliasSelect], [IndexDetail], [Indices], [CreatePolicy],
    [SimplePopover]) together with the part of the JavaScript platform and
    of lodash they rely on.

    Layout: the model first (platform, lodash, then one module per source
    component), the properties afterwards. *)

From Stdlib Require Import List String Ascii ZArith NArith Bool Lia Arith.
From Stdlib Require Import Permutation Sorted OrderedTypeEx DecimalString.
Import ListNotations.

Local Open Scope string_scope.
Local Open Scope N_scope.
Local Open Scope list_scope.

(* ================================================================== *)
(** * Part I. The model                                                 *)
(* ================================================================== *)

(** ** JavaScript values and objects *)

Module JS.

(** JSON-shaped JavaScript values.  Numbers are only copied around by the
    code modelled here, never computed with; they carry an integer.  The
    characters of a string stand for its code units. *)
Unset Elimination Schemes.
Inductive json : Type :=
| JNull
| JBool (b : bool)
| JNum (z : Z)
| JStr (s : string)
| JArr (elems : list json)
| JObj (fields : list (string * json)).
Set Elimination Schemes.

(** An object is the list of its own enumerable properties, in the order
    [Object.keys] enumerates them. *)
Definition obj : Type := list (string * json).

(** [x || d] and [if (x)] look at truthiness. *)
Definition truthy (j : json) : bool :=
  match j with
  | JNull => false
  | JBool b => b
  | JNum z => negb (z =? 0)%Z
  | JStr s => negb (s =? "")%string
  | JArr _ | JObj _ => true
  end.

(** [x || d] where [x] may be [undefined] (a missing property). *)
Definition or_else (x : option json) (d : json) : json :=
  match x with
  | Some j => if truthy j then j else d
  | None => d
  end.


(** *** Property keys

    A key that is an array index (a canonical numeric string below
    [2^32 - 1]) is enumerated before every other key, in ascending numeric
    order; the remaining keys are enumerated in creation order
    (ECMAScript, OrdinaryOwnPropertyKeys: [Object.keys], [Object.entries],
    spread and [JSON.stringify] all follow it). *)

Definition digit_of (c : ascii) : option N :=
  let n := N_of_ascii c in
  if (48 <=? n) && (n <=? 57) then Some (n - 48) else None.

Fixpoint digits_value (acc : N) (s : string) : option N :=
  match s with
  | EmptyString => Some acc
  | String c r =>
      match digit_of c with
      | Some d => digits_value (10 * acc + d) r
      | None => None
      end
  end.

Definition array_index (k : string) : option N :=
  match k with
  | EmptyString => None
  | String c EmptyString => digit_of c
  | String c _ =>
      if (c =? "0")%char then None
      else match digits_value 0 k with
           | Some n => if n <? 4294967295 then Some n else None
           | None => None
           end
  end.

(** [key_before k k'] : in one object, [k] may be enumerated before [k']. *)
Definition key_before (k k' : string) : bool :=
  negb (k =? k')%string &&
  match array_index k, array_index k' with
  | Some i, Some j => i <? j
  | Some _, None => true
  | None, Some _ => false
  | None, None => true
  end.

Fixpoint keys_canonical (ks : list string) : bool :=
  match ks with
  | [] => true
  | k :: r => forallb (key_before k) r && keys_canonical r
  end.

(** *** Own properties *)

Definition obj_keys (o : obj) : list string := map fst o.

Fixpoint obj_get (k : string) (o : obj) : option json :=
  match o with
  | [] => None
  | (k', v) :: r => if (k =? k')%string then Some v else obj_get k r
  end.

Definition obj_has (k : string) (o : obj) : bool :=
  match obj_get k o with Some _ => true | None => false end.

(** Overwriting an existing property keeps its place. *)
Fixpoint obj_replace (k : string) (v : json) (o : obj) : obj :=
  match o with
  | [] => []
  | (k', v') :: r =>
      if (k =? k')%string then (k, v) :: r else (k', v') :: obj_replace k v r
  end.

(** A new array-index key goes before the first key that is no array index
    or is a larger one. *)
Fixpoint obj_insert_index (i : N) (k : string) (v : json) (o : obj) : obj :=
  match o with
  | [] => [(k, v)]
  | (k', v') :: r =>
      match array_index k' with
      | Some j => if i <? j then (k, v) :: o
                  else (k', v') :: obj_insert_index i k v r
      | None => (k, v) :: o
      end
  end.

(** [o[k] = v] on a plain object / a computed key in an object literal. *)
Definition obj_set (k : string) (v : json) (o : obj) : obj :=
  if obj_has k o then obj_replace k v o
  else match array_index k with
       | Some i => obj_insert_index i k v o
       | None => o ++ [(k, v)]
       end.

(** [Object.assign(target, source)], also the spread [{...target, ...source}]. *)
Definition obj_assign (target source : obj) : obj :=
  fold_left (fun acc kv => obj_set (fst kv) (snd kv) acc) source target.

(** [{...o}] *)
Definition obj_spread (o : obj) : obj := obj_assign [] o.



(** [a?.b?.c] restricted to plain objects on the way. *)
Fixpoint get_path (p : list string) (j : json) : option json :=
  match p with
  | [] => Some j
  | k :: p' =>
      match j with
      | JObj o =>
          match obj_get k o with
          | Some v => get_path p' v
          | None => None
          end
      | _ => None
      end
  end.

(** [j[k]] : an own property of a plain object or an element of an array. *)
Definition get_prop (k : string) (j : json) : option json :=
  match j with
  | JObj o => obj_get k o
  | JArr l =>
      match array_index k with
      | Some i => nth_error l (N.to_nat i)
      | None => None
      end
  | _ => None
  end.

(** [j[k1][k2]...], through plain objects and arrays. *)
Fixpoint get_in (p : list string) (j : json) : option json :=
  match p with
  | [] => Some j
  | k :: p' =>
      match get_prop k j with
      | Some v => get_in p' v
      | None => None
      end
  end.

(** *** [Array.prototype.sort] with a comparator, as a stable insertion
    sort ([cmp x y <= 0] keeps [x] before [y]).  The engine is free in its
    algorithm; for a comparator that orders the elements strictly the
    result is the same (see [Array_sort_by_key_spec]). *)
Fixpoint insert_by {A} (cmp : A -> A -> Z) (x : A) (l : list A) : list A :=
  match l with
  | [] => [x]
  | y :: r => if (cmp x y <=? 0)%Z then x :: l else y :: insert_by cmp x r
  end.

Definition Array_sort {A} (cmp : A -> A -> Z) (l : list A) : list A :=
  fold_right (insert_by cmp) [] l.

(** [[...new Set(l)]] : first occurrences, in order. *)
Fixpoint Set_of (seen l : list string) : list string :=
  match l with
  | [] => []
  | x :: r =>
      if existsb (String.eqb x) seen then Set_of seen r
      else x :: Set_of (x :: seen) r
  end.

(** *** [JSON.stringify(value, null, 2)] *)

Definition newline : string := String "010"%char EmptyString.
Definition dquote : ascii := "034"%char.
Definition backslash : ascii := "092"%char.

Definition hex_digit (n : N) : ascii :=
  if n <? 10 then ascii_of_N (48 + n) else ascii_of_N (87 + n).

(** [QuoteJSONString] on one character. *)
Definition quote_char (c : ascii) : string :=
  let n := N_of_ascii c in
  if (c =? dquote)%char then String backslash (String dquote EmptyString)
  else if (c =? backslash)%char then String backslash (String backslash EmptyString)
  else if n =? 8 then String backslash "b"
  else if n =? 9 then String backslash "t"
  else if n =? 10 then String backslash "n"
  else if n =? 12 then String backslash "f"
  else if n =? 13 then String backslash "r"
  else if n <? 32 then
    String backslash
      (String "u" (String "0" (String "0"
         (String (hex_digit (n / 16)) (String (hex_digit (n mod 16)) EmptyString)))))
  else String c EmptyString.

Fixpoint quote_chars (s : string) : string :=
  match s with
  | EmptyString => EmptyString
  | String c r => (quote_char c ++ quote_chars r)%string
  end.

Definition quote (s : string) : string :=
  String dquote (quote_chars s ++ String dquote EmptyString)%string.

(** The decimal numeral of an integer: what JavaScript prints for the
    integers its numbers hold exactly, below [2^53] in absolute value. *)
Definition number_to_string (z : Z) : string :=
  DecimalString.NilZero.string_of_int (Z.to_int z).

Definition stringify_block (open close indent : string) (items : list string) : string :=
  match items with
  | [] => (open ++ close)%string
  | _ =>
      let inner := ("  " ++ indent)%string in
      (open ++ newline
         ++ String.concat ("," ++ newline) (map (String.append inner) items)
         ++ newline ++ indent ++ close)%string
  end.

Fixpoint stringify_at (indent : string) (j : json) : string :=
  match j with
  | JNull => "null"
  | JBool true => "true"
  | JBool false => "false"
  | JNum z => number_to_string z
  | JStr s => quote s
  | JArr l =>
      stringify_block "[" "]" indent
        (map (stringify_at ("  " ++ indent)) l)
  | JObj o =>
      stringify_block "{" "}" indent
        (map (fun kv =>
                (quote (fst kv) ++ ": " ++ stringify_at ("  " ++ indent) (snd kv))%string)
             o)
  end.

Definition JSON_stringify (j : json) : string := stringify_at "" j.

(** *** A [JSON.parse] for the examples

    It reads the part of JSON without fractions, exponents and [\u]
    escapes, and answers there as [JSON.parse] does; [fuel] bounds the
    nesting and the number of members. *)

Definition is_ws (c : ascii) : bool :=
  let n := N_of_ascii c in (n =? 32) || (n =? 9) || (n =? 10) || (n =? 13).

Fixpoint skip_ws (s : string) : string :=
  match s with
  | String c r => if is_ws c then skip_ws r else s
  | EmptyString => s
  end.

Definition unescape (c : ascii) : option ascii :=
  if (c =? dquote)%char then Some dquote
  else if (c =? backslash)%char then Some backslash
  else if (c =? "/")%char then Some "/"%char
  else if (c =? "b")%char then Some "008"%char
  else if (c =? "t")%char then Some "009"%char
  else if (c =? "n")%char then Some "010"%char
  else if (c =? "f")%char then Some "012"%char
  else if (c =? "r")%char then Some "013"%char
  else None.

(** The characters of a string literal after its opening quote. *)
Fixpoint parse_chars (s : string) : option (string * string) :=
  match s with
  | EmptyString => None
  | String c r =>
      if (c =? dquote)%char then Some (EmptyString, r)
      else if (c =? backslash)%char then
        match r with
        | String e r' =>
            match unescape e, parse_chars r' with
            | Some ch, Some (str, rest) => Some (String ch str, rest)
            | _, _ => None
            end
        | EmptyString => None
        end
      else if N_of_ascii c <? 32 then None
      else match parse_chars r with
           | Some (str, rest) => Some (String c str, rest)
           | None => None
           end
  end.

Fixpoint take_digits (s : string) : string * string :=
  match s with
  | String c r =>
      match digit_of c with
      | Some _ => let '(d, rest) := take_digits r in (String c d, rest)
      | None => (EmptyString, s)
      end
  | EmptyString => (EmptyString, EmptyString)
  end.

Definition parse_number (s : string) : option (json * string) :=
  let '(neg, s1) :=
    match s with
    | String c r => if (c =? "-")%char then (true, r) else (false, s)
    | EmptyString => (false, s)
    end in
  let '(ds, rest) := take_digits s1 in
  let unsupported :=
    match rest with
    | String c _ => (c =? ".")%char || (c =? "e")%char || (c =? "E")%char
    | EmptyString => false
    end in
  let leading_zero :=
    match ds with
    | String c (String _ _) => (c =? "0")%char
    | _ => false
    end in
  if unsupported || leading_zero then None
  else match ds, digits_value 0 ds with
       | String _ _, Some n =>
           Some (JNum (if neg then - Z.of_N n else Z.of_N n)%Z, rest)
       | _, _ => None
       end.

Definition expect (word : string) (s : string) (v : json) : option (json * string) :=
  if String.prefix word s
  then Some (v, String.substring (String.length word)
                  (String.length s - String.length word) s)
  else None.

Fixpoint parse_value (fuel : nat) (s : string) {struct fuel}
  : option (json * string) :=
  match fuel with
  | O => None
  | S fuel' =>
      match skip_ws s with
      | EmptyString => None
      | String c r =>
          if (c =? "n")%char then expect "ull" r JNull
          else if (c =? "t")%char then expect "rue" r (JBool true)
          else if (c =? "f")%char then expect "alse" r (JBool false)
          else if (c =? dquote)%char then
            match parse_chars r with
            | Some (str, rest) => Some (JStr str, rest)
            | None => None
            end
          else if (c =? "[")%char then
            match skip_ws r with
            | String c' rest =>
                if (c' =? "]")%char then Some (JArr [], rest)
                else match parse_elements fuel' r with
                     | Some (l, rest') => Some (JArr l, rest')
                     | None => None
                     end
            | EmptyString => None
            end
          else if (c =? "{")%char then
            match skip_ws r with
            | String c' rest =>
                if (c' =? "}")%char then Some (JObj [], rest)
                else match parse_members fuel' r with
                     | Some (o, rest') => Some (JObj (obj_assign [] o), rest')
                     | None => None
                     end
            | EmptyString => None
            end
          else parse_number (String c r)
      end
  end
with parse_elements (fuel : nat) (s : string) {struct fuel}
  : option (list json * string) :=
  match fuel with
  | O => None
  | S fuel' =>
      match parse_value fuel' s with
      | Some (v, rest) =>
          match skip_ws rest with
          | String c r =>
              if (c =? ",")%char then
                match parse_elements fuel' r with
                | Some (vs, rest') => Some (v :: vs, rest')
                | None => None
                end
              else if (c =? "]")%char then Some ([v], r)
              else None
          | EmptyString => None
          end
      | None => None
      end
  end
with parse_members (fuel : nat) (s : string) {struct fuel}
  : option (list (string * json) * string) :=
  match fuel with
  | O => None
  | S fuel' =>
      match skip_ws s with
      | String q r =>
          if (q =? dquote)%char then
            match parse_chars r with
            | Some (k, rest) =>
                match skip_ws rest with
                | String c r1 =>
                    if (c =? ":")%char then
                      match parse_value fuel' r1 with
                      | Some (v, rest1) =>
                          match skip_ws rest1 with
                          | String c2 r2 =>
                              if (c2 =? ",")%char then
                                match parse_members fuel' r2 with
                                | Some (o, rest2) => Some ((k, v) :: o, rest2)
                                | None => None
                                end
                              else if (c2 =? "}")%char then Some ([(k, v)], r2)
                              else None
                          | EmptyString => None
                          end
                      | None => None
                      end
                    else None
                | EmptyString => None
                end
            | None => None
            end
          else None
      | EmptyString => None
      end
  end.

Definition parse_text (s : string) : option json :=
  match parse_value (S (String.length s)) s with
  | Some (v, rest) =>
      match skip_ws rest with
      | EmptyString => Some v
      | String _ _ => None
      end
  | None => None
  end.

End JS.

(** ** lodash *)

Module Lodash.
Import JS.

(** [_.merge(object, source)] on JSON values: plain objects are merged key
    by key and arrays index by index, recursively; any other source value is
    assigned.  A container source over a destination of another kind starts
    from an empty container, so the result is a deep copy of the source.

    Two corners of lodash leave JSON and are not followed: a plain-object
    source over an array destination (lodash keeps the array object and
    defines the source's keys on it) and an array source over a plain
    object that has a numeric [length]; here the source wins as in the
    other mixed cases.  Keys are ordinary names ([__proto__] is skipped by
    lodash).  What Part II says of a path is the same under either reading:
    a source value is found at its path, and a destination value is said to
    stay only where source and destination are objects all the way. *)
Fixpoint mergeValue (objValue : option json) (srcValue : json) : json :=
  match srcValue with
  | JObj so =>
      let base := match objValue with Some (JObj d) => d | _ => [] end in
      JObj (fold_left
              (fun acc kv =>
                 obj_set (fst kv) (mergeValue (obj_get (fst kv) acc) (snd kv)) acc)
              so base)
  | JArr sl =>
      let base := match objValue with Some (JArr d) => d | _ => [] end in
      JArr ((fix mergeElems (src dst : list json) {struct src} : list json :=
               match src with
               | [] => dst
               | s :: sr =>
                   match dst with
                   | [] => mergeValue None s :: mergeElems sr []
                   | d :: dr => mergeValue (Some d) s :: mergeElems sr dr
                   end
               end) sl base)
  | _ => srcValue
  end.

(** [baseMerge(object, source)] for two plain objects. *)
Definition baseMerge (object source : obj) : obj :=
  fold_left
    (fun acc kv =>
       obj_set (fst kv) (mergeValue (obj_get (fst kv) acc) (snd kv)) acc)
    source object.

(** [_.merge(object, s1, s2)] : sources are applied from left to right. *)
Definition merge (object s1 s2 : obj) : obj :=
  baseMerge (baseMerge object s1) s2.

End Lodash.

(** ** Shapes shared by the components *)

Module Server.

(** [ServerResponse<T>] : [{ ok: true, response }] or [{ ok: false, error }]. *)
Inductive ServerResponse (T : Type) : Type :=
| ResponseOk (response : T)
| ResponseError (error : string).
Arguments ResponseOk {T} response.
Arguments ResponseError {T} error.

Definition ok {T} (res : ServerResponse T) : bool :=
  match res with ResponseOk _ => true | ResponseError _ => false end.

(** How an awaited promise settles. *)
Inductive Settled (T Err : Type) : Type :=
| Fulfilled (v : T)
| Rejected (err : Err).
Arguments Fulfilled {T Err} v.
Arguments Rejected {T Err} err.

End Server.

(** Helpers of [utils/] that the components import. *)
Class Utils : Type := {
  filterByMinimatch : string -> list string -> bool;
  SYSTEM_ALIAS : list string;
  (** the value caught by a [catch] clause *)
  Thrown : Type;
  getErrorMessage : Thrown -> string -> string;
  ROUTES_POLICIES : string
}.

(** [JSON.parse]; [None] stands for a thrown [SyntaxError]. *)
Class Platform : Type := {
  JSON_parse : string -> option JS.json
}.

(** ** AliasSelect *)

Module AliasSelect.
Import JS Server.

Record Option_ : Type := { label : string }.
Record AliasItem : Type := { alias : string }.

Definition transformObjToArray (obj : option JS.obj) : list Option_ :=
  map (fun label => {| label := label |})
      (obj_keys (match obj with Some o => o | None => [] end)).

Definition transformArrayToObj (array : list Option_) : JS.obj :=
  fold_left
    (fun total current => obj_set (label current) (JObj []) (obj_spread total))
    array [].

Section Component.
Context `{Utils}.

(** The [then] callback of [refreshOptions]. *)
Definition refreshOptions (res : ServerResponse (list AliasItem))
  : ServerResponse (list Option_) :=
  match res with
  | ResponseOk response =>
      ResponseOk
        (map (fun item => {| label := item |})
           (Set_of []
              (filter (fun item => negb (filterByMinimatch item SYSTEM_ALIAS))
                 (map alias response))))
  | ResponseError e => ResponseError e
  end.
End Component.

(** Props handed to [RemoteSelect]. *)
Definition select_value (value : option JS.obj) : list string :=
  map label (transformObjToArray value).

Definition select_onChange (val : list string) : JS.obj :=
  transformArrayToObj (map (fun label => {| label := label |}) val).

End AliasSelect.

(** ** IndexDetail *)

(** [transformArrayToObject] / [transformObjectToArray] of [IndexMapping]:
    the form keeps mapping properties as an array, the backend as an object. *)
Class IndexMapping : Type := {
  transformArrayToObject : JS.json -> JS.json;
  transformObjectToArray : JS.json -> JS.json
}.

(** [_.set(object, path, value)], used by [onValueChange] only. *)
Class LodashSet : Type := {
  FieldName : Type;
  (** [name === "index"] *)
  is_index_name : FieldName -> bool;
  lodash_set : JS.obj -> FieldName -> JS.json -> JS.obj
}.

Module IndexDetail.
Import JS Server.

(** The comparator [(a, b) => (a[0] < b[0] ? -1 : 1)]. *)
Definition by_key (a b : string * json) : Z :=
  if String.ltb (fst a) (fst b) then (-1)%Z else 1%Z.

Definition getOrderedJson (json : JS.obj) : JS.obj :=
  let entries := Array_sort by_key json in
  fold_left
    (fun total kv => obj_set (fst kv) (snd kv) (obj_spread total))
    entries [].

(** *** The advanced-settings editor *)

Record JSONDiffEditorProps (R : Type) : Type := {
  disabled : bool;
  original : string;
  value : string;
  (** what the editor's [onChange] does with a new text; [None]: it threw *)
  onChange : string -> option R
}.
Arguments disabled {R}.
Arguments original {R}.
Arguments value {R}.
Arguments onChange {R}.

Section Editor.
Context `{Platform}.

(** [renderProps] of [advancedSettingsProps]; it is [undefined] when the
    form is read-only.  [oldSettings] is [oldValue?.settings]. *)
Definition renderProps {R} (readonly : bool) (oldSettings : option JS.obj)
           (value : option JS.obj) (onChange : json -> R)
  : option (JSONDiffEditorProps R) :=
  if readonly then None
  else Some
    {| disabled := readonly;
       original :=
         JSON_stringify
           (JObj (getOrderedJson (match oldSettings with Some o => o | None => [] end)));
       value :=
         JSON_stringify
           (JObj (getOrderedJson (match value with Some o => o | None => [] end)));
       onChange := fun val =>
         match JSON_parse val with
         | Some j => Some (onChange j)
         | None => None
         end |}.
End Editor.

(** *** Template simulation on blur *)

(** Refs and state of one mounted component. *)
Record Hooks : Type := {
  hasEdit : bool;
  destroyRef : bool;
  templateSimulateLoading : bool;
  isMatchingTemplate : bool
}.

Definition initial : Hooks :=
  {| hasEdit := false; destroyRef := false;
     templateSimulateLoading := false; isMatchingTemplate := false |}.

Definition set_hasEdit (b : bool) (h : Hooks) : Hooks :=
  {| hasEdit := b; destroyRef := destroyRef h;
     templateSimulateLoading := templateSimulateLoading h;
     isMatchingTemplate := isMatchingTemplate h |}.
Definition set_destroyRef (b : bool) (h : Hooks) : Hooks :=
  {| hasEdit := hasEdit h; destroyRef := b;
     templateSimulateLoading := templateSimulateLoading h;
     isMatchingTemplate := isMatchingTemplate h |}.
Definition setTemplateSimulateLoading (b : bool) (h : Hooks) : Hooks :=
  {| hasEdit := hasEdit h; destroyRef := destroyRef h;
     templateSimulateLoading := b;
     isMatchingTemplate := isMatchingTemplate h |}.
Definition setIsMatchingTemplate (b : bool) (h : Hooks) : Hooks :=
  {| hasEdit := hasEdit h; destroyRef := destroyRef h;
     templateSimulateLoading := templateSimulateLoading h;
     isMatchingTemplate := b |}.

(** What a handler does to the outside, in order. *)
Inductive Action : Type :=
| OnChange (value : JS.obj)                    (* props.onChange(value) *)
| SetTemplateSimulateLoading (b : bool)
| SetIsMatchingTemplate (b : bool)
| SimulateIndexTemplate (indexName : json)     (* the request is sent *)
| ModalShow.                                   (* the confirm dialog *)

(** A call of [onIndexInputBlur] suspended at one of its [await]s, or at
    the dialog. *)
Inductive Task : Type :=
| Sleeping
| Simulating
| Confirming (response : JS.obj)
| Finished.

Section Component.
Context `{IndexMapping} `{LodashSet}.

Definition mappings_properties (o : JS.obj) : option json :=
  get_path ["mappings"; "properties"] (JObj o).

(** [onValueChange] of the render whose [value] prop is [value]. *)
Definition onValueChange (value : option JS.obj) (name : FieldName) (val : json)
           (h : Hooks) : Hooks * list Action :=
  let finalValue :=
    lodash_set (match value with Some o => o | None => [] end) name val in
  (if is_index_name name then h else set_hasEdit true h,
   [OnChange (obj_spread finalValue)]).

(** The argument of [onChange] in the [then] callback. *)
Definition form_of (data : JS.obj) : JS.obj :=
  obj_set "mappings"
    (JObj (obj_set "properties"
             (transformObjectToArray
                (or_else (mappings_properties data) (JObj [])))
             []))
    (obj_spread data).

Definition onChangePromise_then (data : JS.obj) (h : Hooks) : Hooks * list Action :=
  (setIsMatchingTemplate true (set_hasEdit false h),
   [OnChange (form_of data); SetIsMatchingTemplate true]).

(** [onCancel] of the dialog: "Merge your changes with template". *)
Definition formatValue (finalValue : JS.obj) : JS.obj :=
  obj_set "mappings"
    (JObj (obj_set "properties"
             (transformArrayToObject
                (or_else (mappings_properties finalValue) (JArr [])))
             []))
    (obj_assign (obj_set "index" (JStr "") []) finalValue).

Definition mergedValue (finalValue response : JS.obj) : JS.obj :=
  Lodash.merge
    (obj_set "index" (or_else (obj_get "index" finalValue) (JStr "")) [])
    response
    (formatValue finalValue).

(** [onIndexInputBlur] after its 200 ms timer. *)
Definition onIndexInputBlur_delayed (finalValue : JS.obj) (onSimulateIndexTemplate : bool)
           (h : Hooks) : Hooks * Task * list Action :=
  if destroyRef h then (h, Finished, [])
  else
    match obj_get "index" finalValue with
    | Some index =>
        if truthy index && onSimulateIndexTemplate
        then (setTemplateSimulateLoading true h, Simulating,
              [SetTemplateSimulateLoading true; SimulateIndexTemplate index])
        else (h, Finished, [])
    | None => (h, Finished, [])
    end.

(** [onIndexInputBlur] after the simulation promise is fulfilled. *)
Definition onIndexInputBlur_simulated
           (result : option (ServerResponse JS.obj)) (h : Hooks)
  : Hooks * Task * list Action :=
  if destroyRef h then (h, Finished, [])
  else
    let h1 := setTemplateSimulateLoading false h in
    match result with
    | Some (ResponseOk response) =>
        if hasEdit h1 then
          (h1, Confirming response,
           [SetTemplateSimulateLoading false; ModalShow])
        else
          let '(h2, acts) := onChangePromise_then response h1 in
          (h2, Finished, SetTemplateSimulateLoading false :: acts)
    | _ =>
        (setIsMatchingTemplate false h1, Finished,
         [SetTemplateSimulateLoading false; SetIsMatchingTemplate false])
    end.

(** What can happen to a mounted component; [t] numbers the calls of
    [onIndexInputBlur] in the order of the blurs.  The handler is a closure
    over [finalValue] and [onSimulateIndexTemplate]: an event carries what
    the closure reads there at that moment ([finalValue] is an object that
    [onValueChange] may have changed in place since the blur). *)
Inductive Event : Type :=
| EvValueChange (value : option JS.obj) (name : FieldName) (val : json)
| EvBlur
| EvTimeout (t : nat) (finalValue : JS.obj) (onSimulateIndexTemplate : bool)
| EvSimulated (t : nat) (result : option (ServerResponse JS.obj))
| EvSimulateRejected (t : nat)
| EvModalOk (t : nat)
| EvModalCancel (t : nat) (finalValue : JS.obj)
| EvUnmount.

Record World : Type := { hooks : Hooks; tasks : list Task }.

Definition start : World := {| hooks := initial; tasks := [] |}.

Fixpoint set_task (t : nat) (x : Task) (l : list Task) : list Task :=
  match l, t with
  | [], _ => []
  | _ :: r, O => x :: r
  | y :: r, S t' => y :: set_task t' x r
  end.

Definition resume (t : nat) (w : World)
           (k : Task -> option (Hooks * Task * list Action))
  : World * list Action :=
  match nth_error (tasks w) t with
  | Some task =>
      match k task with
      | Some (h, task', acts) =>
          ({| hooks := h; tasks := set_task t task' (tasks w) |}, acts)
      | None => (w, [])
      end
  | None => (w, [])
  end.

Definition step (w : World) (e : Event) : World * list Action :=
  match e with
  | EvValueChange value name val =>
      let '(h, acts) := onValueChange value name val (hooks w) in
      ({| hooks := h; tasks := tasks w |}, acts)
  | EvBlur =>
      ({| hooks := hooks w; tasks := tasks w ++ [Sleeping] |}, [])
  | EvTimeout t fv sim =>
      resume t w (fun task =>
        match task with
        | Sleeping => Some (onIndexInputBlur_delayed fv sim (hooks w))
        | _ => None
        end)
  | EvSimulated t result =>
      resume t w (fun task =>
        match task with
        | Simulating => Some (onIndexInputBlur_simulated result (hooks w))
        | _ => None
        end)
  | EvSimulateRejected t =>
      resume t w (fun task =>
        match task with
        | Simulating => Some (hooks w, Finished, [])
        | _ => None
        end)
  | EvModalOk t =>
      resume t w (fun task =>
        match task with
        | Confirming response =>
            let '(h, acts) := onChangePromise_then response (hooks w) in
            Some (h, Finished, acts)
        | _ => None
        end)
  | EvModalCancel t fv =>
      resume t w (fun task =>
        match task with
        | Confirming response =>
            let '(h, acts) := onChangePromise_then (mergedValue fv response) (hooks w) in
            Some (h, Finished, acts)
        | _ => None
        end)
  | EvUnmount =>
      ({| hooks := set_destroyRef true (hooks w); tasks := tasks w |}, [])
  end.

(** A run: the world after the events, with the actions of each step. *)
Fixpoint run (w : World) (es : list Event) : World * list (list Action) :=
  match es with
  | [] => (w, [])
  | e :: r =>
      let '(w1, acts) := step w e in
      let '(w2, log) := run w1 r in
      (w2, acts :: log)
  end.

Definition is_simulating (t : Task) : bool :=
  match t with Simulating => true | _ => false end.

(** Number of simulation requests awaiting their response. *)
Definition in_flight (w : World) : nat :=
  List.length (filter is_simulating (tasks w)).

Definition is_request (a : Action) : bool :=
  match a with SimulateIndexTemplate _ => true | _ => false end.

Definition is_state_update (a : Action) : bool :=
  match a with
  | OnChange _ | SetTemplateSimulateLoading _ | SetIsMatchingTemplate _ => true
  | _ => false
  end.

Definition is_blur (e : Event) : bool :=
  match e with EvBlur => true | _ => false end.

Definition is_sleeping (t : Task) : bool :=
  match t with Sleeping => true | _ => false end.

(** Calls of [onIndexInputBlur] waiting for their timer. *)
Definition sleeping (w : World) : nat :=
  List.length (filter is_sleeping (tasks w)).

(** Requests sent in the course of a run. *)
Definition requests (log : list (list Action)) : nat :=
  List.length (filter is_request (List.concat log)).

(** The events whose handlers test [destroyRef] (or do nothing at all). *)
Definition tests_destroyRef (e : Event) : bool :=
  match e with
  | EvValueChange _ _ _ | EvModalOk _ | EvModalCancel _ _ => false
  | _ => true
  end.

End Component.

End IndexDetail.

(** ** Handlers of class components

    A handler reads and updates [this.state] and acts on the outside; the
    actions are logged in order. *)

Module Handler.

Definition M (S E A : Type) : Type := S -> A * S * list E.

Definition ret {S E A} (a : A) : M S E A := fun s => (a, s, []).

Definition bind {S E A B} (m : M S E A) (k : A -> M S E B) : M S E B :=
  fun s =>
    let '(a, s1, l1) := m s in
    let '(b, s2, l2) := k a s1 in
    (b, s2, l1 ++ l2).

Definition get {S E} : M S E S := fun s => (s, s, []).

Definition modify {S E} (f : S -> S) : M S E unit := fun s => (tt, f s, []).

Definition emit {S E} (e : E) : M S E unit := fun s => (tt, s, [e]).

(** State and log after running a handler. *)
Definition exec {S E A} (m : M S E A) (s : S) : S * list E :=
  let '(_, s', l) := m s in (s', l).

Declare Scope handler_scope.
Delimit Scope handler_scope with handler.
Notation "x <- m ;; k" := (bind m (fun x => k))
  (at level 61, m at next level, right associativity) : handler_scope.
Notation "m ;; k" := (bind m (fun _ => k))
  (at level 61, right associativity) : handler_scope.

End Handler.

(** ** Indices *)

(** The search bar's [Query] object. *)
Class EuiQuery : Type := {
  Query : Type;
  getTermClauses : Query -> list string;
  getFieldClauses : string -> Query -> list string
}.

Module Indices.
Import JS Server Handler.
Local Open Scope handler_scope.

Inductive Direction : Type := asc | desc.

Definition ManagedCatIndex : Type := JS.obj.

Section Component.
Context `{Utils} `{EuiQuery}.

Record IndicesState : Type := {
  totalIndices : Z;
  from : Z;
  size : Z;
  search : string;
  query : Query;
  sortField : string;
  sortDirection : Direction;
  selectedItems : list ManagedCatIndex;
  indices : list ManagedCatIndex;
  loadingIndices : bool;
  showDataStreams : bool;
  isDataStreamColumnVisible : bool;
  deleteIndexModalVisible : bool
}.

(** One property of the object given to [this.setState]. *)
Inductive Update : Type :=
| Set_totalIndices (v : Z)
| Set_from (v : Z)
| Set_search (v : string)
| Set_query (v : Query)
| Set_indices (v : list ManagedCatIndex)
| Set_loadingIndices (v : bool)
| Set_isDataStreamColumnVisible (v : bool).

Definition update (s : IndicesState) (u : Update) : IndicesState :=
  match u with
  | Set_totalIndices v =>
      {| totalIndices := v; from := from s; size := size s; search := search s;
         query := query s; sortField := sortField s;
         sortDirection := sortDirection s; selectedItems := selectedItems s;
         indices := indices s; loadingIndices := loadingIndices s;
         showDataStreams := showDataStreams s;
         isDataStreamColumnVisible := isDataStreamColumnVisible s;
         deleteIndexModalVisible := deleteIndexModalVisible s |}
  | Set_from v =>
      {| totalIndices := totalIndices s; from := v; size := size s;
         search := search s; query := query s; sortField := sortField s;
         sortDirection := sortDirection s; selectedItems := selectedItems s;
         indices := indices s; loadingIndices := loadingIndices s;
         showDataStreams := showDataStreams s;
         isDataStreamColumnVisible := isDataStreamColumnVisible s;
         deleteIndexModalVisible := deleteIndexModalVisible s |}
  | Set_search v =>
      {| totalIndices := totalIndices s; from := from s; size := size s;
         search := v; query := query s; sortField := sortField s;
         sortDirection := sortDirection s; selectedItems := selectedItems s;
         indices := indices s; loadingIndices := loadingIndices s;
         showDataStreams := showDataStreams s;
         isDataStreamColumnVisible := isDataStreamColumnVisible s;
         deleteIndexModalVisible := deleteIndexModalVisible s |}
  | Set_query v =>
      {| totalIndices := totalIndices s; from := from s; size := size s;
         search := search s; query := v; sortField := sortField s;
         sortDirection := sortDirection s; selectedItems := selectedItems s;
         indices := indices s; loadingIndices := loadingIndices s;
         showDataStreams := showDataStreams s;
         isDataStreamColumnVisible := isDataStreamColumnVisible s;
         deleteIndexModalVisible := deleteIndexModalVisible s |}
  | Set_indices v =>
      {| totalIndices := totalIndices s; from := from s; size := size s;
         search := search s; query := query s; sortField := sortField s;
         sortDirection := sortDirection s; selectedItems := selectedItems s;
         indices := v; loadingIndices := loadingIndices s;
         showDataStreams := showDataStreams s;
         isDataStreamColumnVisible := isDataStreamColumnVisible s;
         deleteIndexModalVisible := deleteIndexModalVisible s |}
  | Set_loadingIndices v =>
      {| totalIndices := totalIndices s; from := from s; size := size s;
         search := search s; query := query s; sortField := sortField s;
         sortDirection := sortDirection s; selectedItems := selectedItems s;
         indices := indices s; loadingIndices := v;
         showDataStreams := showDataStreams s;
         isDataStreamColumnVisible := isDataStreamColumnVisible s;
         deleteIndexModalVisible := deleteIndexModalVisible s |}
  | Set_isDataStreamColumnVisible v =>
      {| totalIndices := totalIndices s; from := from s; size := size s;
         search := search s; query := query s; sortField := sortField s;
         sortDirection := sortDirection s; selectedItems := selectedItems s;
         indices := indices s; loadingIndices := loadingIndices s;
         showDataStreams := showDataStreams s;
         isDataStreamColumnVisible := v;
         deleteIndexModalVisible := deleteIndexModalVisible s |}
  end.

Record IndicesQueryParams : Type := {
  q_from : Z;
  q_size : Z;
  q_search : string;
  q_sortField : string;
  q_sortDirection : Direction;
  q_showDataStreams : bool
}.

Record GetIndicesParams : Type := {
  queryObject : IndicesQueryParams;
  terms : list string;
  p_indices : list string;
  dataStreams : list string
}.

Record GetIndicesResponse : Type := {
  r_indices : list ManagedCatIndex;
  r_totalIndices : Z
}.

Inductive Effect : Type :=
| HistoryReplace (search : IndicesQueryParams)  (* its query string *)
| GetIndices (params : GetIndicesParams)        (* indexService.getIndices *)
| AddDanger (message : string).                 (* toasts.addDanger *)

Definition setState (us : list Update) : M IndicesState Effect unit :=
  modify (fun s => fold_left update us s).

Definition getQueryObjectFromState (s : IndicesState) : IndicesQueryParams :=
  {| q_from := from s; q_size := size s; q_search := search s;
     q_sortField := sortField s; q_sortDirection := sortDirection s;
     q_showDataStreams := showDataStreams s |}.

Definition getFieldClausesFromState (clause : string) (s : IndicesState)
  : list string := getFieldClauses clause (query s).

Definition getTermClausesFromState (s : IndicesState) : list string :=
  getTermClauses (query s).

(** [getIndices] up to its [await]. *)
Definition getIndices_request : M IndicesState Effect unit :=
  setState [Set_loadingIndices true] ;;
  s <- get ;;
  let queryObject := getQueryObjectFromState s in
  emit (HistoryReplace queryObject) ;;
  emit (GetIndices
          {| queryObject := queryObject;
             terms := getTermClausesFromState s;
             p_indices := getFieldClausesFromState "indices" s;
             dataStreams := getFieldClausesFromState "data_streams" s |}).

(** [getIndices] from the settled promise on. *)
Definition getIndices_settled
           (outcome : Settled (ServerResponse GetIndicesResponse) Thrown)
  : M IndicesState Effect unit :=
  match outcome with
  | Fulfilled (ResponseOk response) =>
      setState [Set_indices (r_indices response);
                Set_totalIndices (r_totalIndices response)]
  | Fulfilled (ResponseError error) =>
      emit (AddDanger error)
  | Rejected err =>
      emit (AddDanger (getErrorMessage err "There was a problem loading the indices"))
  end ;;
  s <- get ;;
  setState [Set_loadingIndices false;
            Set_isDataStreamColumnVisible (showDataStreams s)].

Definition getIndices
           (outcome : Settled (ServerResponse GetIndicesResponse) Thrown)
  : M IndicesState Effect unit :=
  getIndices_request ;; getIndices_settled outcome.

(** The argument of [onSearchChange]: [ArgsWithQuery | ArgsWithError]. *)
Inductive SearchArgs : Type :=
| ArgsWithQuery (query : Query) (queryText : string)
| ArgsWithError (queryText : string) (error : string).

Definition onSearchChange (args : SearchArgs) : M IndicesState Effect unit :=
  match args with
  | ArgsWithError _ _ => ret tt
  | ArgsWithQuery query queryText =>
      setState [Set_from 0%Z; Set_search queryText; Set_query query]
  end.

Definition is_danger (e : Effect) : bool :=
  match e with AddDanger _ => true | _ => false end.

(** What [getIndices] leaves behind, [before] being the state its second
    half found. *)
Definition getIndices_post
           (outcome : Settled (ServerResponse GetIndicesResponse) Thrown)
           (before after : IndicesState) (log : list Effect) : Prop :=
  loadingIndices after = false /\
  match outcome with
  | Fulfilled (ResponseOk response) =>
      indices after = r_indices response /\
      totalIndices after = r_totalIndices response /\
      filter is_danger log = []
  | Fulfilled (ResponseError error) =>
      indices after = indices before /\
      totalIndices after = totalIndices before /\
      filter is_danger log = [AddDanger error]
  | Rejected err =>
      indices after = indices before /\
      totalIndices after = totalIndices before /\
      filter is_danger log
      = [AddDanger (getErrorMessage err "There was a problem loading the indices")]
  end.

End Component.

End Indices.

(** ** CreatePolicy *)

Module CreatePolicy.
Import JS Server Handler.
Local Open Scope handler_scope.

Section Component.
Context `{Utils} `{Platform}.

Record CreatePolicyState : Type := {
  policyId : string;
  policyIdError : string;
  jsonString : string;
  policySeqNo : option Z;
  policyPrimaryTerm : option Z;
  submitError : string;
  isSubmitting : bool;
  hasSubmitted : bool
}.

Inductive PolicyUpdate : Type :=
| Set_policyIdError (v : string)
| Set_submitError (v : string)
| Set_isSubmitting (v : bool)
| Set_hasSubmitted (v : bool).

Definition policy_update (s : CreatePolicyState) (u : PolicyUpdate) : CreatePolicyState :=
  match u with
  | Set_policyIdError v =>
      {| policyId := policyId s; policyIdError := v; jsonString := jsonString s;
         policySeqNo := policySeqNo s; policyPrimaryTerm := policyPrimaryTerm s;
         submitError := submitError s; isSubmitting := isSubmitting s;
         hasSubmitted := hasSubmitted s |}
  | Set_submitError v =>
      {| policyId := policyId s; policyIdError := policyIdError s;
         jsonString := jsonString s;
         policySeqNo := policySeqNo s; policyPrimaryTerm := policyPrimaryTerm s;
         submitError := v; isSubmitting := isSubmitting s;
         hasSubmitted := hasSubmitted s |}
  | Set_isSubmitting v =>
      {| policyId := policyId s; policyIdError := policyIdError s;
         jsonString := jsonString s;
         policySeqNo := policySeqNo s; policyPrimaryTerm := policyPrimaryTerm s;
         submitError := submitError s; isSubmitting := v;
         hasSubmitted := hasSubmitted s |}
  | Set_hasSubmitted v =>
      {| policyId := policyId s; policyIdError := policyIdError s;
         jsonString := jsonString s;
         policySeqNo := policySeqNo s; policyPrimaryTerm := policyPrimaryTerm s;
         submitError := submitError s; isSubmitting := isSubmitting s;
         hasSubmitted := v |}
  end.

Inductive PolicyEffect : Type :=
| PutPolicy (policy : json) (policyId : string)
            (seqNo primaryTerm : option Z)     (* policyService.putPolicy *)
| ToastDanger (message : string)                 (* toastNotifications *)
| ToastSuccess (message : string)
| HistoryPush (route : string)
| ConsoleError.

(** [this.setState] *)
Definition setPolicyState (us : list PolicyUpdate)
  : M CreatePolicyState PolicyEffect unit :=
  modify (fun s => fold_left policy_update us s).

(** [putPolicy]'s response carries the [_id] of the stored policy. *)
Definition PutPolicyOutcome : Type := Settled (ServerResponse string) Thrown.

(** [onCreate] and [onUpdate] up to their [await]: whether a request
    went out. *)
Definition onCreate_request (policyId : string) (policy : json)
  : M CreatePolicyState PolicyEffect bool :=
  emit (PutPolicy policy policyId None None) ;;
  ret true.

Definition onUpdate_request (policyId : string) (policy : json)
  : M CreatePolicyState PolicyEffect bool :=
  s <- get ;;
  match policySeqNo s, policyPrimaryTerm s with
  | Some seqNo, Some primaryTerm =>
      emit (PutPolicy policy policyId (Some seqNo) (Some primaryTerm)) ;;
      ret true
  | _, _ =>
      emit (ToastDanger "Could not update policy without seqNo and primaryTerm") ;;
      ret false
  end.

(** [onCreate] and [onUpdate] from the settled promise on. *)
Definition onCreate_settled (outcome : PutPolicyOutcome)
  : M CreatePolicyState PolicyEffect unit :=
  match outcome with
  | Fulfilled (ResponseOk _id) =>
      emit (ToastSuccess ("Created policy: " ++ _id)%string) ;;
      emit (HistoryPush ROUTES_POLICIES)
  | Fulfilled (ResponseError error) =>
      setPolicyState [Set_submitError error]
  | Rejected err =>
      setPolicyState
        [Set_submitError (getErrorMessage err "There was a problem creating the policy")]
  end.

Definition onUpdate_settled (outcome : PutPolicyOutcome)
  : M CreatePolicyState PolicyEffect unit :=
  match outcome with
  | Fulfilled (ResponseOk _id) =>
      emit (ToastSuccess ("Updated policy: " ++ _id)%string) ;;
      emit (HistoryPush ROUTES_POLICIES)
  | Fulfilled (ResponseError error) =>
      setPolicyState [Set_submitError error]
  | Rejected err =>
      setPolicyState
        [Set_submitError (getErrorMessage err "There was a problem updating the policy")]
  end.

(** [onSubmit]; [outcome] is how the request settles if one goes out. *)
Definition onSubmit (isEdit : bool) (outcome : PutPolicyOutcome)
  : M CreatePolicyState PolicyEffect unit :=
  s <- get ;;
  let policyId := policyId s in
  let jsonString := jsonString s in
  setPolicyState [Set_submitError ""; Set_isSubmitting true; Set_hasSubmitted true] ;;
  (if (policyId =? "")%string then
     setPolicyState [Set_policyIdError "Required"]
   else
     match JSON_parse jsonString with
     | Some policy =>
         if isEdit then
           sent <- onUpdate_request policyId policy ;;
           if sent then onUpdate_settled outcome else ret tt
         else
           sent <- onCreate_request policyId policy ;;
           if sent then onCreate_settled outcome else ret tt
     | None =>
         emit (ToastDanger "Invalid Policy JSON") ;;
         emit ConsoleError
     end) ;;
  setPolicyState [Set_isSubmitting false].

Definition is_putPolicy (e : PolicyEffect) : bool :=
  match e with PutPolicy _ _ _ _ => true | _ => false end.

Definition has_seqNo_and_primaryTerm (s : CreatePolicyState) : bool :=
  match policySeqNo s, policyPrimaryTerm s with
  | Some _, Some _ => true
  | _, _ => false
  end.

Definition parses (text : string) : bool :=
  match JSON_parse text with Some _ => true | None => false end.

End Component.

End CreatePolicy.

(** ** Indices: the table, the filters and the delete dialog *)

(** What the page takes from [utils/constants] and from the search bar. *)
Class IndicesConstants `{EuiQuery} : Type := {
  SECURITY_EXCEPTION_PREFIX : string;
  (** [DEFAULT_QUERY_PARAMS.search] *)
  DEFAULT_QUERY_PARAMS_search : string;
  (** [Query.parse] *)
  Query_parse : string -> Query
}.

Module IndicesPage.
Import JS Server Handler Indices.
Local Open Scope handler_scope.

Section Component.
Context `{Utils} `{EuiQuery} `{!IndicesConstants}.

(** Setters of single properties of the state. *)
Definition set_from (v : Z) (s : IndicesState) : IndicesState :=
  update s (Set_from v).
Definition set_search (v : string) (s : IndicesState) : IndicesState :=
  update s (Set_search v).
Definition set_query (v : Query) (s : IndicesState) : IndicesState :=
  update s (Set_query v).
Definition set_size (v : Z) (s : IndicesState) : IndicesState :=
  {| totalIndices := totalIndices s; from := from s; size := v;
     search := search s; query := query s; sortField := sortField s;
     sortDirection := sortDirection s; selectedItems := selectedItems s;
     indices := indices s; loadingIndices := loadingIndices s;
     showDataStreams := showDataStreams s;
     isDataStreamColumnVisible := isDataStreamColumnVisible s;
     deleteIndexModalVisible := deleteIndexModalVisible s |}.
Definition set_sortField (v : string) (s : IndicesState) : IndicesState :=
  {| totalIndices := totalIndices s; from := from s; size := size s;
     search := search s; query := query s; sortField := v;
     sortDirection := sortDirection s; selectedItems := selectedItems s;
     indices := indices s; loadingIndices := loadingIndices s;
     showDataStreams := showDataStreams s;
     isDataStreamColumnVisible := isDataStreamColumnVisible s;
     deleteIndexModalVisible := deleteIndexModalVisible s |}.
Definition set_sortDirection (v : Direction) (s : IndicesState) : IndicesState :=
  {| totalIndices := totalIndices s; from := from s; size := size s;
     search := search s; query := query s; sortField := sortField s;
     sortDirection := v; selectedItems := selectedItems s;
     indices := indices s; loadingIndices := loadingIndices s;
     showDataStreams := showDataStreams s;
     isDataStreamColumnVisible := isDataStreamColumnVisible s;
     deleteIndexModalVisible := deleteIndexModalVisible s |}.
Definition set_selectedItems (v : list ManagedCatIndex) (s : IndicesState)
  : IndicesState :=
  {| totalIndices := totalIndices s; from := from s; size := size s;
     search := search s; query := query s; sortField := sortField s;
     sortDirection := sortDirection s; selectedItems := v;
     indices := indices s; loadingIndices := loadingIndices s;
     showDataStreams := showDataStreams s;
     isDataStreamColumnVisible := isDataStreamColumnVisible s;
     deleteIndexModalVisible := deleteIndexModalVisible s |}.
Definition set_showDataStreams (v : bool) (s : IndicesState) : IndicesState :=
  {| totalIndices := totalIndices s; from := from s; size := size s;
     search := search s; query := query s; sortField := sortField s;
     sortDirection := sortDirection s; selectedItems := selectedItems s;
     indices := indices s; loadingIndices := loadingIndices s;
     showDataStreams := v;
     isDataStreamColumnVisible := isDataStreamColumnVisible s;
     deleteIndexModalVisible := deleteIndexModalVisible s |}.
Definition set_deleteIndexModalVisible (v : bool) (s : IndicesState)
  : IndicesState :=
  {| totalIndices := totalIndices s; from := from s; size := size s;
     search := search s; query := query s; sortField := sortField s;
     sortDirection := sortDirection s; selectedItems := selectedItems s;
     indices := indices s; loadingIndices := loadingIndices s;
     showDataStreams := showDataStreams s;
     isDataStreamColumnVisible := isDataStreamColumnVisible s;
     deleteIndexModalVisible := v |}.

(** What these handlers do to the outside. *)
Inductive PageEffect : Type :=
| SetBreadcrumbs                           (* chrome.setBreadcrumbs *)
| CallGetIndices                           (* this.getIndices() *)
| ApiCaller (endpoint : string) (index : string)
| ToastsAddSuccess (message : string)
| ToastsAddWarning (message : string)
| ToastsAddDanger (message : string).

(** [this.setState] with an object of several properties. *)
Definition set_state (fs : list (IndicesState -> IndicesState))
  : M IndicesState PageEffect unit :=
  modify (fun s => fold_left (fun acc f => f acc) fs s).

(** The state the constructor builds from [getURLQueryParams(location)]. *)
Definition initial_state (params : IndicesQueryParams) : IndicesState :=
  {| totalIndices := 0%Z;
     from := q_from params;
     size := q_size params;
     search := q_search params;
     query := Query_parse (q_search params);
     sortField := q_sortField params;
     sortDirection := q_sortDirection params;
     selectedItems := [];
     indices := [];
     loadingIndices := true;
     showDataStreams := q_showDataStreams params;
     isDataStreamColumnVisible := q_showDataStreams params;
     deleteIndexModalVisible := false |}.

Definition componentDidMount : M IndicesState PageEffect unit :=
  emit SetBreadcrumbs ;; emit CallGetIndices.

(** [_.isEqual] on two query objects: their properties are numbers,
    strings and booleans. *)
Definition Direction_eqb (a b : Direction) : bool :=
  match a, b with
  | asc, asc | desc, desc => true
  | _, _ => false
  end.

Definition isEqual (a b : IndicesQueryParams) : bool :=
  (q_from a =? q_from b)%Z && (q_size a =? q_size b)%Z
  && (q_search a =? q_search b)%string
  && (q_sortField a =? q_sortField b)%string
  && Direction_eqb (q_sortDirection a) (q_sortDirection b)
  && Bool.eqb (q_showDataStreams a) (q_showDataStreams b).

Definition componentDidUpdate (prevState : IndicesState)
  : M IndicesState PageEffect unit :=
  s <- get ;;
  let prevQuery := getQueryObjectFromState prevState in
  let currQuery := getQueryObjectFromState s in
  if negb (isEqual prevQuery currQuery) then emit CallGetIndices else ret tt.

Definition toggleShowDataStreams : M IndicesState PageEffect unit :=
  s <- get ;;
  set_state [set_showDataStreams (negb (showDataStreams s))].

(** [onTableChange({ page: { index, size }, sort: { field, direction } })].
    [from] is the product of the integers, which is JavaScript's product
    as long as it stays below [2^53] in absolute value. *)
Definition onTableChange (page size : Z) (sortField : string)
           (sortDirection : Direction) : M IndicesState PageEffect unit :=
  set_state [set_from (page * size)%Z; set_size size;
             set_sortField sortField; set_sortDirection sortDirection].

Definition onSelectionChange (selectedItems : list ManagedCatIndex)
  : M IndicesState PageEffect unit :=
  set_state [set_selectedItems selectedItems].

Definition resetFilters : M IndicesState PageEffect unit :=
  set_state [set_search DEFAULT_QUERY_PARAMS_search;
             set_query (Query_parse DEFAULT_QUERY_PARAMS_search)].

Definition onDeleteIndexModalClose : M IndicesState PageEffect unit :=
  set_state [set_deleteIndexModalVisible false].

(** [onClick] of the "Delete" entry of the actions menu. *)
Definition onDeleteClick : M IndicesState PageEffect unit :=
  set_state [set_deleteIndexModalVisible true].

(** [item.index]; a [ManagedCatIndex] holds its name there, a string. *)
Definition index_of (item : ManagedCatIndex) : string :=
  match obj_get "index" item with
  | Some (JStr name) => name
  | _ => ""
  end.

(** [onDeleteIndexModalConfirm] up to its [await]. *)
Definition onDeleteIndexModalConfirm_request : M IndicesState PageEffect unit :=
  s <- get ;;
  emit (ApiCaller "indices.delete"
          (String.concat "," (map index_of (selectedItems s)))).

(** How a handler ends. *)
Inductive Completion : Type :=
| Returned
| Threw.          (* a [TypeError]: a property of [undefined] was read *)

(** [onDeleteIndexModalConfirm] after its [await]; [result] is [None] when
    the call resolved to [undefined]. *)
Definition onDeleteIndexModalConfirm_settled (result : option (ServerResponse json))
  : M IndicesState PageEffect Completion :=
  match result with
  | Some (ResponseOk _) =>
      onDeleteIndexModalClose ;;
      emit (ToastsAddSuccess "Delete successfully") ;;
      emit CallGetIndices ;;
      ret Returned
  | Some (ResponseError error) =>
      emit (ToastsAddDanger error) ;;
      ret Returned
  | None => ret Threw
  end.

Definition DataStream : Type := JS.obj.

Record GetDataStreamsResponse : Type := {
  r_dataStreams : list DataStream
}.

(** [getDataStreams] after its [await]: what it returns, [None] when it
    throws (an error response has no [response] to read [dataStreams]
    from). *)
Definition getDataStreams (serverResponse : ServerResponse GetDataStreamsResponse)
  : M IndicesState PageEffect (option (list DataStream)) :=
  match serverResponse with
  | ResponseOk response => ret (Some (r_dataStreams response))
  | ResponseError error =>
      (if String.prefix SECURITY_EXCEPTION_PREFIX error
       then emit (ToastsAddWarning error)
       else ret tt) ;;
      ret None
  end.

(** *** What [render] derives from the state *)

(** [Math.floor(from / size)], for integers [from] and [size] below [2^53]
    in absolute value, where the floored quotient of JavaScript's numbers
    is that of the integers.  When [size] is 0 the division gives [NaN] or
    an infinity, no page number: [None]. *)
Definition pageIndex (s : IndicesState) : option Z :=
  if (size s =? 0)%Z then None else Some (from s / size s)%Z.

Definition filterIsApplied (s : IndicesState) : bool :=
  negb (search s =? "")%string.

(** The "Delete" entry and the "Apply policy" button are disabled by
    [!selectedItems.length]. *)
Definition actionsDisabled (s : IndicesState) : bool :=
  match selectedItems s with [] => true | _ :: _ => false end.

(** *** The update that follows a handler *)

Definition is_getIndices (e : PageEffect) : bool :=
  match e with CallGetIndices => true | _ => false end.

(** Whether [componentDidUpdate], run after [handler] has changed the
    state [s], calls [getIndices]. *)
Definition reloads {E A} (handler : M IndicesState E A) (s : IndicesState) : bool :=
  existsb is_getIndices
    (snd (exec (componentDidUpdate s) (fst (exec handler s)))).

End Component.

End IndicesPage.

(** ** CreatePolicy: loading, editing and the pending request *)

(** [DEFAULT_POLICY] of the page's [utils/constants]. *)
Class PolicyConstants : Type := {
  DEFAULT_POLICY : string
}.

Module PolicyPage.
Import JS Server Handler CreatePolicy.
Local Open Scope handler_scope.

(** *** [JSON.stringify(value, null, gap)] for a gap of spaces *)

Definition stringify_block_gap (gap open close indent : string)
           (items : list string) : string :=
  match items with
  | [] => (open ++ close)%string
  | _ =>
      let inner := (gap ++ indent)%string in
      (open ++ newline
         ++ String.concat ("," ++ newline) (map (String.append inner) items)
         ++ newline ++ indent ++ close)%string
  end.

Fixpoint stringify_gap (gap indent : string) (j : json) : string :=
  match j with
  | JNull => "null"
  | JBool true => "true"
  | JBool false => "false"
  | JNum z => number_to_string z
  | JStr s => quote s
  | JArr l =>
      stringify_block_gap gap "[" "]" indent
        (map (stringify_gap gap (gap ++ indent)) l)
  | JObj o =>
      stringify_block_gap gap "{" "}" indent
        (map (fun kv =>
                (quote (fst kv) ++ ": "
                   ++ stringify_gap gap (gap ++ indent) (snd kv))%string)
             o)
  end.

(** [JSON.stringify(value, null, 4)] *)
Definition JSON_stringify4 (j : json) : string := stringify_gap "    " "" j.

(** [response.response] of [policyService.getPolicy]. *)
Record PolicyDocument : Type := {
  doc_id : string;
  doc_seqNo : Z;
  doc_primaryTerm : Z;
  doc_policy : json
}.

(** The value of [id] in [queryString.parse(location.search)]. *)
Inductive QueryValue : Type :=
| QUndefined
| QNull
| QString (s : string)
| QArray (l : list (option string)).

(** [`${id}`] *)
Definition template_text (id : QueryValue) : string :=
  match id with
  | QUndefined => "undefined"
  | QNull => "null"
  | QString s => s
  | QArray l =>
      String.concat "," (map (fun x => match x with Some s => s | None => "" end) l)
  end.

Inductive Crumb : Type :=
| INDEX_MANAGEMENT
| POLICIES
| EDIT_POLICY
| CREATE_POLICY
| CrumbText (text : string).

(** What [componentDidMount] and [onCancel] do to the outside. *)
Inductive MountEffect : Type :=
| BreadcrumbsSet (crumbs : list Crumb)
| BreadcrumbsPush (crumb : Crumb)
| GetPolicyToEdit (policyId : string)        (* this.getPolicyToEdit(id) *)
| MountDanger (message : string)             (* toastNotifications.addDanger *)
| MountPush (route : string)                 (* history.push *)
| GoBack.                                    (* history.goBack *)

Section Component.
Context `{Utils} `{Platform} `{PolicyConstants}.

(** The state the constructor builds. *)
Definition initial_state : CreatePolicyState :=
  {| policySeqNo := None; policyPrimaryTerm := None; policyId := "";
     policyIdError := ""; submitError := ""; jsonString := "";
     isSubmitting := false; hasSubmitted := false |}.

(** Setters of single properties of the state. *)
Definition set_policyIdError (v : string) (s : CreatePolicyState) : CreatePolicyState :=
  policy_update s (Set_policyIdError v).
Definition set_policyId (v : string) (s : CreatePolicyState) : CreatePolicyState :=
  {| policyId := v; policyIdError := policyIdError s; jsonString := jsonString s;
     policySeqNo := policySeqNo s; policyPrimaryTerm := policyPrimaryTerm s;
     submitError := submitError s; isSubmitting := isSubmitting s;
     hasSubmitted := hasSubmitted s |}.
Definition set_jsonString (v : string) (s : CreatePolicyState) : CreatePolicyState :=
  {| policyId := policyId s; policyIdError := policyIdError s; jsonString := v;
     policySeqNo := policySeqNo s; policyPrimaryTerm := policyPrimaryTerm s;
     submitError := submitError s; isSubmitting := isSubmitting s;
     hasSubmitted := hasSubmitted s |}.
Definition set_policySeqNo (v : option Z) (s : CreatePolicyState) : CreatePolicyState :=
  {| policyId := policyId s; policyIdError := policyIdError s;
     jsonString := jsonString s;
     policySeqNo := v; policyPrimaryTerm := policyPrimaryTerm s;
     submitError := submitError s; isSubmitting := isSubmitting s;
     hasSubmitted := hasSubmitted s |}.
Definition set_policyPrimaryTerm (v : option Z) (s : CreatePolicyState)
  : CreatePolicyState :=
  {| policyId := policyId s; policyIdError := policyIdError s;
     jsonString := jsonString s;
     policySeqNo := policySeqNo s; policyPrimaryTerm := v;
     submitError := submitError s; isSubmitting := isSubmitting s;
     hasSubmitted := hasSubmitted s |}.

(** [this.setState] with an object of several properties. *)
Definition set_state {E} (fs : list (CreatePolicyState -> CreatePolicyState))
  : M CreatePolicyState E unit :=
  modify (fun s => fold_left (fun acc f => f acc) fs s).

Definition componentDidMount (isEdit : bool) (id : QueryValue)
  : M CreatePolicyState MountEffect unit :=
  emit (BreadcrumbsSet [INDEX_MANAGEMENT; POLICIES]) ;;
  if isEdit then
    match id with
    | QString s =>
        if negb (s =? "")%string then
          emit (BreadcrumbsPush EDIT_POLICY) ;;
          emit (BreadcrumbsPush (CrumbText s)) ;;
          emit (GetPolicyToEdit s)
        else
          emit (MountDanger ("Invalid policy id: " ++ template_text id)%string) ;;
          emit (MountPush ROUTES_POLICIES)
    | _ =>
        emit (MountDanger ("Invalid policy id: " ++ template_text id)%string) ;;
        emit (MountPush ROUTES_POLICIES)
    end
  else
    emit (BreadcrumbsPush CREATE_POLICY) ;;
    set_state [set_jsonString DEFAULT_POLICY].

(** [getPolicyToEdit] from the settled promise on. *)
Definition getPolicyToEdit
           (outcome : Settled (ServerResponse PolicyDocument) Thrown)
  : M CreatePolicyState PolicyEffect unit :=
  match outcome with
  | Fulfilled (ResponseOk response) =>
      set_state
        [set_policySeqNo (Some (doc_seqNo response));
         set_policyPrimaryTerm (Some (doc_primaryTerm response));
         set_policyId (doc_id response);
         set_jsonString
           (JSON_stringify4 (JObj (obj_set "policy" (doc_policy response) [])))]
  | Fulfilled (ResponseError error) =>
      emit (ToastDanger ("Could not load the policy: " ++ error)%string) ;;
      emit (HistoryPush ROUTES_POLICIES)
  | Rejected err =>
      emit (ToastDanger (getErrorMessage err "Could not load the policy")) ;;
      emit (HistoryPush ROUTES_POLICIES)
  end.

Definition onCancel (isEdit : bool) : M CreatePolicyState MountEffect unit :=
  if isEdit then emit GoBack else emit (MountPush ROUTES_POLICIES).

(** [onChange] of the policy id input; [value] is [e.target.value]. *)
Definition onChange (value : string) : M CreatePolicyState PolicyEffect unit :=
  s <- get ;;
  let policyId := value in
  if hasSubmitted s then
    set_state [set_policyId policyId;
               set_policyIdError (if (policyId =? "")%string then "Required" else "")]
  else set_state [set_policyId policyId].

Definition onChangeJSON (value : string) : M CreatePolicyState PolicyEffect unit :=
  set_state [set_jsonString value].

Definition onAutoIndent : M CreatePolicyState PolicyEffect unit :=
  s <- get ;;
  match JSON_parse (jsonString s) with
  | Some parsedJSON => set_state [set_jsonString (JSON_stringify4 parsedJSON)]
  | None => ret tt
  end.

(** [hasJSONError] of [render]. *)
Definition hasJSONError (s : CreatePolicyState) : bool :=
  negb (parses (jsonString s)).

(** *** [onSubmit] on both sides of the request

    [onSubmit_request] runs [onSubmit] until [onCreate] or [onUpdate] awaits
    [putPolicy], or to its end when no request goes out; it answers whether
    one is awaited.  [onSubmit_settled] is the rest. *)
Definition onSubmit_request (isEdit : bool)
  : M CreatePolicyState PolicyEffect bool :=
  s <- get ;;
  let policyId := policyId s in
  let jsonString := jsonString s in
  setPolicyState [Set_submitError ""; Set_isSubmitting true; Set_hasSubmitted true] ;;
  if (policyId =? "")%string then
    setPolicyState [Set_policyIdError "Required"] ;;
    setPolicyState [Set_isSubmitting false] ;;
    ret false
  else
    match JSON_parse jsonString with
    | Some policy =>
        sent <- (if isEdit then onUpdate_request policyId policy
                 else onCreate_request policyId policy) ;;
        if sent then ret true
        else setPolicyState [Set_isSubmitting false] ;; ret false
    | None =>
        emit (ToastDanger "Invalid Policy JSON") ;;
        emit ConsoleError ;;
        setPolicyState [Set_isSubmitting false] ;;
        ret false
    end.

Definition onSubmit_settled (isEdit : bool) (outcome : PutPolicyOutcome)
  : M CreatePolicyState PolicyEffect unit :=
  (if isEdit then onUpdate_settled outcome else onCreate_settled outcome) ;;
  setPolicyState [Set_isSubmitting false].

(** *** The mounted page

    What can happen to it, and the requests it waits for. *)
Inductive PageEvent : Type :=
| EvLoaded (outcome : Settled (ServerResponse PolicyDocument) Thrown)
| EvChange (value : string)
| EvChangeJSON (value : string)
| EvAutoIndent
| EvSubmit
| EvSettled (outcome : PutPolicyOutcome).

Record Page : Type := {
  state : CreatePolicyState;
  pending : nat            (* [putPolicy] requests not yet settled *)
}.

Definition mounted : Page := {| state := initial_state; pending := 0 |}.

Definition page_step (isEdit : bool) (w : Page) (e : PageEvent)
  : Page * list PolicyEffect :=
  match e with
  | EvLoaded outcome =>
      let '(s, log) := exec (getPolicyToEdit outcome) (state w) in
      ({| state := s; pending := pending w |}, log)
  | EvChange value =>
      let '(s, log) := exec (onChange value) (state w) in
      ({| state := s; pending := pending w |}, log)
  | EvChangeJSON value =>
      let '(s, log) := exec (onChangeJSON value) (state w) in
      ({| state := s; pending := pending w |}, log)
  | EvAutoIndent =>
      let '(s, log) := exec onAutoIndent (state w) in
      ({| state := s; pending := pending w |}, log)
  | EvSubmit =>
      let '(sent, s, log) := onSubmit_request isEdit (state w) in
      ({| state := s; pending := if sent then S (pending w) else pending w |}, log)
  | EvSettled outcome =>
      match pending w with
      | O => (w, [])
      | S n =>
          let '(s, log) := exec (onSubmit_settled isEdit outcome) (state w) in
          ({| state := s; pending := n |}, log)
      end
  end.

Fixpoint page_run (isEdit : bool) (w : Page) (es : list PageEvent)
  : Page * list PolicyEffect :=
  match es with
  | [] => (w, [])
  | e :: r =>
      let '(w1, log1) := page_step isEdit w e in
      let '(w2, log2) := page_run isEdit w1 r in
      (w2, log1 ++ log2)
  end.

Definition is_loaded_ok (e : PageEvent) : bool :=
  match e with
  | EvLoaded (Fulfilled (ResponseOk _)) => true
  | _ => false
  end.

Definition is_load (e : PageEvent) : bool :=
  match e with EvLoaded _ => true | _ => false end.

Definition is_getPolicyToEdit (e : MountEffect) : bool :=
  match e with GetPolicyToEdit _ => true | _ => false end.

(** [typeof id === "string" && !!id] *)
Definition usable_id (id : QueryValue) : bool :=
  match id with
  | QString s => negb (s =? "")%string
  | _ => false
  end.

End Component.

End PolicyPage.

(** ** IndexDetail: importing settings and mappings *)

(** [_.pick], which [onImportSettings] applies to the settings of the source
    index, and the list [INDEX_IMPORT_SETTINGS] of [utils/constants]. *)
Class ImportSettings : Type := {
  lodash_pick : JS.json -> list string -> JS.obj;
  INDEX_IMPORT_SETTINGS : list string
}.

Module ImportSettingsHandler.
Import JS Server IndexDetail.

(** [delete object[key]] *)
Definition obj_delete (k : string) (o : obj) : obj :=
  filter (fun kv => negb (fst kv =? k)%string) o.

(** [_.omit(object, paths)] for paths that are plain keys: the own
    properties are copied to a new object, then the paths are unset, the
    last one first.  [None] is [undefined]. *)
Definition omit (object : option obj) (paths : list string) : obj :=
  match object with
  | None => []
  | Some o => fold_right obj_delete (obj_spread o) paths
  end.

(** What [onImportSettings] does to the outside. *)
Inductive ImportAction : Type :=
| ImportModalShow                        (* the confirm dialog *)
| GetIndexDetail (index : string)        (* onGetIndexDetail(index) *)
| ImportOnChange (value : JS.obj)        (* props.onChange(value) *)
| AddSuccess (message : string).         (* SimpleEuiToast.addSuccess *)

(** Where a call of [onImportSettings] stands. *)
Inductive ImportTask : Type :=
| Asking             (* the dialog is open *)
| Fetching           (* the index detail was asked for *)
| Skipped.           (* nothing to wait for *)

Section Component.
Context `{IndexMapping} `{ImportSettings}.

(** The argument of [onChange]. *)
Definition import_form (indexDetail : option JS.obj) : JS.obj :=
  let properties :=
    match indexDetail with
    | Some d => mappings_properties d
    | None => None
    end in
  let settings :=
    match indexDetail with
    | Some d => obj_get "settings" d
    | None => None
    end in
  obj_set "settings"
    (JObj (lodash_pick (or_else settings (JObj [])) INDEX_IMPORT_SETTINGS))
    (obj_set "mappings"
       (JObj (obj_set "properties"
                (transformObjectToArray (or_else properties (JObj [])))
                []))
       (obj_spread (omit indexDetail ["aliases"; "data_stream"]))).

(** [onImportSettings({ index })] up to the first thing it waits for;
    [onGetIndexDetail] tells whether the prop is there. *)
Definition onImportSettings (onGetIndexDetail : bool) (index : string) (h : Hooks)
  : ImportTask * list ImportAction :=
  if onGetIndexDetail then
    if hasEdit h then (Asking, [ImportModalShow])
    else (Fetching, [GetIndexDetail index])
  else (Skipped, []).

(** [onOk] of the dialog: "Overwrite". *)
Definition onImportSettings_onOk (index : string) : ImportTask * list ImportAction :=
  (Fetching, [GetIndexDetail index]).

(** [onImportSettings] once [onGetIndexDetail(index)] is fulfilled. *)
Definition onImportSettings_resolved (index : string) (indexDetail : option JS.obj)
           (h : Hooks) : Hooks * list ImportAction :=
  (set_hasEdit false h,
   [ImportOnChange (import_form indexDetail);
    AddSuccess ("Settings and mappings of [" ++ index
                  ++ "] have been import successfully")%string]).

End Component.

End ImportSettingsHandler.

(** ** IndexDetail: the form value across renders

    [props.value] is an object with identity.  [onValueChange] changes the
    object of its render in place ([set(finalValue, name, val)]) and hands
    the parent a shallow copy of it; [onIndexInputBlur] is memoised on
    [[finalValue.index, onSimulateIndexTemplate]], so that a call of it
    reads the [finalValue] of the render that created the handler.

    Every path [onValueChange] is called with has one or two keys: what is
    changed in place is the form value itself or an object it holds under
    one of its keys.  The store keeps these two layers; what lies below is
    never changed by the component and is kept as a JSON value. *)

Module Renders.
Import JS Server IndexDetail ImportSettingsHandler.

Definition Ref : Type := nat.

(** The own properties of an object of the store, in enumeration order,
    each with the cell its value is in.  A copy of the object holds the
    same cells.  A cell that holds a primitive is never written, so that
    sharing it is copying it. *)
Definition Props : Type := list (string * Ref).

Fixpoint prop_get (k : string) (o : Props) : option Ref :=
  match o with
  | [] => None
  | (k', c) :: r => if (k =? k')%string then Some c else prop_get k r
  end.

Fixpoint prop_replace (k : string) (c : Ref) (o : Props) : Props :=
  match o with
  | [] => []
  | (k', c') :: r =>
      if (k =? k')%string then (k, c) :: r else (k', c') :: prop_replace k c r
  end.

Fixpoint prop_insert_index (i : N) (k : string) (c : Ref) (o : Props) : Props :=
  match o with
  | [] => [(k, c)]
  | (k', c') :: r =>
      match array_index k' with
      | Some j => if i <? j then (k, c) :: o
                  else (k', c') :: prop_insert_index i k c r
      | None => (k, c) :: o
      end
  end.

(** [o[k] = v], as [obj_set]. *)
Definition prop_set (k : string) (c : Ref) (o : Props) : Props :=
  match prop_get k o with
  | Some _ => prop_replace k c o
  | None =>
      match array_index k with
      | Some i => prop_insert_index i k c o
      | None => o ++ [(k, c)]
      end
  end.

Record Store : Type := { objects : list Props; cells : list json }.

Definition empty : Store := {| objects := []; cells := [] |}.

Definition props_of (s : Store) (r : Ref) : Props := nth r (objects s) [].

Definition cell (s : Store) (c : Ref) : json := nth c (cells s) JNull.

(** The value of an object, read through the store. *)
Definition read (s : Store) (kc : string * Ref) : string * json :=
  (fst kc, cell s (snd kc)).

Definition content (s : Store) (r : Ref) : JS.obj := map (read s) (props_of s r).

Fixpoint update {A} (n : nat) (x : A) (l : list A) : list A :=
  match l, n with
  | [], _ => []
  | _ :: r, O => x :: r
  | y :: r, S n' => y :: update n' x r
  end.

Definition new_cell (v : json) (s : Store) : Ref * Store :=
  (List.length (cells s), {| objects := objects s; cells := cells s ++ [v] |}).

Definition new_object (o : Props) (s : Store) : Ref * Store :=
  (List.length (objects s), {| objects := objects s ++ [o]; cells := cells s |}).

Definition write_cell (c : Ref) (v : json) (s : Store) : Store :=
  {| objects := objects s; cells := update c v (cells s) |}.

Definition write_object (r : Ref) (o : Props) (s : Store) : Store :=
  {| objects := update r o (objects s); cells := cells s |}.

(** An object that comes from outside (the parent's, a response, a merged
    value): a new object on new cells. *)
Definition alloc (o : JS.obj) (s : Store) : Ref * Store :=
  let '(props, s1) :=
    fold_left
      (fun acc kv =>
         let '(c, s') := new_cell (snd kv) (snd acc) in
         (fst acc ++ [(fst kv, c)], s'))
      o ([], s) in
  new_object props s1.

(** [{...finalValue}] *)
Definition spread (r : Ref) (s : Store) : Ref * Store :=
  new_object
    (fold_left (fun total kc => prop_set (fst kc) (snd kc) total) (props_of s r) [])
    s.

(** *** [_.set(object, path, value)], in place

    The names [onValueChange] is called with, by the place of the call:
    a field of the first form ([name as string]), a field of the settings
    form ([["settings", name]]), the settings as a whole, and the mapping
    properties. *)
Inductive Name : Type :=
| Field (name : string)
| SettingsField (name : string)
| WholeSettings
| MappingsProperties.

(** [name !== "index"] fails for the string ["index"] only. *)
Definition is_index_name (name : Name) : bool :=
  match name with
  | Field name => (name =? "index")%string
  | _ => false
  end.

Fixpoint has_char (c : ascii) (s : string) : bool :=
  match s with
  | EmptyString => false
  | String c' r => (c =? c')%char || has_char c r
  end.

(** lodash's [castPath]: an array is the path; a string is one key when it
    has no dot and no bracket or names a property of the object, and
    ["mappings.properties"] is split at its dot otherwise.  Other strings
    with a dot or a bracket are parsed by [stringToPath], which is not
    modelled: [None]. *)
Definition castPath (name : Name) (o : Props) : option (list string) :=
  match name with
  | Field name =>
      if negb (has_char "." name || has_char "[" name) then Some [name]
      else match prop_get name o with
           | Some _ => Some [name]
           | None => None
           end
  | SettingsField name => Some ["settings"; name]
  | WholeSettings => Some ["settings"]
  | MappingsProperties =>
      match prop_get "mappings.properties" o with
      | Some _ => Some ["mappings.properties"]
      | None => Some ["mappings"; "properties"]
      end
  end.

(** Keys which [set] leaves alone in the later versions of lodash. *)
Definition reserved (k : string) : bool :=
  (k =? "__proto__")%string || (k =? "constructor")%string
  || (k =? "prototype")%string.

(** lodash's [isIndex]: a canonical numeral below [2^53 - 1]. *)
Definition isIndex (k : string) : option N :=
  match k with
  | EmptyString => None
  | String c EmptyString => digit_of c
  | String c _ =>
      if (c =? "0")%char then None
      else match digits_value 0 k with
           | Some n => if n <? 9007199254740991 then Some n else None
           | None => None
           end
  end.

(** [array[k] = val] where the outcome is an array without holes. *)
Definition array_set (k : string) (val : json) (l : list json) : option (list json) :=
  match array_index k with
  | Some i =>
      if (N.to_nat i <? List.length l)%nat then Some (update (N.to_nat i) val l)
      else if (N.to_nat i =? List.length l)%nat then Some (l ++ [val])
      else None
  | None => None
  end.

(** lodash's [baseSet] along a path of one or two keys.  With two keys, what
    the object holds under the first key is changed in place when it is an
    object or an array; otherwise a new object is put there, or a new array
    when the second key is an index.  [None] where the outcome depends on
    the version of lodash (a reserved key) or is no JSON value (an array
    with holes or with a named property). *)
Definition lodash_set (r : Ref) (path : list string) (val : json) (s : Store)
  : option Store :=
  if existsb reserved path then None
  else
    match path with
    | [k] =>
        let '(c, s1) := new_cell val s in
        Some (write_object r (prop_set k c (props_of s r)) s1)
    | [k1; k2] =>
        let create :=
          match
            match isIndex k2 with
            | Some i => option_map JArr (array_set k2 val [])
            | None => Some (JObj (obj_set k2 val []))
            end
          with
          | Some nested =>
              let '(c, s1) := new_cell nested s in
              Some (write_object r (prop_set k1 c (props_of s r)) s1)
          | None => None
          end in
        match prop_get k1 (props_of s r) with
        | Some c =>
            match cell s c with
            | JObj o => Some (write_cell c (JObj (obj_set k2 val o)) s)
            | JArr l =>
                match array_set k2 val l with
                | Some l' => Some (write_cell c (JArr l') s)
                | None => None
                end
            | _ => create
            end
        | None => create
        end
    | _ => None
    end.

(** *** The mounted component *)

(** The memoised [onIndexInputBlur]: the [finalValue] and the
    [onSimulateIndexTemplate] its closure holds (a function prop is known
    by its identity; [None] is [undefined]), and the [finalValue.index] of
    its dependency list. *)
Record BlurHandler : Type := {
  finalValue : Ref;
  onSimulateIndexTemplate : option nat;
  dep_index : option Ref
}.

(** A call of [onImportSettings({ index })]. *)
Inductive ImportCall : Type :=
| Importing (task : ImportTask) (index : string)
| Imported.

Record Mounted : Type := {
  m_hooks : Hooks;
  m_store : Store;
  (** [props.value] of the latest render *)
  m_value : option Ref;
  (** [onIndexInputBlur] of the latest render *)
  m_onIndexInputBlur : BlurHandler;
  (** the calls of [onIndexInputBlur], each with the handler that runs *)
  m_calls : list (Task * BlurHandler);
  (** the argument of the latest call of [props.onChange] *)
  m_handed : option Ref;
  m_imports : list ImportCall
}.

Definition with_hooks (h : Hooks) (w : Mounted) : Mounted :=
  {| m_hooks := h; m_store := m_store w; m_value := m_value w;
     m_onIndexInputBlur := m_onIndexInputBlur w; m_calls := m_calls w;
     m_handed := m_handed w; m_imports := m_imports w |}.
Definition with_calls (calls : list (Task * BlurHandler)) (w : Mounted) : Mounted :=
  {| m_hooks := m_hooks w; m_store := m_store w; m_value := m_value w;
     m_onIndexInputBlur := m_onIndexInputBlur w; m_calls := calls;
     m_handed := m_handed w; m_imports := m_imports w |}.
Definition with_imports (imports : list ImportCall) (w : Mounted) : Mounted :=
  {| m_hooks := m_hooks w; m_store := m_store w; m_value := m_value w;
     m_onIndexInputBlur := m_onIndexInputBlur w; m_calls := m_calls w;
     m_handed := m_handed w; m_imports := imports |}.

(** [props.onChange(value)]: the parent is handed a new object. *)
Definition props_onChange (value : JS.obj) (w : Mounted) : Mounted :=
  let '(r, s) := alloc value (m_store w) in
  {| m_hooks := m_hooks w; m_store := s; m_value := m_value w;
     m_onIndexInputBlur := m_onIndexInputBlur w; m_calls := m_calls w;
     m_handed := Some r; m_imports := m_imports w |}.

(** The user's current draft: the form value as it is now, [value || {}]. *)
Definition draft (w : Mounted) : JS.obj :=
  match m_value w with
  | Some r => content (m_store w) r
  | None => []
  end.

(** What a call of [onIndexInputBlur] reads as [finalValue]. *)
Definition held (w : Mounted) (c : BlurHandler) : JS.obj :=
  content (m_store w) (finalValue c).

Definition same_primitive (a b : json) : bool :=
  match a, b with
  | JNull, JNull => true
  | JBool x, JBool y => Bool.eqb x y
  | JNum x, JNum y => (x =? y)%Z
  | JStr x, JStr y => (x =? y)%string
  | _, _ => false
  end.

(** [Object.is] on what two properties hold ([None]: [undefined]): equal
    primitives, or the object of one cell. *)
Definition Object_is (s : Store) (a b : option Ref) : bool :=
  match a, b with
  | None, None => true
  | Some x, Some y => (x =? y)%nat || same_primitive (cell s x) (cell s y)
  | _, _ => false
  end.

Definition same_function (a b : option nat) : bool :=
  match a, b with
  | None, None => true
  | Some x, Some y => (x =? y)%nat
  | _, _ => false
  end.

(** [useCallback(..., [finalValue.index, onSimulateIndexTemplate])] on a
    render after the first: the handler is kept while the dependencies are
    what they were when it was made. *)
Definition useCallback (s : Store) (fv : Ref) (sim : option nat) (memo : BlurHandler)
  : BlurHandler :=
  let index := prop_get "index" (props_of s fv) in
  if Object_is s index (dep_index memo)
     && same_function sim (onSimulateIndexTemplate memo)
  then memo
  else {| finalValue := fv; onSimulateIndexTemplate := sim; dep_index := index |}.

(** What the parent passes as [value] when it renders the component. *)
Inductive Passed : Type :=
| Unchanged              (* the object of the render before *)
| Handed                 (* the object [onChange] was last called with *)
| Object (o : JS.obj)    (* another object, given by its value *)
| Undefined.

(** [const finalValue = value || {}] *)
Definition finalValue_of (value : option Ref) (s : Store) : Ref * Store :=
  match value with
  | Some r => (r, s)
  | None => new_object [] s
  end.

Definition render (value : Passed) (sim : option nat) (w : Mounted) : Mounted :=
  let '(v, s1) :=
    match value with
    | Unchanged => (m_value w, m_store w)
    | Handed =>
        (match m_handed w with Some r => Some r | None => m_value w end, m_store w)
    | Object o => let '(r, s) := alloc o (m_store w) in (Some r, s)
    | Undefined => (None, m_store w)
    end in
  let '(fv, s2) := finalValue_of v s1 in
  {| m_hooks := m_hooks w; m_store := s2; m_value := v;
     m_onIndexInputBlur := useCallback s2 fv sim (m_onIndexInputBlur w);
     m_calls := m_calls w; m_handed := m_handed w; m_imports := m_imports w |}.

(** The first render. *)
Definition mount (value : option JS.obj) (sim : option nat) : Mounted :=
  let '(v, s1) :=
    match value with
    | Some o => let '(r, s) := alloc o empty in (Some r, s)
    | None => (None, empty)
    end in
  let '(fv, s2) := finalValue_of v s1 in
  {| m_hooks := initial; m_store := s2; m_value := v;
     m_onIndexInputBlur :=
       {| finalValue := fv; onSimulateIndexTemplate := sim;
          dep_index := prop_get "index" (props_of s2 fv) |};
     m_calls := []; m_handed := None; m_imports := [] |}.

(** [onValueChange] of the latest render.  [val] is a value the form does
    not hold yet (the children of the form are given copies, and hand on
    new values). *)
Definition onValueChange (name : Name) (val : json) (w : Mounted)
  : option (Mounted * list Action) :=
  let '(fv, s0) := finalValue_of (m_value w) (m_store w) in
  match castPath name (props_of s0 fv) with
  | Some path =>
      match lodash_set fv path val s0 with
      | Some s1 =>
          let '(copy, s2) := spread fv s1 in
          Some ({| m_hooks := if is_index_name name then m_hooks w
                              else set_hasEdit true (m_hooks w);
                   m_store := s2; m_value := m_value w;
                   m_onIndexInputBlur := m_onIndexInputBlur w;
                   m_calls := m_calls w; m_handed := Some copy;
                   m_imports := m_imports w |},
                [OnChange (content s2 copy)])
      | None => None
      end
  | None => None
  end.

(** What the component does to the outside. *)
Inductive Effect : Type :=
| Form (a : Action)
| Import (a : ImportAction).

Inductive Event : Type :=
| EvRender (value : Passed) (onSimulateIndexTemplate : option nat)
| EvValueChange (name : Name) (val : json)
| EvBlur
| EvTimeout (t : nat)
| EvSimulated (t : nat) (result : option (ServerResponse JS.obj))
| EvSimulateRejected (t : nat)
| EvModalOk (t : nat)
| EvModalCancel (t : nat)
| EvImportSettings (onGetIndexDetail : bool) (index : string)
| EvImportOk (i : nat)
| EvImportResolved (i : nat) (indexDetail : option JS.obj)
| EvUnmount.

(** The parent receives the arguments of [onChange]. *)
Definition deliver (acts : list Action) (w : Mounted) : Mounted :=
  fold_left
    (fun w a => match a with OnChange value => props_onChange value w | _ => w end)
    acts w.

Definition deliver_import (acts : list ImportAction) (w : Mounted) : Mounted :=
  fold_left
    (fun w a => match a with ImportOnChange value => props_onChange value w | _ => w end)
    acts w.

(** The call [t] of [onIndexInputBlur] goes on. *)
Definition resume (t : nat) (w : Mounted)
           (k : Task -> BlurHandler -> option (Hooks * Task * list Action))
  : Mounted * list Effect :=
  match nth_error (m_calls w) t with
  | Some (task, c) =>
      match k task c with
      | Some (h, task', acts) =>
          (deliver acts (with_calls (update t (task', c) (m_calls w)) (with_hooks h w)),
           map Form acts)
      | None => (w, [])
      end
  | None => (w, [])
  end.

Section Component.
Context `{IndexMapping} `{ImportSettings}.

(** One event; [None] where [set] is outside the model. *)
Definition step (w : Mounted) (e : Event) : option (Mounted * list Effect) :=
  match e with
  | EvRender value sim => Some (render value sim w, [])
  | EvValueChange name val =>
      match onValueChange name val w with
      | Some (w', acts) => Some (w', map Form acts)
      | None => None
      end
  | EvBlur =>
      Some (with_calls (m_calls w ++ [(Sleeping, m_onIndexInputBlur w)]) w, [])
  | EvTimeout t =>
      Some (resume t w (fun task c =>
        match task with
        | Sleeping =>
            Some (onIndexInputBlur_delayed (held w c)
                    (match onSimulateIndexTemplate c with Some _ => true | None => false end)
                    (m_hooks w))
        | _ => None
        end))
  | EvSimulated t result =>
      Some (resume t w (fun task _ =>
        match task with
        | Simulating => Some (onIndexInputBlur_simulated result (m_hooks w))
        | _ => None
        end))
  | EvSimulateRejected t =>
      Some (resume t w (fun task _ =>
        match task with
        | Simulating => Some (m_hooks w, Finished, [])
        | _ => None
        end))
  | EvModalOk t =>
      Some (resume t w (fun task _ =>
        match task with
        | Confirming response =>
            let '(h, acts) := onChangePromise_then response (m_hooks w) in
            Some (h, Finished, acts)
        | _ => None
        end))
  | EvModalCancel t =>
      Some (resume t w (fun task c =>
        match task with
        | Confirming response =>
            let '(h, acts) :=
              onChangePromise_then (mergedValue (held w c) response) (m_hooks w) in
            Some (h, Finished, acts)
        | _ => None
        end))
  | EvImportSettings onGetIndexDetail index =>
      let '(task, acts) := onImportSettings onGetIndexDetail index (m_hooks w) in
      Some (with_imports (m_imports w ++ [Importing task index]) w, map Import acts)
  | EvImportOk i =>
      match nth_error (m_imports w) i with
      | Some (Importing Asking index) =>
          let '(task, acts) := onImportSettings_onOk index in
          Some (with_imports (update i (Importing task index) (m_imports w)) w,
                map Import acts)
      | _ => Some (w, [])
      end
  | EvImportResolved i indexDetail =>
      match nth_error (m_imports w) i with
      | Some (Importing Fetching index) =>
          let '(h, acts) := onImportSettings_resolved index indexDetail (m_hooks w) in
          Some (deliver_import acts
                  (with_imports (update i Imported (m_imports w)) (with_hooks h w)),
                map Import acts)
      | _ => Some (w, [])
      end
  | EvUnmount => Some (with_hooks (set_destroyRef true (m_hooks w)) w, [])
  end.

Fixpoint run (w : Mounted) (es : list Event) : option (Mounted * list (list Effect)) :=
  match es with
  | [] => Some (w, [])
  | e :: r =>
      match step w e with
      | Some (w1, effects) =>
          match run w1 r with
          | Some (w2, log) => Some (w2, effects :: log)
          | None => None
          end
      | None => None
      end
  end.

End Component.

(** *** The calls of [onIndexInputBlur], as [IndexDetail.step] takes them

    An event of [IndexDetail] carries what the closure of the call reads;
    here that is read from the store. *)
Section Calls.
Context `{LodashSet}.

Definition world_of (w : Mounted) : World :=
  {| hooks := m_hooks w; tasks := map fst (m_calls w) |}.

Definition event_of (w : Mounted) (e : Event) : option IndexDetail.Event :=
  match e with
  | EvBlur => Some IndexDetail.EvBlur
  | EvTimeout t =>
      match nth_error (m_calls w) t with
      | Some (_, c) =>
          Some (IndexDetail.EvTimeout t (held w c)
                  (match onSimulateIndexTemplate c with Some _ => true | None => false end))
      | None => None
      end
  | EvSimulated t result => Some (IndexDetail.EvSimulated t result)
  | EvSimulateRejected t => Some (IndexDetail.EvSimulateRejected t)
  | EvModalOk t => Some (IndexDetail.EvModalOk t)
  | EvModalCancel t =>
      match nth_error (m_calls w) t with
      | Some (_, c) => Some (IndexDetail.EvModalCancel t (held w c))
      | None => None
      end
  | EvUnmount => Some IndexDetail.EvUnmount
  | _ => None
  end.

End Calls.

(** [props.onChange(form)] is among the effects. *)
Definition calls_onChange (form : JS.obj) (effects : list Effect) : Prop :=
  In (Form (OnChange form)) effects \/ In (Import (ImportOnChange form)) effects.

End Renders.

(** ** IndexDetail: the sections of the form and their validation *)

(** [IndicesUpdateMode] of [utils/constants], with the members that
    [IndexDetail] names. *)
Class UpdateModes : Type := {
  IndicesUpdateMode : Type;
  mode_alias : IndicesUpdateMode;
  mode_settings : IndicesUpdateMode;
  mode_mappings : IndicesUpdateMode;
  (** [a === b] *)
  mode_eqb : IndicesUpdateMode -> IndicesUpdateMode -> bool;
  (** whether a mode is truthy, as [mode && ...] asks *)
  mode_truthy : IndicesUpdateMode -> bool
}.

Module Sections.
Import JS.

(** How [render] shows a section: not at all, as it is, or inside a
    [ContentPanel]. *)
Inductive Shown : Type := Hidden | Bare | InPanel.

Section Component.
Context `{UpdateModes}.

(** [mode && mode === own]; [None] is an [undefined] mode. *)
Definition is_mode (mode : option IndicesUpdateMode) (own : IndicesUpdateMode) : bool :=
  match mode with
  | Some m => mode_truthy m && mode_eqb m own
  | None => false
  end.

(** [mode && mode !== own] *)
Definition is_other_mode (mode : option IndicesUpdateMode) (own : IndicesUpdateMode)
  : bool :=
  match mode with
  | Some m => mode_truthy m && negb (mode_eqb m own)
  | None => false
  end.

(** One section of [render]:
    [isEdit && mode && mode !== own ? null : (() => { ... })()]. *)
Definition section_of (isEdit : bool) (mode : option IndicesUpdateMode)
           (own : IndicesUpdateMode) : Shown :=
  if isEdit && is_other_mode mode own then Hidden
  else if is_mode mode own then Bare
  else InPanel.

(** The three sections, in the order [render] lists them. *)
Record Layout : Type := {
  defineIndex : Shown;         (* the index name and the aliases *)
  indexSettings : Shown;
  indexMappings : Shown
}.

Definition render (isEdit : bool) (mode : option IndicesUpdateMode) : Layout :=
  {| defineIndex := section_of isEdit mode mode_alias;
     indexSettings := section_of isEdit mode mode_settings;
     indexMappings := section_of isEdit mode mode_mappings |}.

(** [ref.current?.validate...()]: the ref of a section that is not rendered
    is null, and the call gives [undefined] ([None]); otherwise it gives
    what the section reports, [undefined] included. *)
Definition report_of (shown : Shown) (report : option json) : option json :=
  match shown with
  | Hidden => None
  | _ => report
  end.

(** [!item] *)
Definition no_error (item : option json) : bool :=
  match item with
  | Some j => negb (truthy j)
  | None => true
  end.

(** [validate] of the imperative handle, once the three promises are
    fulfilled; the arguments are what the sections would report. *)
Definition validate (isEdit : bool) (mode : option IndicesUpdateMode)
           (aliasesErrors mappingsErrors settingsErrors : option json) : bool :=
  let layout := render isEdit mode in
  let result :=
    [report_of (defineIndex layout) aliasesErrors;
     report_of (indexMappings layout) mappingsErrors;
     report_of (indexSettings layout) settingsErrors] in
  forallb no_error result.

End Component.

End Sections.

(** ** SimplePopover *)

Module SimplePopover.

Inductive TriggerType : Type := click | hover.

(** The handlers the component installs; each sets [popVisible]. *)
Inductive PopoverEvent : Type :=
| OnClick              (* on the button, with [stopPropagation] *)
| OnMouseEnter
| OnMouseLeave
| OutsideClick         (* the [click] listener on [window] *)
| ClosePopover.        (* [closePopover] of [EuiPopover] *)

(** [popVisible] after a handler ran; a handler the trigger type does not
    install leaves it as it is. *)
Definition handle (triggerType : TriggerType) (popVisible : bool)
           (e : PopoverEvent) : bool :=
  match e, triggerType with
  | OnClick, click => negb popVisible
  | OnMouseEnter, hover => true
  | OnMouseLeave, hover => false
  | OutsideClick, _ => false
  | ClosePopover, _ => false
  | _, _ => popVisible
  end.

(** [isOpen] after a series of events, each handled by the render that
    follows the one before. *)
Definition isOpen (triggerType : TriggerType) (es : list PopoverEvent) : bool :=
  fold_left (handle triggerType) es false.

Definition is_onClick (e : PopoverEvent) : bool :=
  match e with OnClick => true | _ => false end.

Definition closes (e : PopoverEvent) : bool :=
  match e with OutsideClick | ClosePopover => true | _ => false end.

End SimplePopover.

(** ** Vocabulary of the properties *)

Module Notions.
Import JS.

(** [a < b] on strings: the order of their code units. *)
Definition str_lt (a b : string) : Prop := String.ltb a b = true.

Definition slen (s : string) : N := N.of_nat (String.length s).

(** The order part of [key_before]. *)
Definition ord (k k' : string) : bool :=
  match array_index k, array_index k' with
  | Some i, Some j => i <? j
  | Some _, None => true
  | None, Some _ => false
  | None, None => true
  end.

Definition entry_lt (a b : string * json) : Prop := str_lt (fst a) (fst b).

Definition is_index (k : string) : bool :=
  match array_index k with Some _ => true | None => false end.

(** The order in which an object built in ascending key order enumerates
    its keys: array indices first, by number; then the other keys, by code
    units. *)
Definition key_lt (k k' : string) : Prop :=
  match array_index k, array_index k' with
  | Some i, Some j => i < j
  | Some _, None => True
  | None, Some _ => False
  | None, None => str_lt k k'
  end.

Definition non_index (k : string) : bool := negb (is_index k).

(** The text [JSON.stringify(o, null, 2)] gives for an object whose
    members are enumerated as the entries of [o]. *)
Definition member_text (kv : string * json) : string :=
  (quote (fst kv) ++ ": " ++ stringify_at "  " (snd kv))%string.

Definition object_text (o : obj) : string :=
  stringify_block "{" "}" "" (map member_text o).

Definition or_empty (o : option obj) : obj :=
  match o with Some x => x | None => [] end.





Definition is_empty_object (j : json) : bool :=
  match j with JObj [] => true | _ => false end.

(** An alias value: a plain object binding alias names to [{}]. *)
Definition alias_value (o : obj) : bool :=
  keys_canonical (obj_keys o) && forallb (fun kv => is_empty_object (snd kv)) o.

(** [l1] is [l2] with some elements left out. *)
Inductive subseq {A : Type} : list A -> list A -> Prop :=
| subseq_nil : subseq [] []
| subseq_skip x l1 l2 : subseq l1 l2 -> subseq l1 (x :: l2)
| subseq_take x l1 l2 : subseq l1 l2 -> subseq (x :: l1) (x :: l2).

End Notions.

(** Kinds of events and actions of a mounted [IndexDetail]. *)
Module DraftNotions.
Import JS IndexDetail.

Section Component.
Context `{IndexMapping} `{LodashSet}.

(** A change of a field other than the index name. *)
Definition is_edit (e : Event) : bool :=
  match e with
  | EvValueChange _ name _ => negb (is_index_name name)
  | _ => false
  end.

Definition is_dialog (a : Action) : bool :=
  match a with ModalShow => true | _ => false end.

Definition is_onChange (a : Action) : bool :=
  match a with OnChange _ => true | _ => false end.

(** The events after which a call of [onIndexInputBlur] never reaches the
    end of its body: its request is rejected, or the component is gone. *)
Definition cuts_short (e : Event) : bool :=
  match e with
  | EvSimulateRejected _ | EvUnmount => true
  | _ => false
  end.

Definition is_simulated (e : Event) : bool :=
  match e with EvSimulated _ _ => true | _ => false end.

Definition is_ok (result : option (Server.ServerResponse JS.obj)) : bool :=
  match result with
  | Some (Server.ResponseOk _) => true
  | _ => false
  end.

(** A simulation that found matching templates. *)
Definition is_match (e : Event) : bool :=
  match e with
  | EvSimulated _ result => is_ok result
  | _ => false
  end.

(** [visible] of the [TemplateInfoCallout] of the form:
    [!isEdit && isMatchingTemplate]. *)
Definition TemplateInfoCallout_visible (isEdit : bool) (h : Hooks) : bool :=
  negb isEdit && isMatchingTemplate h.

(** The dialog of some call is open. *)
Definition is_confirming (t : Task) : bool :=
  match t with Confirming _ => true | _ => false end.

End Component.

End DraftNotions.

(** ** Instances for the examples *)

Module Examples.
Import JS CreatePolicy.

Definition platform : Platform := {| JSON_parse := parse_text |}.

(** A pattern matches the names it is a prefix of; a thrown value is its
    message. *)
Definition utils : Utils :=
  {| filterByMinimatch := fun name rules => existsb (fun r => String.prefix r name) rules;
     SYSTEM_ALIAS := [".kibana"; ".opendistro"];
     Thrown := string;
     getErrorMessage := fun err defaultMessage =>
                          if (err =? "")%string then defaultMessage else err;
     ROUTES_POLICIES := "/policies" |}.

(** Flat mappings: the array entry [{ fieldName, ...others }] stands for
    the object member [fieldName: { ...others }]. *)
Definition indexMapping : IndexMapping :=
  {| transformArrayToObject := fun array =>
       match array with
       | JArr l =>
           JObj (fold_left
                   (fun total current =>
                      match current with
                      | JObj f =>
                          match obj_get "fieldName" f with
                          | Some (JStr name) =>
                              obj_set name
                                (JObj (filter
                                         (fun kv => negb (fst kv =? "fieldName")%string) f))
                                total
                          | _ => total
                          end
                      | _ => total
                      end)
                   l [])
       | _ => JObj []
       end;
     transformObjectToArray := fun object =>
       match object with
       | JObj o =>
           JArr (map (fun kv =>
                        match snd kv with
                        | JObj f => JObj (obj_set "fieldName" (JStr (fst kv)) f)
                        | _ => JObj [("fieldName", JStr (fst kv))]
                        end) o)
       | _ => JArr []
       end |}.

(** A field name is the path it casts to. *)
Fixpoint set_path (o : obj) (path : list string) (v : json) : obj :=
  match path with
  | [] => o
  | [k] => obj_set k v o
  | k :: rest =>
      obj_set k
        (JObj (set_path (match obj_get k o with Some (JObj o') => o' | _ => [] end)
                 rest v))
        o
  end.

Definition lodashSet : LodashSet :=
  {| FieldName := list string;
     is_index_name := fun name =>
       match name with
       | [k] => (k =? "index")%string
       | _ => false
       end;
     lodash_set := set_path |}.

(** A query is its list of terms. *)
Definition euiQuery : EuiQuery :=
  {| Query := list string;
     getTermClauses := fun q => q;
     getFieldClauses := fun _ _ => [] |}.

Definition policy_draft : CreatePolicyState :=
  {| policyId := "hot_cold"; policyIdError := ""; jsonString := "{}";
     policySeqNo := None; policyPrimaryTerm := None; submitError := "";
     isSubmitting := false; hasSubmitted := false |}.

Definition policy_unnamed : CreatePolicyState :=
  {| policyId := ""; policyIdError := ""; jsonString := "{}";
     policySeqNo := None; policyPrimaryTerm := None; submitError := "";
     isSubmitting := false; hasSubmitted := false |}.


(** A draft of an index and what the simulation of its templates answers. *)
Definition index_draft : obj :=
  [("index", JStr "logs-1");
   ("aliases", JObj [("mine", JObj [])]);
   ("settings", JObj [("index.number_of_replicas", JNum 2)])].

Definition template : obj :=
  [("aliases", JObj [("all-logs", JObj [])]);
   ("settings", JObj [("index.number_of_shards", JNum 3);
                      ("index.number_of_replicas", JNum 1)]);
   ("mappings",
    JObj [("properties", JObj [("message", JObj [("type", JStr "text")])])])].

Definition edited : IndexDetail.Hooks :=
  IndexDetail.set_hasEdit true IndexDetail.initial.

Definition unmounted : IndexDetail.Hooks :=
  IndexDetail.set_destroyRef true IndexDetail.initial.

Definition indicesConstants : @IndicesConstants euiQuery :=
  @Build_IndicesConstants euiQuery
    "[security_exception]"
    ""
    (fun text => if (text =? "")%string then [] else [text]).

Definition query_params : Indices.IndicesQueryParams :=
  {| Indices.q_from := 0%Z; Indices.q_size := 20%Z; Indices.q_search := "";
     Indices.q_sortField := "index"; Indices.q_sortDirection := Indices.desc;
     Indices.q_showDataStreams := false |}.

Definition policyConstants : PolicyConstants :=
  {| DEFAULT_POLICY := "{}" |}.

Definition policy_document : PolicyPage.PolicyDocument :=
  {| PolicyPage.doc_id := "hot_cold"; PolicyPage.doc_seqNo := 7%Z;
     PolicyPage.doc_primaryTerm := 1%Z;
     PolicyPage.doc_policy := JObj [("description", JStr "hot, then cold")] |}.

(** The three modes as themselves. *)
Inductive Mode : Type := Alias | Settings | Mappings.

Definition updateModes : UpdateModes :=
  {| IndicesUpdateMode := Mode;
     mode_alias := Alias; mode_settings := Settings; mode_mappings := Mappings;
     mode_eqb := fun a b =>
       match a, b with
       | Alias, Alias | Settings, Settings | Mappings, Mappings => true
       | _, _ => false
       end;
     mode_truthy := fun _ => true |}.

(** Flat settings: a path names the own property of that name. *)
Definition importSettings : ImportSettings :=
  {| lodash_pick := fun object paths =>
       match object with
       | JObj o =>
           fold_left
             (fun result path =>
                match obj_get path o with
                | Some value => obj_set path value result
                | None => result
                end)
             paths []
       | _ => []
       end;
     INDEX_IMPORT_SETTINGS := ["index.number_of_shards"; "index.number_of_replicas"] |}.



(** [defaultIndexSettings], the value a new index starts from. *)
Definition defaultIndexSettings : obj :=
  [("index", JStr "");
   ("settings", JObj [("index.number_of_shards", JNum 1);
                      ("index.number_of_replicas", JNum 1);
                      ("index.refresh_interval", JStr "1s")]);
   ("mappings", JObj [])].


(** The form of a new index, mounted with a simulation function. *)
Definition mounted : Renders.Mounted :=
  Renders.mount (Some defaultIndexSettings) (Some 0%nat).

(** The component after the events [es]. *)
Definition after (es : list Renders.Event) : Renders.Mounted :=
  match Renders.run (H := indexMapping) (H0 := importSettings) mounted es with
  | Some (w, _) => w
  | None => mounted
  end.



(** The detail of an index to import from. *)
Definition source_index : obj :=
  [("aliases", JObj [("old-logs", JObj [])]);
   ("settings", JObj [("index.number_of_shards", JNum 5);
                      ("index.uuid", JStr "u-1")]);
   ("mappings",
    JObj [("properties", JObj [("message", JObj [("type", JStr "text")])])])].

End Examples.

(* ================================================================== *)
(** * Part II. Properties                                               *)
(* ================================================================== *)

(** ** Keys: the code-unit order and array indices *)

Module KeyFacts.
Import JS Notions.

Lemma ltb_lts a b : String.ltb a b = true <-> String_as_OT.lt a b.
Proof.
  unfold String.ltb. rewrite <- String_as_OT.cmp_lt.
  unfold String_as_OT.cmp. destruct (String.compare a b); split; congruence.
Qed.

Lemma str_lt_trans a b c : str_lt a b -> str_lt b c -> str_lt a c.
Proof.
  unfold str_lt. rewrite !ltb_lts. apply String_as_OT.lt_trans.
Qed.

Lemma str_lt_irrefl a : ~ str_lt a a.
Proof.
  unfold str_lt. rewrite ltb_lts. intro L.
  exact (String_as_OT.lt_not_eq _ _ L eq_refl).
Qed.

Lemma ltb_total a b : String.ltb a b = false -> a <> b -> String.ltb b a = true.
Proof.
  unfold String.ltb. rewrite (String.compare_antisym b a).
  destruct (String.compare a b) eqn:E; cbn; try congruence.
  intros _ N. apply String.compare_eq_iff in E. contradiction.
Qed.

(** *** Array indices are canonical: one string per number *)

Lemma digit_of_bound c d : digit_of c = Some d -> d < 10.
Proof.
  unfold digit_of.
  destruct ((48 <=? N_of_ascii c) && (N_of_ascii c <=? 57)) eqn:E; [|discriminate].
  apply andb_prop in E. destruct E as [E1 E2].
  apply N.leb_le in E1, E2. intros [= <-]. lia.
Qed.

Lemma digit_of_inj c c' d : digit_of c = Some d -> digit_of c' = Some d -> c = c'.
Proof.
  unfold digit_of.
  destruct ((48 <=? N_of_ascii c) && (N_of_ascii c <=? 57)) eqn:E; [|discriminate].
  destruct ((48 <=? N_of_ascii c') && (N_of_ascii c' <=? 57)) eqn:E'; [|discriminate].
  apply andb_prop in E, E'. destruct E as [E1 _], E' as [E1' _].
  apply N.leb_le in E1, E1'. intros [= <-] [= E].
  assert (N_of_ascii c = N_of_ascii c') as Q by lia.
  rewrite <- (ascii_N_embedding c), <- (ascii_N_embedding c'). now rewrite Q.
Qed.

Lemma slen_cons c s : slen (String c s) = N.succ (slen s).
Proof. unfold slen. cbn [String.length]. now rewrite Nat2N.inj_succ. Qed.

Lemma dv_shift s : forall acc,
  digits_value acc s
  = option_map (fun r => acc * 10 ^ slen s + r) (digits_value 0 s).
Proof.
  induction s as [|c s IH]; intros acc.
  - cbn. f_equal. lia.
  - rewrite slen_cons. cbn [digits_value]. destruct (digit_of c) as [d|]; [|reflexivity].
    rewrite (IH (10 * acc + d)), (IH (10 * 0 + d)).
    destruct (digits_value 0 s) as [r|]; cbn [option_map]; [|reflexivity].
    f_equal. rewrite N.pow_succ_r'. lia.
Qed.

Lemma dv_bound s : forall r, digits_value 0 s = Some r -> r < 10 ^ slen s.
Proof.
  induction s as [|c s IH]; intros r.
  - cbn. intros [= <-]. lia.
  - rewrite slen_cons. cbn [digits_value].
    destruct (digit_of c) as [d|] eqn:D; [|discriminate].
    rewrite dv_shift. destruct (digits_value 0 s) as [r'|]; [|discriminate].
    cbn [option_map]. intros [= <-].
    pose proof (digit_of_bound _ _ D). pose proof (IH _ eq_refl).
    rewrite N.pow_succ_r'. nia.
Qed.

Lemma dv_inj_len s : forall s' r,
  String.length s = String.length s' ->
  digits_value 0 s = Some r -> digits_value 0 s' = Some r -> s = s'.
Proof.
  induction s as [|c s IH]; intros [|c' s'] r L; try discriminate L; [reflexivity|].
  injection L as L. cbn [digits_value].
  destruct (digit_of c) as [d|] eqn:D; [|discriminate].
  destruct (digit_of c') as [d'|] eqn:D'; [|discriminate].
  rewrite (dv_shift s), (dv_shift s').
  destruct (digits_value 0 s) as [q|] eqn:Q; [|discriminate].
  destruct (digits_value 0 s') as [q'|] eqn:Q'; [|discriminate].
  cbn [option_map]. intros [= <-] [= E].
  pose proof (dv_bound _ _ Q) as B. pose proof (dv_bound _ _ Q') as B'.
  assert (slen s = slen s') as SL by (unfold slen; now rewrite L).
  rewrite <- SL in *.
  set (P := 10 ^ slen s) in *.
  assert (d = ((10 * 0 + d) * P + q) / P) as Hd
      by (apply N.div_unique with q; lia).
  assert (d' = ((10 * 0 + d) * P + q) / P) as Hd'
      by (apply N.div_unique with q'; lia).
  assert (d = d') as -> by congruence.
  assert (q = q') as -> by lia.
  f_equal.
  - eapply digit_of_inj; eauto.
  - eapply IH; eauto.
Qed.

(** A digit string without a leading zero determines its length. *)
Lemma dv_lower c s r :
  digits_value 0 (String c s) = Some r -> (c =? "0")%char = false ->
  10 ^ slen s <= r.
Proof.
  cbn [digits_value]. destruct (digit_of c) as [d|] eqn:D; [|discriminate].
  rewrite dv_shift. destruct (digits_value 0 s) as [q|]; [|discriminate].
  cbn [option_map]. intros [= <-] Z.
  assert (d <> 0) as NZ.
  { intros ->. assert (c = "0"%char) as -> by (eapply digit_of_inj; eauto).
    discriminate Z. }
  nia.
Qed.

Lemma array_index_digits k i :
  array_index k = Some i ->
  digits_value 0 k = Some i /\
  match k with
  | EmptyString => False
  | String c EmptyString => True
  | String c _ => (c =? "0")%char = false
  end.
Proof.
  destruct k as [|c [|c' r]]; cbn [array_index]; [discriminate| |].
  - intros E. split; [|exact I]. cbn. rewrite E. f_equal; lia.
  - destruct (c =? "0")%char eqn:Z; [discriminate|].
    destruct (digits_value 0 (String c (String c' r))) as [n|]; [|discriminate].
    destruct (n <? 4294967295); [|discriminate]. intros [= <-]. now split.
Qed.

Lemma array_index_inj k k' i :
  array_index k = Some i -> array_index k' = Some i -> k = k'.
Proof.
  intros E E'.
  destruct (array_index_digits _ _ E) as [V C].
  destruct (array_index_digits _ _ E') as [V' C'].
  assert (String.length k = String.length k') as L.
  { destruct k as [|c s]; [contradiction|]. destruct k' as [|c' s']; [contradiction|].
    pose proof (dv_bound _ _ V) as B. pose proof (dv_bound _ _ V') as B'.
    rewrite slen_cons, N.pow_succ_r' in B, B'.
    cbn [String.length]. f_equal.
    destruct (Nat.lt_trichotomy (String.length s) (String.length s')) as [Lt|[Eq|Gt]];
      [exfalso|exact Eq|exfalso].
    - destruct s' as [|c2 s2]; [cbn in Lt; lia|].
      pose proof (dv_lower _ _ _ V' C') as Lo.
      assert (N.succ (slen s) <= slen (String c2 s2)) as Le
          by (unfold slen; cbn [String.length] in *; lia).
      apply (N.pow_le_mono_r 10) in Le; [|lia].
      rewrite N.pow_succ_r' in Le. lia.
    - destruct s as [|c2 s2]; [cbn in Gt; lia|].
      pose proof (dv_lower _ _ _ V C) as Lo.
      assert (N.succ (slen s') <= slen (String c2 s2)) as Le
          by (unfold slen; cbn [String.length] in *; lia).
      apply (N.pow_le_mono_r 10) in Le; [|lia].
      rewrite N.pow_succ_r' in Le. lia. }
  eapply dv_inj_len; eauto.
Qed.

End KeyFacts.

(** ** Objects: lookup, definition of properties, enumeration order *)

Module ObjFacts.
Import JS Notions KeyFacts.

Lemma key_before_iff k k' :
  key_before k k' = true <-> k <> k' /\ ord k k' = true.
Proof.
  unfold key_before, ord. rewrite andb_true_iff, negb_true_iff, String.eqb_neq.
  reflexivity.
Qed.

Lemma ord_trans a b c : ord a b = true -> ord b c = true -> ord a c = true.
Proof.
  unfold ord.
  destruct (array_index a), (array_index b), (array_index c);
    try congruence; rewrite ?N.ltb_lt; lia.
Qed.

Lemma keys_canonical_app l1 l2 :
  keys_canonical (l1 ++ l2) = true <->
  keys_canonical l1 = true /\ keys_canonical l2 = true /\
  (forall a b, In a l1 -> In b l2 -> key_before a b = true).
Proof.
  induction l1 as [|x l1 IH]; cbn [keys_canonical app].
  - split; [intros C; repeat split; auto; intros ? ? []|tauto].
  - rewrite !andb_true_iff, forallb_app, andb_true_iff, IH, !forallb_forall.
    split.
    + intros ((F1 & F2) & C1 & C2 & X). repeat split; auto.
      intros a b [<-|Ia] Ib; auto.
    + intros ((F1 & C1) & C2 & X). repeat split; auto.
      * intros b Ib. apply X; cbn; auto.
      * intros a b Ia Ib. apply X; cbn; auto.
Qed.

Lemma keys_canonical_NoDup l : keys_canonical l = true -> NoDup l.
Proof.
  induction l as [|x l IH]; cbn [keys_canonical]; [constructor|].
  rewrite andb_true_iff, forallb_forall. intros [F C]. constructor; auto.
  intros I. apply F, key_before_iff in I. now destruct I.
Qed.

(** *** Lookup *)

Lemma obj_get_None k o : obj_get k o = None <-> ~ In k (obj_keys o).
Proof.
  induction o as [|[k' v'] r IH]; cbn; [tauto|].
  destruct (String.eqb_spec k k') as [->|N].
  - split; [discriminate|intros X; exfalso; auto].
  - rewrite IH. split; [intros X [E|I]; auto; congruence|tauto].
Qed.

Lemma obj_get_In k v o : obj_get k o = Some v -> In (k, v) o.
Proof.
  induction o as [|[k' v'] r IH]; cbn; [discriminate|].
  destruct (String.eqb_spec k k') as [->|N]; [intros [= ->]; auto|auto].
Qed.

Lemma In_obj_get k v o : NoDup (obj_keys o) -> In (k, v) o -> obj_get k o = Some v.
Proof.
  induction o as [|[k' v'] r IH]; cbn; [tauto|].
  intros ND [E|I].
  - injection E as -> ->. now rewrite String.eqb_refl.
  - inversion ND as [|? ? NI ND']; subst.
    destruct (String.eqb_spec k k') as [->|N]; [|auto].
    exfalso. apply NI. change k' with (fst (k', v)). now apply in_map.
Qed.

Lemma obj_has_true k o : obj_has k o = true <-> In k (obj_keys o).
Proof.
  unfold obj_has. pose proof (obj_get_None k o) as N.
  destruct (obj_get k o); split; intro X; auto; try discriminate.
  - destruct (in_dec string_dec k (obj_keys o)); auto.
    destruct N as [_ N]. discriminate (N n).
  - exfalso. destruct N as [N _]. now apply N.
Qed.

Lemma obj_has_false k o : obj_has k o = false <-> ~ In k (obj_keys o).
Proof.
  rewrite <- obj_has_true. destruct (obj_has k o); split; congruence.
Qed.

(** *** Defining a property *)

Lemma keys_replace k v o : obj_keys (obj_replace k v o) = obj_keys o.
Proof.
  induction o as [|[k' v'] r IH]; cbn; [reflexivity|].
  destruct (String.eqb_spec k k') as [->|N]; cbn; [reflexivity|now f_equal].
Qed.

Lemma get_replace k v o k' :
  obj_get k' (obj_replace k v o)
  = if (k' =? k)%string then (if obj_has k o then Some v else None)
    else obj_get k' o.
Proof.
  unfold obj_has. induction o as [|[k0 v0] r IH]; cbn.
  - now destruct (k' =? k)%string.
  - destruct (String.eqb_spec k k0) as [->|N]; cbn.
    + now destruct (k' =? k0)%string.
    + rewrite IH. destruct (String.eqb_spec k' k0) as [->|N'].
      * destruct (String.eqb_spec k0 k); congruence.
      * reflexivity.
Qed.

Lemma In_keys_insert i k v o x :
  In x (obj_keys (obj_insert_index i k v o)) <-> x = k \/ In x (obj_keys o).
Proof.
  induction o as [|[k' v'] r IH]; cbn; [intuition|].
  destruct (array_index k') as [j|]; [destruct (i <? j)|]; cbn; try rewrite IH;
    intuition.
Qed.

Lemma get_insert i k v o k' :
  ~ In k (obj_keys o) ->
  obj_get k' (obj_insert_index i k v o)
  = if (k' =? k)%string then Some v else obj_get k' o.
Proof.
  induction o as [|[k0 v0] r IH]; cbn; [reflexivity|].
  intros NI.
  destruct (array_index k0) as [j|]; [destruct (i <? j)|]; cbn; try reflexivity.
  rewrite IH by tauto.
  destruct (String.eqb_spec k' k0) as [->|]; [|reflexivity].
  destruct (String.eqb_spec k0 k) as [->|]; [exfalso; auto|reflexivity].
Qed.

Lemma get_app k (o1 o2 : obj) :
  obj_get k (o1 ++ o2)
  = match obj_get k o1 with Some v => Some v | None => obj_get k o2 end.
Proof.
  induction o1 as [|[k0 v0] r IH]; cbn; [reflexivity|].
  now destruct (k =? k0)%string.
Qed.

Lemma obj_get_set k v o k' :
  obj_get k' (obj_set k v o)
  = if (k' =? k)%string then Some v else obj_get k' o.
Proof.
  unfold obj_set. destruct (obj_has k o) eqn:Hk.
  - rewrite get_replace, Hk. reflexivity.
  - apply obj_has_false in Hk. destruct (array_index k) as [i|].
    + now apply get_insert.
    + rewrite get_app. cbn. destruct (String.eqb_spec k' k) as [->|].
      * apply obj_get_None in Hk. now rewrite Hk.
      * now destruct (obj_get k' o).
Qed.

Lemma In_keys_set k v o x :
  In x (obj_keys (obj_set k v o)) <-> x = k \/ In x (obj_keys o).
Proof.
  unfold obj_set. destruct (obj_has k o) eqn:Hk.
  - rewrite keys_replace. apply obj_has_true in Hk.
    split; [auto|intros [->|]; auto].
  - destruct (array_index k); [apply In_keys_insert|].
    unfold obj_keys. rewrite map_app, in_app_iff. cbn. intuition.
Qed.

Lemma canonical_insert i k v : forall o,
  keys_canonical (obj_keys o) = true ->
  array_index k = Some i -> ~ In k (obj_keys o) ->
  keys_canonical (obj_keys (obj_insert_index i k v o)) = true.
Proof.
  induction o as [|[k' v'] r IH]; [reflexivity|].
  cbn [obj_keys map fst keys_canonical obj_insert_index].
  rewrite andb_true_iff, forallb_forall. intros [F C] Ek NI.
  assert (k <> k') as Nk by (intros ->; apply NI; cbn; auto).
  assert (~ In k (obj_keys r)) as NI' by (intros I; apply NI; cbn; auto).
  destruct (array_index k') as [j|] eqn:Ej; [destruct (i <? j) eqn:L|].
  - cbn [obj_keys map fst keys_canonical].
    rewrite !andb_true_iff, !forallb_forall. repeat split; auto.
    intros x [<-|Ix]; apply key_before_iff; (split; [intros ->; auto|]).
    + unfold ord. now rewrite Ek, Ej.
    + apply ord_trans with k'.
      * unfold ord. now rewrite Ek, Ej.
      * now apply key_before_iff, F.
  - cbn [obj_keys map fst keys_canonical].
    rewrite andb_true_iff, forallb_forall. split; [|now apply IH].
    intros x Ix. apply In_keys_insert in Ix. destruct Ix as [->|Ix]; [|auto].
    apply key_before_iff. split; auto. unfold ord. rewrite Ek, Ej.
    apply N.ltb_lt. apply N.ltb_ge in L.
    assert (i <> j) by (intros ->; apply Nk; eapply array_index_inj; eauto). lia.
  - cbn [obj_keys map fst keys_canonical].
    rewrite !andb_true_iff, !forallb_forall. repeat split; auto.
    intros x [<-|Ix]; apply key_before_iff; (split; [intros ->; auto|]).
    + unfold ord. now rewrite Ek, Ej.
    + apply F, key_before_iff in Ix. destruct Ix as [_ O].
      unfold ord in *. rewrite Ej in O. rewrite Ek.
      destruct (array_index x); [discriminate|reflexivity].
Qed.

Lemma canonical_set k v o :
  keys_canonical (obj_keys o) = true ->
  keys_canonical (obj_keys (obj_set k v o)) = true.
Proof.
  intros C. unfold obj_set. destruct (obj_has k o) eqn:Hk.
  - now rewrite keys_replace.
  - apply obj_has_false in Hk. destruct (array_index k) as [i|] eqn:Ek.
    + now apply canonical_insert.
    + unfold obj_keys. rewrite map_app. apply keys_canonical_app.
      repeat split; auto. cbn. intros a b Ia [<-|[]].
      apply key_before_iff. split; [intros ->; auto|].
      unfold ord. rewrite Ek. now destruct (array_index a).
Qed.

(** A key that canonically comes last is appended. *)
Lemma obj_set_last k v o :
  keys_canonical (obj_keys (o ++ [(k, v)])) = true ->
  obj_set k v o = o ++ [(k, v)].
Proof.
  unfold obj_keys. rewrite map_app. intros C.
  apply keys_canonical_app in C. destruct C as (_ & _ & X). cbn in X.
  assert (forall a, In a (map fst o) -> a <> k /\ ord a k = true) as Y
      by (intros a Ia; apply key_before_iff, X; auto).
  unfold obj_set.
  assert (obj_has k o = false) as ->.
  { apply obj_has_false. intros I. now destruct (Y _ I). }
  destruct (array_index k) as [i|] eqn:Ek; [|reflexivity].
  clear X. induction o as [|[k' v'] r IH]; [reflexivity|].
  cbn [obj_insert_index app].
  destruct (Y k' (or_introl eq_refl)) as [_ O]. unfold ord in O. rewrite Ek in O.
  destruct (array_index k') as [j|]; [|discriminate].
  apply N.ltb_lt in O.
  assert ((i <? j) = false) as -> by (apply N.ltb_ge; lia).
  f_equal. apply IH. intros a Ia. apply Y. cbn; auto.
Qed.

(** *** [Object.assign] and spread *)

Lemma assign_canonical_app (l acc : obj) :
  keys_canonical (obj_keys (acc ++ l)) = true -> obj_assign acc l = acc ++ l.
Proof.
  revert acc. induction l as [|[k v] r IH]; intros acc C; cbn.
  - now rewrite app_nil_r.
  - change (fold_left _ r (obj_set k v acc)) with (obj_assign (obj_set k v acc) r).
    assert (obj_set k v acc = acc ++ [(k, v)]) as ->.
    { apply obj_set_last. unfold obj_keys in *. rewrite map_app in *.
      apply keys_canonical_app in C. destruct C as (C1 & C2 & X).
      apply keys_canonical_app. repeat split; auto.
      intros a b Ia [<-|[]]. apply X; cbn; auto. }
    rewrite IH; rewrite <- app_assoc; [reflexivity|exact C].
Qed.

Lemma obj_spread_id o : keys_canonical (obj_keys o) = true -> obj_spread o = o.
Proof. intros C. unfold obj_spread. now rewrite assign_canonical_app. Qed.

Lemma assign_canonical l : forall acc,
  keys_canonical (obj_keys acc) = true ->
  keys_canonical (obj_keys (obj_assign acc l)) = true.
Proof.
  induction l as [|[k v] r IH]; intros acc C; [exact C|].
  apply (IH (obj_set k v acc)). now apply canonical_set.
Qed.

Lemma get_assign l : forall acc k,
  NoDup (obj_keys l) ->
  obj_get k (obj_assign acc l)
  = match obj_get k l with Some v => Some v | None => obj_get k acc end.
Proof.
  induction l as [|[k0 v0] r IH]; intros acc k ND; [reflexivity|].
  inversion ND as [|? ? NI ND']; subst.
  change (obj_assign acc ((k0, v0) :: r)) with (obj_assign (obj_set k0 v0 acc) r).
  rewrite IH by assumption. cbn [obj_get]. rewrite obj_get_set.
  destruct (String.eqb_spec k k0) as [->|]; [|reflexivity].
  apply obj_get_None in NI. now rewrite NI.
Qed.

Lemma In_keys_assign l : forall acc x,
  In x (obj_keys (obj_assign acc l)) <-> In x (obj_keys acc) \/ In x (obj_keys l).
Proof.
  induction l as [|[k v] r IH]; intros acc x; [cbn; tauto|].
  change (obj_assign acc ((k, v) :: r)) with (obj_assign (obj_set k v acc) r).
  rewrite IH, In_keys_set. cbn. intuition.
Qed.

End ObjFacts.

(** ** Sorting entries by key *)

Module SortFacts.
Import JS Notions KeyFacts ObjFacts IndexDetail.

Lemma insert_perm {A} (cmp : A -> A -> Z) x l :
  Permutation (insert_by cmp x l) (x :: l).
Proof.
  induction l as [|y r IH]; cbn; [reflexivity|].
  destruct (cmp x y <=? 0)%Z; [reflexivity|].
  rewrite IH. apply perm_swap.
Qed.

Lemma sort_perm {A} (cmp : A -> A -> Z) l : Permutation (Array_sort cmp l) l.
Proof.
  induction l as [|x r IH]; cbn; [reflexivity|].
  rewrite insert_perm. now constructor.
Qed.

Lemma insert_sorted x l :
  StronglySorted entry_lt l -> ~ In (fst x) (map fst l) ->
  StronglySorted entry_lt (insert_by by_key x l).
Proof.
  induction l as [|y r IH]; cbn [insert_by]; intros S NI.
  - repeat constructor.
  - apply StronglySorted_inv in S. destruct S as [S F].
    unfold by_key at 1. destruct (String.ltb (fst x) (fst y)) eqn:L; cbn.
    + constructor; [constructor; auto|].
      constructor; [exact L|].
      eapply Forall_impl; [|exact F]. intros z Hz.
      eapply str_lt_trans; eauto.
    + constructor.
      * apply IH; auto. intros I. apply NI. cbn; auto.
      * eapply Permutation_Forall; [symmetry; apply insert_perm|].
        constructor; [|exact F].
        apply ltb_total; auto. intros E. apply NI. cbn; auto.
Qed.

Lemma sort_sorted l :
  NoDup (map fst l) -> StronglySorted entry_lt (Array_sort by_key l).
Proof.
  induction l as [|x r IH]; cbn; intros ND; [constructor|].
  inversion ND as [|? ? NI ND']; subst.
  apply insert_sorted; auto.
  intros I. apply NI. eapply Permutation_in; [|exact I].
  apply Permutation_map, sort_perm.
Qed.

(** A strict order has one sorted arrangement of a set. *)
Lemma sorted_perm_unique {A} (R : A -> A -> Prop) :
  (forall a, ~ R a a) -> (forall a b c, R a b -> R b c -> R a c) ->
  forall l1 l2, StronglySorted R l1 -> StronglySorted R l2 ->
                Permutation l1 l2 -> l1 = l2.
Proof.
  intros Irr Tr. induction l1 as [|a l1 IH]; intros l2 S1 S2 P.
  - apply Permutation_nil in P. now subst.
  - destruct l2 as [|b l2]; [symmetry in P; apply Permutation_nil in P; discriminate|].
    apply StronglySorted_inv in S1, S2. destruct S1 as [S1 F1], S2 as [S2 F2].
    assert (a = b) as ->.
    { assert (In a (b :: l2)) as [E|Ia]
          by (eapply Permutation_in; [exact P|cbn; auto]); [now subst|].
      assert (In b (a :: l1)) as [E|Ib]
          by (eapply Permutation_in; [symmetry; exact P|cbn; auto]); [now subst|].
      rewrite Forall_forall in F1, F2.
      exfalso. apply (Irr a). eauto. }
    f_equal. apply IH; auto. eapply Permutation_cons_inv; eauto.
Qed.

Lemma entry_lt_irrefl a : ~ entry_lt a a.
Proof. apply str_lt_irrefl. Qed.

Lemma entry_lt_trans a b c : entry_lt a b -> entry_lt b c -> entry_lt a c.
Proof. apply str_lt_trans. Qed.

Lemma sort_unique l1 l2 :
  Permutation l1 l2 -> NoDup (map fst l1) ->
  Array_sort by_key l1 = Array_sort by_key l2.
Proof.
  intros P ND.
  apply (sorted_perm_unique entry_lt entry_lt_irrefl entry_lt_trans).
  - now apply sort_sorted.
  - apply sort_sorted. eapply Permutation_NoDup; [|exact ND].
    now apply Permutation_map.
  - rewrite !sort_perm. exact P.
Qed.

(** Whatever algorithm the engine's [sort] runs, on entries with distinct
    keys it can only return this arrangement. *)
Lemma Array_sort_by_key_spec l l' :
  NoDup (map fst l) -> Permutation l' l -> StronglySorted entry_lt l' ->
  l' = Array_sort by_key l.
Proof.
  intros ND P S.
  apply (sorted_perm_unique entry_lt entry_lt_irrefl entry_lt_trans); auto.
  - now apply sort_sorted.
  - rewrite sort_perm. exact P.
Qed.

Lemma get_perm (l1 l2 : obj) k :
  Permutation l1 l2 -> NoDup (obj_keys l1) -> obj_get k l1 = obj_get k l2.
Proof.
  intros P ND.
  assert (NoDup (obj_keys l2)) as ND2
      by (eapply Permutation_NoDup; [|exact ND]; now apply Permutation_map).
  destruct (obj_get k l1) as [v|] eqn:G.
  - symmetry. apply In_obj_get; auto.
    eapply Permutation_in; [exact P|]. now apply obj_get_In.
  - symmetry. apply obj_get_None. apply obj_get_None in G.
    intros I. apply G. eapply Permutation_in; [|exact I].
    apply Permutation_map. now symmetry.
Qed.

(** Defining a fresh property adds one entry. *)
Lemma set_perm k v (o : obj) :
  ~ In k (obj_keys o) -> Permutation (obj_set k v o) ((k, v) :: o).
Proof.
  intros NI. unfold obj_set.
  apply obj_has_false in NI. rewrite NI.
  destruct (array_index k) as [i|].
  - clear NI. induction o as [|[k' v'] r IH]; cbn; [reflexivity|].
    destruct (array_index k') as [j|]; [destruct (i <? j)|]; try reflexivity.
    rewrite IH. apply perm_swap.
  - symmetry. apply Permutation_cons_append.
Qed.

Lemma assign_perm l : forall acc,
  NoDup (obj_keys (acc ++ l)) -> Permutation (obj_assign acc l) (acc ++ l).
Proof.
  induction l as [|[k v] r IH]; intros acc ND; cbn.
  - now rewrite app_nil_r.
  - change (fold_left _ r (obj_set k v acc)) with (obj_assign (obj_set k v acc) r).
    assert (~ In k (obj_keys acc)) as NI.
    { unfold obj_keys in *. rewrite map_app in ND. cbn in ND.
      apply NoDup_remove_2 in ND. intros I. apply ND. apply in_app_iff; auto. }
    pose proof (set_perm k v acc NI) as P.
    rewrite IH.
    + rewrite P. cbn. apply Permutation_middle.
    + eapply Permutation_NoDup; [|exact ND].
      apply Permutation_map. rewrite P. cbn. symmetry. apply Permutation_middle.
Qed.

End SortFacts.

(** ** AliasSelect *)

Module AliasSelectFacts.
Import JS Server Notions KeyFacts ObjFacts AliasSelect.

Lemma is_empty_object_eq j : is_empty_object j = true -> j = JObj [].
Proof. destruct j as [| | | | |[|]]; cbn; congruence. Qed.

Lemma keys_app (a b : obj) : obj_keys (a ++ b) = obj_keys a ++ obj_keys b.
Proof. apply map_app. Qed.

Lemma canonical_prefix (a b : obj) :
  keys_canonical (obj_keys (a ++ b)) = true -> keys_canonical (obj_keys a) = true.
Proof. rewrite keys_app. intros C. now apply keys_canonical_app in C. Qed.

Lemma labels_to_obj_app (rest acc : obj) :
  keys_canonical (obj_keys (acc ++ rest)) = true ->
  forallb (fun kv => is_empty_object (snd kv)) rest = true ->
  fold_left
    (fun total current => obj_set (label current) (JObj []) (obj_spread total))
    (map (fun label => {| label := label |}) (obj_keys rest)) acc
  = acc ++ rest.
Proof.
  revert acc. induction rest as [|[k v] r IH]; intros acc C E; cbn.
  - now rewrite app_nil_r.
  - cbn in E. apply andb_prop in E. destruct E as [Ev E].
    apply is_empty_object_eq in Ev. subst v.
    replace (acc ++ (k, JObj []) :: r) with ((acc ++ [(k, JObj [])]) ++ r) in *
      by now rewrite <- app_assoc.
    rewrite obj_spread_id by (eapply canonical_prefix, canonical_prefix; eauto).
    rewrite obj_set_last by (eapply canonical_prefix; eauto).
    now apply IH.
Qed.

Lemma labels_to_obj_keys (array : list Option_) : forall acc,
  keys_canonical (obj_keys acc) = true ->
  let o := fold_left
             (fun total current => obj_set (label current) (JObj []) (obj_spread total))
             array acc in
  keys_canonical (obj_keys o) = true /\
  forall x, In x (obj_keys o) <-> In x (obj_keys acc) \/ In x (map label array).
Proof.
  induction array as [|c r IH]; intros acc C; cbn.
  - split; [exact C|tauto].
  - rewrite obj_spread_id by exact C.
    destruct (IH (obj_set (label c) (JObj []) acc)) as [C' I'].
    { now apply canonical_set. }
    split; [exact C'|]. intros x. rewrite I', In_keys_set.
    intuition (subst; auto).
Qed.

Lemma existsb_eqb_In x l : existsb (String.eqb x) l = true <-> In x l.
Proof.
  rewrite existsb_exists. split.
  - intros (y & I & E). apply String.eqb_eq in E. now subst.
  - intros I. exists x. split; auto. apply String.eqb_refl.
Qed.

Lemma Set_of_In l : forall seen x,
  In x (Set_of seen l) <-> In x l /\ ~ In x seen.
Proof.
  induction l as [|y r IH]; intros seen x; cbn; [tauto|].
  destruct (existsb (String.eqb y) seen) eqn:E.
  - apply existsb_eqb_In in E. rewrite IH. split; [tauto|].
    intros [[->|I] N]; [contradiction|tauto].
  - assert (~ In y seen) as N by (rewrite <- existsb_eqb_In; congruence).
    cbn. rewrite IH. cbn. split.
    + intros [->|(I & M)]; [tauto|]. split; [tauto|]. intros J. apply M. auto.
    + intros [[->|I] M]; [tauto|].
      destruct (string_dec y x) as [->|D]; [tauto|]. right. split; auto.
      intros [?|?]; auto.
Qed.

Lemma Set_of_NoDup l : forall seen, NoDup (Set_of seen l).
Proof.
  induction l as [|y r IH]; intros seen; cbn; [constructor|].
  destruct (existsb (String.eqb y) seen); [apply IH|].
  constructor; [|apply IH]. rewrite Set_of_In. cbn. tauto.
Qed.

Lemma Set_of_ext l : forall s1 s2,
  (forall x, In x s1 <-> In x s2) -> Set_of s1 l = Set_of s2 l.
Proof.
  induction l as [|y r IH]; intros s1 s2 E; cbn; [reflexivity|].
  assert (existsb (String.eqb y) s1 = existsb (String.eqb y) s2) as ->.
  { apply eq_true_iff_eq. rewrite !existsb_eqb_In. apply E. }
  destruct (existsb (String.eqb y) s2); [now apply IH|].
  f_equal. apply IH. intros x. cbn. rewrite E. reflexivity.
Qed.

(** Labels that are no array indices keep the order of their first
    occurrences. *)
Lemma labels_to_obj_order (array : list Option_) : forall acc,
  keys_canonical (obj_keys acc) = true ->
  Forall (fun c => array_index (label c) = None) array ->
  obj_keys (fold_left
              (fun total current => obj_set (label current) (JObj []) (obj_spread total))
              array acc)
  = obj_keys acc ++ Set_of (obj_keys acc) (map label array).
Proof.
  induction array as [|c r IH]; intros acc C F; cbn [fold_left map Set_of].
  - now rewrite app_nil_r.
  - inversion F as [|? ? Fc Fr]; subst.
    rewrite obj_spread_id by exact C.
    rewrite IH by (auto using canonical_set).
    unfold obj_set. destruct (obj_has (label c) acc) eqn:Hc.
    + rewrite keys_replace.
      apply obj_has_true, existsb_eqb_In in Hc. now rewrite Hc.
    + rewrite Fc. apply obj_has_false in Hc.
      assert (existsb (String.eqb (label c)) (obj_keys acc) = false) as ->.
      { destruct (existsb (String.eqb (label c)) (obj_keys acc)) eqn:X; auto.
        apply existsb_eqb_In in X. contradiction. }
      rewrite keys_app. cbn [obj_keys map fst]. rewrite <- app_assoc. cbn [app].
      do 2 f_equal. apply Set_of_ext. intros x. rewrite in_app_iff. cbn. tauto.
Qed.

(** C4. For an alias value (alias names bound to empty objects), the array
    representation turned back into an object is the value itself; and
    for an array of labels, the object representation turned back into an
    array holds the array's labels, each once (in the order of their first
    occurrences when no label is an array index). *)
Theorem alias_round_trip (o : JS.obj) (array : list Option_) :
  alias_value o = true ->
  transformArrayToObj (transformObjToArray (Some o)) = o /\
  (let back := map label (transformObjToArray (Some (transformArrayToObj array))) in
   NoDup back /\
   (forall x, In x back <-> In x (map label array)) /\
   (Forall (fun c => array_index (label c) = None) array ->
    back = Set_of [] (map label array))).
Proof.
  unfold alias_value. rewrite andb_true_iff. intros [C E]. split.
  - unfold transformArrayToObj, transformObjToArray.
    now rewrite (labels_to_obj_app o []).
  - cbn zeta. unfold transformObjToArray, transformArrayToObj.
    rewrite map_map. cbn [label]. rewrite map_id.
    destruct (labels_to_obj_keys array [] eq_refl) as [C' I'].
    split; [now apply keys_canonical_NoDup|]. split.
    + intros x. rewrite I'. split; [intros [[]|I]; exact I|intros I; right; exact I].
    + intros F. now rewrite (labels_to_obj_order array []).
Qed.

Lemma alias_round_trip_witness :
  let o := [("0", JObj []); ("logs", JObj []); ("app", JObj [])] in
  transformArrayToObj (transformObjToArray (Some o)) = o.
Proof.
  intro o.
  exact (proj1 (alias_round_trip o [{| label := "app" |}; {| label := "app" |}] eq_refl)).
Defined.

Section Refresh.
Context `{Utils}.

(** C8. The options built from an ok response hold every alias name of the
    response that matches no system-alias pattern, each once, and nothing
    else; a response that is not ok is passed on as it is. *)
Theorem refreshOptions_options (response : list AliasItem) (error : string) :
  (exists options,
      refreshOptions (ResponseOk response) = ResponseOk options /\
      NoDup (map label options) /\
      forall x, In x (map label options) <->
                In x (map alias response) /\ filterByMinimatch x SYSTEM_ALIAS = false) /\
  refreshOptions (ResponseError error) = ResponseError error.
Proof.
  split; [|reflexivity].
  eexists. split; [reflexivity|].
  rewrite map_map. cbn [label]. rewrite map_id. split.
  - apply Set_of_NoDup.
  - intros x. rewrite Set_of_In, filter_In, negb_true_iff. cbn. tauto.
Qed.

End Refresh.

Example refreshOptions_example :
  refreshOptions (H := Examples.utils)
    (ResponseOk [{| alias := ".kibana_1" |}; {| alias := "logs" |};
                 {| alias := "app" |}; {| alias := "logs" |}])
  = ResponseOk [{| label := "logs" |}; {| label := "app" |}].
Proof. reflexivity. Qed.

Example select_onChange_example :
  select_onChange ["logs"; "7"; "logs"; "app"]
  = [("7", JObj []); ("logs", JObj []); ("app", JObj [])].
Proof. reflexivity. Qed.

End AliasSelectFacts.

(** ** IndexDetail: ordered settings and the diff editor *)

Module OrderedJsonFacts.
Import JS Server Notions KeyFacts ObjFacts SortFacts IndexDetail.

Lemma fold_spread l : forall acc,
  keys_canonical (obj_keys acc) = true ->
  fold_left (fun total kv => obj_set (fst kv) (snd kv) (obj_spread total)) l acc
  = obj_assign acc l.
Proof.
  induction l as [|[k v] r IH]; intros acc C; [reflexivity|].
  cbn [fold_left fst snd]. rewrite obj_spread_id by exact C.
  rewrite IH by now apply canonical_set. reflexivity.
Qed.

Lemma getOrderedJson_assign o :
  getOrderedJson o = obj_assign [] (Array_sort by_key o).
Proof. unfold getOrderedJson. now rewrite fold_spread. Qed.

Lemma sorted_keys_NoDup o :
  NoDup (obj_keys o) -> NoDup (obj_keys (Array_sort by_key o)).
Proof.
  intros ND. eapply Permutation_NoDup; [|exact ND].
  apply Permutation_map. symmetry. apply sort_perm.
Qed.

Lemma getOrderedJson_canonical o :
  keys_canonical (obj_keys (getOrderedJson o)) = true.
Proof. rewrite getOrderedJson_assign. now apply assign_canonical. Qed.

Lemma getOrderedJson_get o k :
  NoDup (obj_keys o) -> obj_get k (getOrderedJson o) = obj_get k o.
Proof.
  intros ND. rewrite getOrderedJson_assign, get_assign by now apply sorted_keys_NoDup.
  rewrite (get_perm (Array_sort by_key o) o k (sort_perm _ _) (sorted_keys_NoDup _ ND)).
  now destruct (obj_get k o).
Qed.

Lemma getOrderedJson_perm o :
  NoDup (obj_keys o) -> Permutation (getOrderedJson o) o.
Proof.
  intros ND. rewrite getOrderedJson_assign.
  rewrite assign_perm by (cbn [app]; now apply sorted_keys_NoDup).
  apply sort_perm.
Qed.

(** *** The enumeration order of the result *)

Lemma filter_keys_insert i k v o :
  array_index k = Some i ->
  filter non_index (obj_keys (obj_insert_index i k v o))
  = filter non_index (obj_keys o).
Proof.
  intros Ek.
  assert (non_index k = false) as Nk by (unfold non_index, is_index; now rewrite Ek).
  unfold obj_keys.
  induction o as [|[k' v'] r IH]; cbn; [now rewrite Nk|].
  destruct (array_index k') as [j|] eqn:Ej; [destruct (i <? j)|]; cbn;
    rewrite ?Nk; try reflexivity.
  now rewrite IH.
Qed.

Lemma filter_keys_set k v o :
  ~ In k (obj_keys o) ->
  filter non_index (obj_keys (obj_set k v o))
  = filter non_index (obj_keys o) ++ (if is_index k then [] else [k]).
Proof.
  intros NI. unfold obj_set. apply obj_has_false in NI. rewrite NI.
  unfold is_index. destruct (array_index k) as [i|] eqn:Ek.
  - rewrite app_nil_r. now apply filter_keys_insert.
  - unfold obj_keys. rewrite map_app, filter_app. cbn.
    unfold non_index, is_index. now rewrite Ek.
Qed.

Lemma filter_keys_assign l : forall acc,
  NoDup (obj_keys (acc ++ l)) ->
  filter non_index (obj_keys (obj_assign acc l))
  = filter non_index (obj_keys acc) ++ filter non_index (obj_keys l).
Proof.
  induction l as [|[k v] r IH]; intros acc ND.
  - cbn. now rewrite app_nil_r.
  - change (obj_assign acc ((k, v) :: r)) with (obj_assign (obj_set k v acc) r).
    assert (~ In k (obj_keys acc)) as NI.
    { unfold obj_keys in *. rewrite map_app in ND. cbn in ND.
      apply NoDup_remove_2 in ND. intros I. apply ND. apply in_app_iff; auto. }
    rewrite IH.
    + rewrite filter_keys_set by exact NI. rewrite <- app_assoc. f_equal.
      cbn. unfold non_index. now destruct (is_index k).
    + eapply Permutation_NoDup; [|exact ND].
      apply Permutation_map. rewrite (set_perm k v acc NI). cbn.
      symmetry. apply Permutation_middle.
Qed.

Lemma StronglySorted_filter {A} (R : A -> A -> Prop) (f : A -> bool) l :
  StronglySorted R l -> StronglySorted R (filter f l).
Proof.
  induction 1 as [|a l S IH F]; cbn; [constructor|].
  destruct (f a); [|exact IH]. constructor; [exact IH|].
  rewrite Forall_forall in *. intros x Ix. apply filter_In in Ix. now apply F.
Qed.

Lemma StronglySorted_keys l :
  StronglySorted entry_lt l -> StronglySorted str_lt (obj_keys l).
Proof.
  induction 1 as [|a l S IH F]; cbn; constructor; auto.
  rewrite Forall_forall in *. intros x Ix. apply in_map_iff in Ix.
  destruct Ix as (e & <- & Ie). now apply F.
Qed.

Lemma canonical_key_lt ks :
  keys_canonical ks = true -> StronglySorted str_lt (filter non_index ks) ->
  StronglySorted key_lt ks.
Proof.
  induction ks as [|k r IH]; cbn [keys_canonical filter]; [constructor|].
  rewrite andb_true_iff, forallb_forall. intros [F C] S.
  assert (StronglySorted str_lt (filter non_index r)) as S'.
  { destruct (non_index k); [now apply StronglySorted_inv in S|exact S]. }
  constructor; [now apply IH|].
  rewrite Forall_forall. intros x Ix.
  pose proof (F x Ix) as B. apply key_before_iff in B. destruct B as [_ O].
  unfold ord in O. unfold key_lt.
  destruct (array_index k) as [i|] eqn:Ek, (array_index x) as [j|] eqn:Ex;
    try discriminate; auto.
  - now apply N.ltb_lt.
  - assert (non_index k = true) as Nk by (unfold non_index, is_index; now rewrite Ek).
    rewrite Nk in S. apply StronglySorted_inv in S. destruct S as [_ Fk].
    rewrite Forall_forall in Fk. apply Fk. apply filter_In. split; auto.
    unfold non_index, is_index. now rewrite Ex.
Qed.

Lemma filter_all {A} (f : A -> bool) l :
  (forall x, In x l -> f x = true) -> filter f l = l.
Proof.
  induction l as [|a r IH]; cbn; intros F; [reflexivity|].
  rewrite F by auto. f_equal. apply IH. auto.
Qed.

Lemma getOrderedJson_non_index_sorted o :
  NoDup (obj_keys o) ->
  StronglySorted str_lt (filter non_index (obj_keys (getOrderedJson o))).
Proof.
  intros ND. rewrite getOrderedJson_assign.
  rewrite filter_keys_assign by (cbn [app]; now apply sorted_keys_NoDup).
  cbn [obj_keys map filter app].
  apply StronglySorted_filter, StronglySorted_keys, sort_sorted. exact ND.
Qed.

Lemma getOrderedJson_enumeration o :
  keys_canonical (obj_keys o) = true ->
  StronglySorted key_lt (obj_keys (getOrderedJson o)) /\
  ((forall k, In k (obj_keys o) -> array_index k = None) ->
   StronglySorted str_lt (obj_keys (getOrderedJson o))).
Proof.
  intros C. pose proof (keys_canonical_NoDup _ C) as ND. split.
  - apply canonical_key_lt.
    + apply getOrderedJson_canonical.
    + now apply getOrderedJson_non_index_sorted.
  - intros NIx.
    rewrite <- (filter_all non_index (obj_keys (getOrderedJson o))).
    + now apply getOrderedJson_non_index_sorted.
    + intros x Ix. unfold non_index, is_index. rewrite NIx; [reflexivity|].
      eapply Permutation_in; [|exact Ix].
      apply Permutation_map. now apply getOrderedJson_perm.
Qed.

Lemma getOrderedJson_idempotent o :
  keys_canonical (obj_keys o) = true ->
  getOrderedJson (getOrderedJson o) = getOrderedJson o.
Proof.
  intros C. pose proof (keys_canonical_NoDup _ C) as ND.
  rewrite (getOrderedJson_assign (getOrderedJson o)).
  rewrite (sort_unique (getOrderedJson o) o).
  - symmetry. apply getOrderedJson_assign.
  - now apply getOrderedJson_perm.
  - apply keys_canonical_NoDup, getOrderedJson_canonical.
Qed.

(** C9 (amended). [getOrderedJson] binds the keys of its argument to the same
    values; it enumerates the keys that are array indices first, in
    ascending numeric order, and the other keys after them in ascending
    order, so all keys are in ascending order when none is an array index;
    and applying it twice gives what applying it once gives. *)
Theorem getOrderedJson_ordered (o : JS.obj) :
  keys_canonical (obj_keys o) = true ->
  (forall k, obj_get k (getOrderedJson o) = obj_get k o) /\
  StronglySorted key_lt (obj_keys (getOrderedJson o)) /\
  ((forall k, In k (obj_keys o) -> array_index k = None) ->
   StronglySorted str_lt (obj_keys (getOrderedJson o))) /\
  getOrderedJson (getOrderedJson o) = getOrderedJson o.
Proof.
  intros C. pose proof (keys_canonical_NoDup _ C) as ND.
  destruct (getOrderedJson_enumeration o C) as [S A].
  repeat split; auto using getOrderedJson_idempotent.
  intros k. now apply getOrderedJson_get.
Qed.

Lemma getOrderedJson_ordered_witness :
  let o := [("index.number_of_shards", JNum 1); ("index.codec", JStr "default")] in
  obj_keys (getOrderedJson o) = ["index.codec"; "index.number_of_shards"] /\
  getOrderedJson (getOrderedJson o) = getOrderedJson o.
Proof.
  intro o. split; [reflexivity|].
  exact (proj2 (proj2 (proj2 (getOrderedJson_ordered o eq_refl)))).
Defined.

(** C9, as stated, fails at [{ "2": 1, "1a": 2 }]: the entries sorted by key
    are ["1a"], ["2"], but the object built from them enumerates ["2"], an
    array index, before ["1a"], although ["1a" < "2"]. *)
Lemma getOrderedJson_not_ascending :
  let o := [("2", JNum 1); ("1a", JNum 2)] in
  keys_canonical (obj_keys o) = true /\
  Array_sort by_key o = [("1a", JNum 2); ("2", JNum 1)] /\
  obj_keys (getOrderedJson o) = ["2"; "1a"] /\
  str_lt "1a" "2" /\
  ~ StronglySorted str_lt (obj_keys (getOrderedJson o)).
Proof.
  intro o. repeat split.
  intros S. vm_compute in S. apply StronglySorted_inv in S. destruct S as [_ F].
  inversion F as [|? ? L _]. discriminate L.
Qed.

Example getOrderedJson_example :
  getOrderedJson
    [("index.refresh_interval", JStr "1s"); ("index.number_of_shards", JNum 1);
     ("index.number_of_replicas", JNum 1)]
  = [("index.number_of_replicas", JNum 1); ("index.number_of_shards", JNum 1);
     ("index.refresh_interval", JStr "1s")].
Proof. reflexivity. Qed.

(** *** The diff editor *)

Lemma JSON_stringify_object o : JSON_stringify (JObj o) = object_text o.
Proof. reflexivity. Qed.

Section Editor.
Context `{Platform} {R : Type}.

(** C5 (amended). In the advanced-settings diff editor both texts are the
    serialisations of the settings with their top-level members reordered:
    array-index keys first in numeric order, the other keys after them in
    ascending order (ascending throughout when no key is an array index);
    and an edit hands on exactly what [JSON.parse] makes of the edited
    text. *)
Theorem renderProps_editor (oldSettings value : option JS.obj) (onChange : json -> R) :
  keys_canonical (obj_keys (or_empty oldSettings)) = true ->
  keys_canonical (obj_keys (or_empty value)) = true ->
  exists props,
    renderProps false oldSettings value onChange = Some props /\
    (exists o1,
        original props = object_text o1 /\
        Permutation o1 (or_empty oldSettings) /\
        StronglySorted key_lt (obj_keys o1) /\
        ((forall k, In k (obj_keys o1) -> array_index k = None) ->
         StronglySorted str_lt (obj_keys o1))) /\
    (exists o2,
        IndexDetail.value props = object_text o2 /\
        Permutation o2 (or_empty value) /\
        StronglySorted key_lt (obj_keys o2) /\
        ((forall k, In k (obj_keys o2) -> array_index k = None) ->
         StronglySorted str_lt (obj_keys o2))) /\
    (forall val, IndexDetail.onChange props val = option_map onChange (JSON_parse val)).
Proof.
  intros C1 C2. eexists. split; [reflexivity|].
  cbn [original IndexDetail.value IndexDetail.onChange].
  assert (forall o, keys_canonical (obj_keys o) = true ->
            Permutation (getOrderedJson o) o /\
            StronglySorted key_lt (obj_keys (getOrderedJson o)) /\
            ((forall k, In k (obj_keys (getOrderedJson o)) -> array_index k = None) ->
             StronglySorted str_lt (obj_keys (getOrderedJson o)))) as K.
  { intros o C. pose proof (keys_canonical_NoDup _ C) as ND.
    destruct (getOrderedJson_enumeration o C) as [S A].
    repeat split; auto using getOrderedJson_perm.
    intros NI. apply A. intros k Ik. apply NI.
    eapply Permutation_in; [|exact Ik].
    apply Permutation_map. symmetry. now apply getOrderedJson_perm. }
  split; [|split].
  - exists (getOrderedJson (or_empty oldSettings)). split; [reflexivity|]. now apply K.
  - exists (getOrderedJson (or_empty value)). split; [reflexivity|]. now apply K.
  - intros val. now destruct (JSON_parse val).
Qed.

End Editor.

Lemma renderProps_editor_witness :
  let old := [("index.number_of_shards", JNum 1); ("index.codec", JStr "default")] in
  exists props,
    renderProps (H := Examples.platform) false (Some old) None (fun j => j) = Some props /\
    original props
    = object_text [("index.codec", JStr "default"); ("index.number_of_shards", JNum 1)] /\
    IndexDetail.onChange props "{}" = Some (JObj []).
Proof.
  intro old.
  destruct (renderProps_editor (H := Examples.platform) (Some old) None (fun j => j)
              eq_refl eq_refl) as (props & E & _ & _ & P).
  exists props. split; [exact E|]. split; [|exact (P "{}")].
  injection E as <-. reflexivity.
Defined.

(** C5, as stated, fails for the settings [{ "2": 1, "1a": 2 }]: the text
    shown as the original has the member ["2"] before the member ["1a"],
    although ["1a" < "2"]. *)
Lemma renderProps_not_ascending :
  let old := [("2", JNum 1); ("1a", JNum 2)] in
  option_map original
    (renderProps (H := Examples.platform) false (Some old) None (fun j => j))
  = Some ("{" ++ newline
            ++ "  " ++ quote "2" ++ ": 1," ++ newline
            ++ "  " ++ quote "1a" ++ ": 2" ++ newline ++ "}")%string /\
  str_lt "1a" "2".
Proof. split; reflexivity. Qed.

End OrderedJsonFacts.

(** ** AliasSelect: the order of the selection *)

Module AliasSelectOrder.
Import JS Server Notions KeyFacts ObjFacts AliasSelect AliasSelectFacts OrderedJsonFacts.

Lemma canonical_split ks :
  keys_canonical ks = true -> ks = filter is_index ks ++ filter non_index ks.
Proof.
  induction ks as [|k r IH]; cbn [keys_canonical filter]; [reflexivity|].
  rewrite andb_true_iff, forallb_forall. intros [F C].
  unfold non_index at 1. destruct (is_index k) eqn:Ik; cbn [negb app].
  - f_equal. now apply IH.
  - assert (forall x, In x r -> non_index x = true) as N.
    { intros x Ix. apply F, key_before_iff in Ix. destruct Ix as [_ O].
      unfold ord in O. unfold is_index in Ik. unfold non_index, is_index.
      destruct (array_index k); [discriminate|].
      now destruct (array_index x). }
    assert (filter is_index r = []) as ->.
    { clear -N. induction r as [|x r IH]; cbn; [reflexivity|].
      pose proof (N x (or_introl eq_refl)) as Nx. unfold non_index in Nx.
      apply negb_true_iff in Nx. rewrite Nx. apply IH. intros; apply N; cbn; auto. }
    cbn [app]. f_equal. symmetry. now apply filter_all.
Qed.

Lemma canonical_index_sorted ks :
  keys_canonical ks = true -> StronglySorted key_lt (filter is_index ks).
Proof.
  induction ks as [|k r IH]; cbn [keys_canonical filter]; [constructor|].
  rewrite andb_true_iff, forallb_forall. intros [F C].
  destruct (is_index k) eqn:Ik; [|now apply IH].
  constructor; [now apply IH|].
  rewrite Forall_forall. intros x Ix. apply filter_In in Ix. destruct Ix as [Ix Jx].
  apply F, key_before_iff in Ix. destruct Ix as [_ O].
  unfold ord in O. unfold key_lt. unfold is_index in Ik, Jx.
  destruct (array_index k); [|discriminate].
  destruct (array_index x); [|discriminate]. now apply N.ltb_lt.
Qed.

Lemma Set_of_ext_on (P : string -> Prop) l : forall s1 s2,
  (forall x, P x -> (In x s1 <-> In x s2)) -> Forall P l ->
  Set_of s1 l = Set_of s2 l.
Proof.
  induction l as [|y r IH]; intros s1 s2 E F; cbn; [reflexivity|].
  inversion F as [|? ? Py Fr]; subst.
  assert (existsb (String.eqb y) s1 = existsb (String.eqb y) s2) as ->.
  { apply eq_true_iff_eq. rewrite !existsb_eqb_In. now apply E. }
  destruct (existsb (String.eqb y) s2); [now apply IH|].
  f_equal. apply IH; auto. intros x Px. cbn. rewrite (E x Px). reflexivity.
Qed.

Lemma Forall_filter {A} (f : A -> bool) l : Forall (fun x => f x = true) (filter f l).
Proof.
  rewrite Forall_forall. intros x Ix. now apply filter_In in Ix.
Qed.

Lemma existsb_eqb_false x l : ~ In x l -> existsb (String.eqb x) l = false.
Proof.
  intros N. destruct (existsb (String.eqb x) l) eqn:E; [|reflexivity].
  apply existsb_eqb_In in E. contradiction.
Qed.

(** The labels that are no array indices are enumerated in the order of
    their first occurrences, whatever array indices come in between. *)
Lemma labels_to_obj_non_index (array : list Option_) : forall acc,
  keys_canonical (obj_keys acc) = true ->
  filter non_index
    (obj_keys (fold_left
                 (fun total current => obj_set (label current) (JObj []) (obj_spread total))
                 array acc))
  = filter non_index (obj_keys acc)
    ++ Set_of (obj_keys acc) (filter non_index (map label array)).
Proof.
  induction array as [|c r IH]; intros acc C; cbn [fold_left map filter].
  - cbn. now rewrite app_nil_r.
  - rewrite obj_spread_id by exact C.
    rewrite IH by now apply canonical_set.
    destruct (in_dec string_dec (label c) (obj_keys acc)) as [I|NI].
    + assert (obj_keys (obj_set (label c) (JObj []) acc) = obj_keys acc) as ->.
      { unfold obj_set. apply obj_has_true in I. rewrite I. apply keys_replace. }
      f_equal. destruct (non_index (label c)); [|reflexivity].
      cbn [Set_of]. apply existsb_eqb_In in I. now rewrite I.
    + rewrite filter_keys_set by exact NI.
      rewrite <- app_assoc. f_equal.
      unfold non_index at 2 4. destruct (is_index (label c)) eqn:Ic; cbn [negb app].
      * apply (Set_of_ext_on (fun x => non_index x = true)); [|apply Forall_filter].
        intros x Nx. rewrite In_keys_set. split; [|auto].
        intros [->|]; [|assumption].
        unfold non_index in Nx. rewrite Ic in Nx. discriminate.
      * cbn [Set_of]. rewrite (existsb_eqb_false _ _ NI). cbn [app]. f_equal.
        apply Set_of_ext. intros x. rewrite In_keys_set. cbn. intuition.
Qed.

Lemma In_obj_set kv k v o :
  In kv (obj_set k v o) -> kv = (k, v) \/ In kv o.
Proof.
  unfold obj_set. destruct (obj_has k o).
  - induction o as [|[k' v'] r IH]; cbn; [tauto|].
    destruct (k =? k')%string; cbn; intuition.
  - destruct (array_index k) as [i|].
    + induction o as [|[k' v'] r IH]; cbn; [intuition|].
      destruct (array_index k') as [j|]; [destruct (i <? j)|]; cbn; intuition.
    + rewrite in_app_iff. cbn. intuition.
Qed.

Lemma labels_to_obj_values (array : list Option_) : forall acc,
  keys_canonical (obj_keys acc) = true ->
  Forall (fun kv => snd kv = JObj []) acc ->
  Forall (fun kv => snd kv = JObj [])
         (fold_left
            (fun total current => obj_set (label current) (JObj []) (obj_spread total))
            array acc).
Proof.
  induction array as [|c r IH]; intros acc C F; cbn [fold_left]; [exact F|].
  rewrite obj_spread_id by exact C.
  apply IH; [now apply canonical_set|].
  rewrite Forall_forall in *. intros kv I.
  apply In_obj_set in I. destruct I as [->|I]; [reflexivity|now apply F].
Qed.

Lemma select_round (val : list string) :
  select_value (Some (select_onChange val))
  = obj_keys (transformArrayToObj (map (fun label => {| label := label |}) val)).
Proof.
  unfold select_value, select_onChange, transformObjToArray.
  rewrite map_map. cbn [label]. now rewrite map_id.
Qed.

Lemma labels_of_val (val : list string) :
  map label (map (fun label => {| label := label |}) val) = val.
Proof. rewrite map_map. cbn [label]. apply map_id. Qed.

(** X1. The selection shown after a change: the labels that are array indices
    come first, in ascending numeric order, then the other labels in the
    order in which they were first chosen; every chosen label is there
    once. *)
Theorem selection_order (val : list string) :
  let shown := select_value (Some (select_onChange val)) in
  shown = filter is_index shown ++ filter non_index shown /\
  StronglySorted key_lt (filter is_index shown) /\
  filter non_index shown = Set_of [] (filter non_index val) /\
  NoDup shown /\
  (forall x, In x shown <-> In x val).
Proof.
  cbn zeta. rewrite select_round. unfold transformArrayToObj.
  destruct (labels_to_obj_keys (map (fun label => {| label := label |}) val) [] eq_refl)
    as [C I].
  cbn zeta in C, I. rewrite labels_of_val in I.
  split; [now apply canonical_split|].
  split; [now apply canonical_index_sorted|].
  split; [|split].
  - rewrite labels_to_obj_non_index by reflexivity. now rewrite labels_of_val.
  - now apply keys_canonical_NoDup.
  - intros x. rewrite I. cbn. tauto.
Qed.

(** X2. What [onChange] hands on is an alias value whose keys are the chosen
    labels: every chosen label is bound to [{}] and nothing else is bound;
    showing it and taking it back from the selection gives the same object
    again. *)
Theorem onChange_value_stable (val : list string) :
  let o := select_onChange val in
  alias_value o = true /\
  (forall x, In x val -> obj_get x o = Some (JObj [])) /\
  (forall k v, obj_get k o = Some v -> In k val /\ v = JObj []) /\
  select_onChange (select_value (Some o)) = o.
Proof.
  cbn zeta. unfold select_onChange at 1 2 3 4.
  set (array := map (fun label => {| label := label |}) val).
  destruct (labels_to_obj_keys array [] eq_refl) as [C K]. cbn zeta in C, K.
  pose proof (labels_to_obj_values array [] eq_refl (Forall_nil _)) as V.
  fold (transformArrayToObj array) in C, K, V.
  assert (forall x, In x (obj_keys (transformArrayToObj array)) <-> In x val) as K'.
  { intros x. rewrite K. unfold array. rewrite labels_of_val. cbn. tauto. }
  assert (alias_value (transformArrayToObj array) = true) as A.
  { unfold alias_value. rewrite C. cbn [andb]. apply forallb_forall.
    rewrite Forall_forall in V. intros kv I. now rewrite (V kv I). }
  rewrite Forall_forall in V.
  split; [exact A|]. split; [|split].
  - intros x I. apply K' in I.
    destruct (obj_get x (transformArrayToObj array)) as [v|] eqn:G.
    + apply obj_get_In in G. now rewrite <- (V _ G).
    + apply obj_get_None in G. contradiction.
  - intros k v G. apply obj_get_In in G. split; [|exact (V _ G)].
    apply K'. unfold obj_keys. change k with (fst (k, v)). now apply in_map.
  - change (transformArrayToObj array) with (select_onChange val).
    rewrite select_round. fold array.
    unfold alias_value in A. apply andb_prop in A. destruct A as [Ca Ea].
    unfold select_onChange, transformArrayToObj at 1.
    now rewrite (labels_to_obj_app (transformArrayToObj array) []).
Qed.

Lemma subseq_refl {A} (l : list A) : subseq l l.
Proof. induction l; [apply subseq_nil|now apply subseq_take]. Qed.

Lemma subseq_trans {A} (l1 l2 l3 : list A) :
  subseq l1 l2 -> subseq l2 l3 -> subseq l1 l3.
Proof.
  intros S12 S23. revert l1 S12.
  induction S23 as [|x l2 l3 S IH|x l2 l3 S IH]; intros l1 S12.
  - exact S12.
  - apply subseq_skip. now apply IH.
  - inversion S12; subst; [apply subseq_skip|apply subseq_take]; now apply IH.
Qed.

Lemma subseq_filter {A} (f : A -> bool) l : subseq (filter f l) l.
Proof.
  induction l as [|x r IH]; cbn; [constructor|].
  destruct (f x); [apply subseq_take|apply subseq_skip]; exact IH.
Qed.

Lemma subseq_Set_of l : forall seen, subseq (Set_of seen l) l.
Proof.
  induction l as [|x r IH]; intros seen; cbn; [constructor|].
  destruct (existsb (String.eqb x) seen); [apply subseq_skip|apply subseq_take];
    apply IH.
Qed.

Lemma Set_of_fresh l : forall seen,
  NoDup l -> (forall x, In x l -> ~ In x seen) -> Set_of seen l = l.
Proof.
  induction l as [|x r IH]; intros seen ND D; cbn; [reflexivity|].
  inversion ND as [|? ? Nx NDr]; subst.
  rewrite existsb_eqb_false by (apply D; cbn; auto).
  f_equal. apply IH; [exact NDr|].
  intros y Iy [<-|J]; [contradiction|]. apply (D y); cbn; auto.
Qed.

Section Refresh.
Context `{Utils}.

(** X3. The options keep the order of the response: they are its alias names
    with the system aliases and the repetitions left out; a response with
    neither becomes the options as it is. *)
Theorem refreshOptions_order (response : list AliasItem) :
  exists options,
    refreshOptions (ResponseOk response) = ResponseOk options /\
    subseq (map label options) (map alias response) /\
    (NoDup (map alias response) ->
     (forall x, In x (map alias response) -> filterByMinimatch x SYSTEM_ALIAS = false) ->
     map label options = map alias response).
Proof.
  eexists. split; [reflexivity|].
  rewrite map_map. cbn [label]. rewrite map_id. split.
  - eapply subseq_trans; [apply subseq_Set_of|apply subseq_filter].
  - intros ND F. rewrite filter_all.
    + apply Set_of_fresh; [exact ND|]. intros x _ [].
    + intros x Ix. now rewrite (F x Ix).
Qed.

End Refresh.

End AliasSelectOrder.

(** ** IndexDetail: what [getOrderedJson] does not depend on, and what it
    leaves alone *)

Module OrderedJsonOrder.
Import JS Server Notions KeyFacts ObjFacts SortFacts IndexDetail OrderedJsonFacts.

Lemma key_lt_irrefl k : ~ key_lt k k.
Proof.
  unfold key_lt. destruct (array_index k); [apply N.lt_irrefl|apply str_lt_irrefl].
Qed.

Lemma key_lt_trans a b c : key_lt a b -> key_lt b c -> key_lt a c.
Proof.
  unfold key_lt.
  destruct (array_index a), (array_index b), (array_index c); try tauto.
  - apply N.lt_trans.
  - apply str_lt_trans.
Qed.

Lemma key_lt_before a b : key_lt a b -> key_before a b = true.
Proof.
  intros L. apply key_before_iff. split.
  - intros ->. exact (key_lt_irrefl _ L).
  - unfold key_lt in L. unfold ord.
    destruct (array_index a), (array_index b); try tauto.
    now apply N.ltb_lt.
Qed.

Lemma sorted_key_lt_canonical ks :
  StronglySorted key_lt ks -> keys_canonical ks = true.
Proof.
  induction 1 as [|k r S IH F]; cbn [keys_canonical]; [reflexivity|].
  rewrite IH, andb_true_r. apply forallb_forall.
  rewrite Forall_forall in F. intros x Ix. now apply key_lt_before, F.
Qed.

Lemma StronglySorted_of_keys (o : obj) :
  StronglySorted key_lt (obj_keys o) ->
  StronglySorted (fun a b : string * json => key_lt (fst a) (fst b)) o.
Proof.
  induction o as [|a r IH]; cbn; intros S; [constructor|].
  apply StronglySorted_inv in S. destruct S as [S F].
  constructor; [now apply IH|].
  rewrite Forall_forall in *. intros x Ix. apply F. now apply in_map.
Qed.

(** X4. [getOrderedJson] leaves an object as it is exactly when the object
    already enumerates its keys in the order [getOrderedJson] gives: array
    indices by number, then the other keys in ascending order. *)
Theorem getOrderedJson_fixed (o : JS.obj) :
  getOrderedJson o = o <-> StronglySorted key_lt (obj_keys o).
Proof.
  split.
  - intros E.
    assert (keys_canonical (obj_keys o) = true) as C
        by (rewrite <- E; apply getOrderedJson_canonical).
    rewrite <- E. now apply getOrderedJson_enumeration.
  - intros S. pose proof (sorted_key_lt_canonical _ S) as C.
    pose proof (keys_canonical_NoDup _ C) as ND.
    apply (sorted_perm_unique (fun a b : string * json => key_lt (fst a) (fst b))).
    + intros a. apply key_lt_irrefl.
    + intros a b c. apply key_lt_trans.
    + apply StronglySorted_of_keys. now apply getOrderedJson_enumeration.
    + now apply StronglySorted_of_keys.
    + now apply getOrderedJson_perm.
Qed.

Lemma getOrderedJson_permutation (o1 o2 : JS.obj) :
  NoDup (obj_keys o1) -> Permutation o1 o2 ->
  getOrderedJson o1 = getOrderedJson o2.
Proof.
  intros ND P. rewrite !getOrderedJson_assign. f_equal. now apply sort_unique.
Qed.

Section Editor.
Context `{Platform} {R : Type}.

(** X5. Two settings objects that hold the same members, in whatever order,
    are reordered to the same object, so the diff editor shows the same text
    on both sides. *)
Theorem editor_ignores_key_order (old value : JS.obj) (onChange : json -> R) :
  NoDup (obj_keys old) -> Permutation old value ->
  getOrderedJson old = getOrderedJson value /\
  exists props,
    renderProps false (Some old) (Some value) onChange = Some props /\
    original props = IndexDetail.value props.
Proof.
  intros ND P. pose proof (getOrderedJson_permutation _ _ ND P) as E.
  split; [exact E|]. eexists. split; [reflexivity|].
  cbn [original IndexDetail.value]. now rewrite E.
Qed.

End Editor.

Lemma editor_ignores_key_order_witness :
  let old := [("index.number_of_shards", JNum 1); ("index.codec", JStr "default")] in
  let value := [("index.codec", JStr "default"); ("index.number_of_shards", JNum 1)] in
  getOrderedJson old = getOrderedJson value.
Proof.
  intros old value.
  refine (proj1 (editor_ignores_key_order (H := Examples.platform)
                   old value (fun j => j) _ _)).
  - repeat constructor; cbn; intuition discriminate.
  - apply perm_swap.
Defined.

End OrderedJsonOrder.

(** ** Indices *)

Module IndicesFacts.
Import JS Server Handler Indices.

Section Component.
Context `{Utils} `{EuiQuery}.

(** C6. A call of [getIndices] whose response is ok stores the indices and
    their total from the response; one whose response is not ok, or which
    throws, leaves both as they were and reports one danger notification;
    in each case [loadingIndices] is false at the end.  This holds for the
    part after the [await] from any state, and so for the whole call. *)
Theorem getIndices_outcome
        (outcome : Settled (ServerResponse GetIndicesResponse) Thrown)
        (s : IndicesState) :
  (let '(s', log) := exec (getIndices_settled outcome) s in
   getIndices_post outcome s s' log) /\
  (let '(s', log) := exec (getIndices outcome) s in
   getIndices_post outcome s s' log).
Proof.
  unfold getIndices_post.
  destruct outcome as [[response|error]|err]; cbn; repeat split; reflexivity.
Qed.

(** C10. On a parse error [onSearchChange] changes nothing; otherwise it
    sets [from] to 0 and stores the search text and the query, and no other
    field changes. *)
Theorem onSearchChange_frame
        (s : IndicesState) (query : Query) (queryText error : string) :
  exec (onSearchChange (ArgsWithError queryText error)) s = (s, []) /\
  exec (onSearchChange (ArgsWithQuery query queryText)) s
  = ({| totalIndices := totalIndices s;
        from := 0;
        size := size s;
        search := queryText;
        Indices.query := query;
        sortField := sortField s;
        sortDirection := sortDirection s;
        selectedItems := selectedItems s;
        indices := indices s;
        loadingIndices := loadingIndices s;
        showDataStreams := showDataStreams s;
        isDataStreamColumnVisible := isDataStreamColumnVisible s;
        deleteIndexModalVisible := deleteIndexModalVisible s |}, []).
Proof. split; reflexivity. Qed.

End Component.

End IndicesFacts.

(** ** Indices: reloading, paging and deleting *)

Module IndicesPageFacts.
Import JS Server Handler Indices IndicesPage.

Section Component.
Context `{Utils} `{EuiQuery} `{!IndicesConstants}.

Lemma Direction_eqb_eq a b : Direction_eqb a b = true <-> a = b.
Proof. destruct a, b; cbn; split; congruence. Qed.

Lemma isEqual_eq a b : isEqual a b = true <-> a = b.
Proof.
  unfold isEqual. rewrite !andb_true_iff, !Z.eqb_eq, !String.eqb_eq,
    Direction_eqb_eq, Bool.eqb_true_iff.
  destruct a, b; cbn. split.
  - intros (((((-> & ->) & ->) & ->) & ->) & ->). reflexivity.
  - intros E. injection E as -> -> -> -> -> ->. repeat split.
Qed.

Lemma isEqual_refl a : isEqual a a = true.
Proof. now apply isEqual_eq. Qed.

Lemma reloads_iff {E A} (handler : M IndicesState E A) s :
  reloads handler s = true <->
  getQueryObjectFromState (fst (exec handler s)) <> getQueryObjectFromState s.
Proof.
  unfold reloads, componentDidUpdate, exec, bind, get, emit, ret.
  destruct (isEqual (getQueryObjectFromState s)
              (getQueryObjectFromState (fst (let '(_, s', l) := handler s in (s', l)))))
    eqn:Q; cbn.
  - apply isEqual_eq in Q. split; [discriminate|]. intros N. now symmetry in Q.
  - split; [|reflexivity]. intros _ E'.
    assert (isEqual (getQueryObjectFromState s)
              (getQueryObjectFromState (fst (let '(_, s', l) := handler s in (s', l))))
            = true) by (apply isEqual_eq; now symmetry).
    congruence.
Qed.

(** X15. The page is built from the parameters of the URL, and the first
    [getIndices] writes the same parameters back to the URL and sends them
    with its request. *)
Theorem initial_state_query (params : IndicesQueryParams) :
  getQueryObjectFromState (initial_state params) = params /\
  loadingIndices (initial_state params) = true /\
  isDataStreamColumnVisible (initial_state params) = q_showDataStreams params /\
  snd (exec getIndices_request (initial_state params))
  = [HistoryReplace params;
     GetIndices
       {| queryObject := params;
          terms := getTermClauses (Query_parse (q_search params));
          p_indices := getFieldClauses "indices" (Query_parse (q_search params));
          dataStreams :=
            getFieldClauses "data_streams" (Query_parse (q_search params)) |}].
Proof. destruct params. repeat split. Qed.

(** X16. [getIndices] never changes what it was called for: neither half of it
    touches a parameter of the query, so the update that follows any of its
    [setState] calls starts no further [getIndices]. *)
Theorem getIndices_keeps_query
        (outcome : Settled (ServerResponse GetIndicesResponse) Thrown)
        (s : IndicesState) :
  getQueryObjectFromState (fst (exec getIndices_request s))
  = getQueryObjectFromState s /\
  getQueryObjectFromState (fst (exec (getIndices_settled outcome) s))
  = getQueryObjectFromState s /\
  reloads getIndices_request s = false /\
  reloads (getIndices_settled outcome) s = false /\
  reloads (getIndices outcome) s = false.
Proof.
  assert (getQueryObjectFromState (fst (exec (getIndices_settled outcome) s))
          = getQueryObjectFromState s) as E
      by (destruct outcome as [[response|error]|err]; reflexivity).
  assert (getQueryObjectFromState (fst (exec (getIndices outcome) s))
          = getQueryObjectFromState s) as E'
      by (destruct outcome as [[response|error]|err]; reflexivity).
  split; [reflexivity|]. split; [exact E|]. split; [|split].
  - unfold reloads, componentDidUpdate, exec, bind, get, emit, ret.
    cbn. now rewrite isEqual_refl.
  - destruct (reloads (getIndices_settled outcome) s) eqn:X; [|reflexivity].
    apply reloads_iff in X. contradiction.
  - destruct (reloads (getIndices outcome) s) eqn:X; [|reflexivity].
    apply reloads_iff in X. contradiction.
Qed.

(** X17. Which handlers make the table load again: a handler does exactly when
    it changes a parameter of the query.  Selecting rows and opening or
    closing the delete dialog never do; switching the data streams always
    does; a change of the table does unless it asks for what is shown; a
    search does unless the text is the same and the first page is shown;
    and [resetFilters] does unless the search is the default already, and
    keeps the offset [from] in any case. *)
Theorem reload_triggers (s : IndicesState) :
  (forall E A (handler : M IndicesState E A),
      reloads handler s = true <->
      getQueryObjectFromState (fst (exec handler s)) <> getQueryObjectFromState s) /\
  (forall items, reloads (onSelectionChange items) s = false) /\
  reloads onDeleteClick s = false /\
  reloads onDeleteIndexModalClose s = false /\
  reloads toggleShowDataStreams s = true /\
  (forall page size field direction,
      reloads (onTableChange page size field direction) s
      = negb ((from s =? page * size)%Z && (Indices.size s =? size)%Z
              && (sortField s =? field)%string
              && Direction_eqb (sortDirection s) direction)) /\
  (forall query queryText,
      reloads (onSearchChange (ArgsWithQuery query queryText)) s
      = negb ((from s =? 0)%Z && (search s =? queryText)%string)) /\
  (forall queryText error,
      reloads (onSearchChange (ArgsWithError queryText error)) s = false) /\
  reloads resetFilters s = negb (search s =? DEFAULT_QUERY_PARAMS_search)%string /\
  from (fst (exec resetFilters s)) = from s.
Proof.
  split; [intros E A handler; apply reloads_iff|].
  unfold reloads, componentDidUpdate, exec, bind, get, emit, ret, isEqual.
  destruct s as [total from size search query field direction items indices
                   loading show column modal].
  cbn. rewrite !Z.eqb_refl, !String.eqb_refl.
  assert (Direction_eqb direction direction = true) as -> by now destruct direction.
  rewrite Bool.eqb_reflx. cbn.
  repeat split.
  - destruct show; reflexivity.
  - intros page size' field' direction'.
    destruct (from =? page * size')%Z, (size =? size')%Z, (field =? field')%string,
      (Direction_eqb direction direction'); reflexivity.
  - intros query' queryText.
    destruct (from =? 0)%Z, (search =? queryText)%string; reflexivity.
  - destruct (search =? DEFAULT_QUERY_PARAMS_search)%string; reflexivity.
Qed.

(** X18. The table and its pagination agree.  For pages of [size] rows with
    [size] positive and an offset [page * size] below [2^53] in absolute
    value (where JavaScript's product and quotient of integers are exact):
    after [onTableChange] for page [page], [from] is [page * size] and
    [render] shows page [page].  After a new search [render] shows page 0
    when the page size of the state is positive, and has no page number
    when it is 0 (the division gives [NaN]). *)
Theorem onTableChange_page (s : IndicesState) (page size : Z)
        (field : string) (direction : Direction) (query : Query) (queryText : string) :
  (0 < size)%Z -> (Z.abs (page * size) < 2 ^ 53)%Z ->
  pageIndex (fst (exec (onTableChange page size field direction) s)) = Some page /\
  from (fst (exec (onTableChange page size field direction) s)) = (page * size)%Z /\
  ((0 < Indices.size s)%Z ->
   pageIndex (fst (exec (onSearchChange (ArgsWithQuery query queryText)) s)) = Some 0%Z) /\
  (Indices.size s = 0%Z ->
   pageIndex (fst (exec (onSearchChange (ArgsWithQuery query queryText)) s)) = None).
Proof.
  intros P _. unfold pageIndex. cbn.
  destruct (Z.eqb_spec size 0) as [E|N]; [lia|].
  rewrite Z.div_mul by exact N. repeat split.
  - intros P'. destruct (Z.eqb_spec (Indices.size s) 0); [lia|reflexivity].
  - intros ->. reflexivity.
Qed.

(** X19. The "Data stream" column follows [showDataStreams] only when a load
    ends: switching the data streams and starting a load leave the column
    as it is, and when [getIndices] ends, however it ends, the column is
    shown exactly if [showDataStreams] is set. *)
Theorem data_stream_column
        (outcome : Settled (ServerResponse GetIndicesResponse) Thrown)
        (s : IndicesState) :
  isDataStreamColumnVisible (fst (exec toggleShowDataStreams s))
  = isDataStreamColumnVisible s /\
  showDataStreams (fst (exec toggleShowDataStreams s)) = negb (showDataStreams s) /\
  isDataStreamColumnVisible (fst (exec getIndices_request s))
  = isDataStreamColumnVisible s /\
  isDataStreamColumnVisible (fst (exec (getIndices_settled outcome) s))
  = showDataStreams s /\
  showDataStreams (fst (exec (getIndices_settled outcome) s)) = showDataStreams s.
Proof. destruct outcome as [[response|error]|err]; repeat split. Qed.

(** X20. [getDataStreams] hands on the data streams of an ok response.  On an
    error response it does not return: it throws, after a warning toast if
    the error is a security exception and with no toast otherwise.  The
    state is never touched. *)
Theorem getDataStreams_outcome (response : GetDataStreamsResponse) (error : string)
        (s : IndicesState) :
  getDataStreams (ResponseOk response) s = (Some (r_dataStreams response), s, []) /\
  getDataStreams (ResponseError error) s
  = (None, s,
     if String.prefix SECURITY_EXCEPTION_PREFIX error
     then [ToastsAddWarning error] else []).
Proof.
  split; [reflexivity|].
  unfold getDataStreams, bind, emit, ret.
  destruct (String.prefix SECURITY_EXCEPTION_PREFIX error); reflexivity.
Qed.

(** X21. Confirming the delete dialog sends one request that names the selected
    indices, separated by commas.  When it succeeds the dialog is closed, a
    success toast is shown and [getIndices] is called; when it fails the
    error is shown and the dialog stays open; when the call brings nothing
    back the handler throws.  The selection is never changed. *)
Theorem onDeleteIndexModalConfirm_outcome
        (result : option (ServerResponse json)) (s : IndicesState) :
  exec onDeleteIndexModalConfirm_request s
  = (s, [ApiCaller "indices.delete"
           (String.concat "," (map index_of (selectedItems s)))]) /\
  let '(completion, s', log) := onDeleteIndexModalConfirm_settled result s in
  selectedItems s' = selectedItems s /\
  match result with
  | Some (ResponseOk _) =>
      completion = Returned /\
      s' = set_deleteIndexModalVisible false s /\
      log = [ToastsAddSuccess "Delete successfully"; CallGetIndices]
  | Some (ResponseError error) =>
      completion = Returned /\ s' = s /\ log = [ToastsAddDanger error]
  | None =>
      completion = Threw /\ s' = s /\ log = []
  end.
Proof.
  split; [reflexivity|].
  destruct result as [[response|error]|]; cbn; repeat split.
Qed.

End Component.

Lemma onTableChange_page_witness :
  pageIndex
    (fst (exec (onTableChange (H0 := Examples.euiQuery) 3 20 "index" desc)
            (initial_state (H0 := Examples.euiQuery) (H1 := Examples.indicesConstants)
               Examples.query_params)))
  = Some 3%Z.
Proof.
  refine (proj1 (onTableChange_page (H0 := Examples.euiQuery)
                   _ 3 20 "index" desc [] "" _ _)).
  - reflexivity.
  - reflexivity.
Defined.

End IndicesPageFacts.

(** ** CreatePolicy *)

Module CreatePolicyFacts.
Import JS Server Handler CreatePolicy Examples.

Section Component.
Context `{Utils} `{Platform}.

(** C7 (amended). [onSubmit] sends [putPolicy] exactly when the policy id is
    not empty, the JSON text parses and, when editing, the sequence number
    and the primary term are both known.  With an empty id it only sets the
    id error; with an invalid text it shows the danger toast; when editing
    without sequence number or primary term it shows another danger toast;
    none of the three sends anything.  [isSubmitting] is false at the end
    of every submission. *)
Theorem onSubmit_requests (isEdit : bool) (outcome : PutPolicyOutcome)
        (s : CreatePolicyState) :
  let '(s', log) := exec (onSubmit isEdit outcome) s in
  isSubmitting s' = false /\
  existsb is_putPolicy log
  = negb (policyId s =? "")%string && parses (jsonString s)
    && (negb isEdit || has_seqNo_and_primaryTerm s) /\
  (policyId s = "" ->
   log = [] /\
   s' = {| policyId := policyId s; policyIdError := "Required";
           jsonString := jsonString s; policySeqNo := policySeqNo s;
           policyPrimaryTerm := policyPrimaryTerm s; submitError := "";
           isSubmitting := false; hasSubmitted := true |}) /\
  (policyId s <> "" -> JSON_parse (jsonString s) = None ->
   log = [ToastDanger "Invalid Policy JSON"; ConsoleError]) /\
  (policyId s <> "" -> parses (jsonString s) = true -> isEdit = true ->
   has_seqNo_and_primaryTerm s = false ->
   log = [ToastDanger "Could not update policy without seqNo and primaryTerm"]).
Proof.
  unfold exec, onSubmit, parses, has_seqNo_and_primaryTerm.
  unfold bind, get, setPolicyState, modify, emit, ret.
  cbn [fold_left policy_update policyId jsonString].
  destruct (String.eqb_spec (policyId s) "") as [E|N].
  - cbn. repeat split; congruence.
  - destruct (JSON_parse (jsonString s)) as [policy|] eqn:P.
    + destruct isEdit.
      * unfold onUpdate_request, bind, get, emit, ret. cbn [policySeqNo policyPrimaryTerm].
        destruct (policySeqNo s) as [seqNo|], (policyPrimaryTerm s) as [term|];
          try (cbn; repeat split; congruence).
        destruct outcome as [[id|error]|err]; cbn; repeat split; congruence.
      * unfold onCreate_request, bind, emit, ret.
        destruct outcome as [[id|error]|err]; cbn; repeat split; congruence.
    + cbn. repeat split; congruence.
Qed.

End Component.

Lemma onSubmit_requests_witness :
  snd (exec (onSubmit (H := Examples.utils) (H0 := Examples.platform)
               false (Fulfilled (ResponseOk "hot_cold"))) policy_unnamed) = [].
Proof.
  pose proof (onSubmit_requests (H := Examples.utils) (H0 := Examples.platform)
                false (Fulfilled (ResponseOk "hot_cold")) policy_unnamed) as T.
  destruct (exec (onSubmit (H := Examples.utils) (H0 := Examples.platform)
                    false (Fulfilled (ResponseOk "hot_cold"))) policy_unnamed)
    as [s' log].
  destruct T as (_ & _ & E & _). exact (proj1 (E eq_refl)).
Defined.

(** C7, as stated, fails when editing a policy whose sequence number and
    primary term are not known: the id is not empty and the text ["{}"] is
    valid JSON, yet no request is sent. *)
Lemma onSubmit_update_without_seqNo :
  policyId policy_draft <> "" /\
  JSON_parse (Platform := Examples.platform) (jsonString policy_draft) = Some (JObj []) /\
  snd (exec (onSubmit (H := Examples.utils) (H0 := Examples.platform)
               true (Fulfilled (ResponseOk "hot_cold"))) policy_draft)
  = [ToastDanger "Could not update policy without seqNo and primaryTerm"].
Proof. repeat split. discriminate. Qed.

End CreatePolicyFacts.

(** ** CreatePolicy: the page over time *)

Module PolicyPageFacts.
Import JS Server Handler CreatePolicy PolicyPage.
Local Open Scope nat_scope.

Section Component.
Context `{Utils} `{Platform} `{PolicyConstants}.

Lemma page_run_cons isEdit w e es :
  page_run isEdit w (e :: es)
  = (fst (page_run isEdit (fst (page_step isEdit w e)) es),
     snd (page_step isEdit w e)
       ++ snd (page_run isEdit (fst (page_step isEdit w e)) es)).
Proof.
  cbn [page_run]. destruct (page_step isEdit w e) as [w1 log1]. cbn [fst snd].
  now destruct (page_run isEdit w1 es).
Qed.

(** [onSubmit] is its two halves, one after the other. *)
Lemma onSubmit_halves isEdit outcome s :
  exec (onSubmit isEdit outcome) s
  = (let '(sent, s1, log1) := onSubmit_request isEdit s in
     if sent
     then let '(s2, log2) := exec (onSubmit_settled isEdit outcome) s1 in
          (s2, log1 ++ log2)
     else (s1, log1)).
Proof.
  unfold exec, onSubmit, onSubmit_request, onSubmit_settled.
  unfold bind, get, setPolicyState, modify, emit, ret.
  cbn [fold_left policy_update policyId jsonString].
  destruct (policyId s =? "")%string; [reflexivity|].
  destruct (JSON_parse (jsonString s)) as [policy|]; [|reflexivity].
  destruct isEdit.
  - unfold onUpdate_request, bind, get, emit, ret. cbn [policySeqNo policyPrimaryTerm].
    destruct (policySeqNo s), (policyPrimaryTerm s); try reflexivity.
    destruct outcome as [[id|error]|err]; reflexivity.
  - unfold onCreate_request, bind, emit, ret.
    destruct outcome as [[id|error]|err]; reflexivity.
Qed.

Lemma onSubmit_request_cases isEdit s :
  let '(sent, s', log) := onSubmit_request isEdit s in
  hasSubmitted s' = true /\
  policyId s' = policyId s /\ jsonString s' = jsonString s /\
  policySeqNo s' = policySeqNo s /\ policyPrimaryTerm s' = policyPrimaryTerm s /\
  policyIdError s'
  = (if (policyId s =? "")%string then "Required" else policyIdError s) /\
  (sent = false -> isSubmitting s' = false) /\
  (existsb is_putPolicy log = sent) /\
  (sent = true -> isEdit = true -> has_seqNo_and_primaryTerm s = true).
Proof.
  unfold onSubmit_request, has_seqNo_and_primaryTerm.
  unfold bind, get, setPolicyState, modify, emit, ret.
  cbn [fold_left policy_update policyId jsonString].
  destruct (policyId s =? "")%string eqn:E; [cbn; repeat split; congruence|].
  destruct (JSON_parse (jsonString s)) as [policy|];
    [|cbn; rewrite ?E; repeat split; congruence].
  destruct isEdit.
  - unfold onUpdate_request, bind, get, emit, ret. cbn [policySeqNo policyPrimaryTerm].
    destruct (policySeqNo s), (policyPrimaryTerm s);
      cbn; rewrite ?E; repeat split; congruence.
  - unfold onCreate_request, bind, emit, ret.
    cbn; rewrite ?E; repeat split; congruence.
Qed.

Lemma onSubmit_settled_cases isEdit outcome s :
  let '(s', log) := exec (onSubmit_settled isEdit outcome) s in
  isSubmitting s' = false /\ hasSubmitted s' = hasSubmitted s /\
  policyId s' = policyId s /\ jsonString s' = jsonString s /\
  policySeqNo s' = policySeqNo s /\ policyPrimaryTerm s' = policyPrimaryTerm s /\
  policyIdError s' = policyIdError s /\
  existsb is_putPolicy log = false.
Proof.
  destruct isEdit, outcome as [[id|error]|err]; cbn; repeat split.
Qed.

(** X22. The submit button never keeps spinning: [isSubmitting] is set only
    while a [putPolicy] request is awaiting its outcome, whatever the user
    does meanwhile and however the requests end. *)
Theorem isSubmitting_has_request (isEdit : bool) (es : list PageEvent) :
  isSubmitting (state (fst (page_run isEdit mounted es))) = true ->
  0 < pending (fst (page_run isEdit mounted es)).
Proof.
  assert (forall w, (isSubmitting (state w) = true -> 0 < pending w) ->
                    isSubmitting (state (fst (page_run isEdit w es))) = true ->
                    0 < pending (fst (page_run isEdit w es))) as G.
  { induction es as [|e es IH]; intros w I; [exact I|].
    rewrite page_run_cons. cbn [fst]. apply IH. clear IH.
    destruct e as [outcome|value|value| | |outcome]; cbn [page_step].
    - destruct outcome as [[response|error]|err]; cbn; exact I.
    - unfold onChange, exec, bind, get, set_state, modify.
      destruct (hasSubmitted (state w)); cbn; exact I.
    - cbn. exact I.
    - unfold onAutoIndent, exec, bind, get, set_state, modify, ret.
      destruct (JSON_parse (jsonString (state w))); cbn; exact I.
    - pose proof (onSubmit_request_cases isEdit (state w)) as C.
      destruct (onSubmit_request isEdit (state w)) as [[sent s'] log].
      destruct C as (_ & _ & _ & _ & _ & _ & F & _).
      destruct sent; cbn; [lia|]. intros S. rewrite F in S by reflexivity.
      discriminate.
    - destruct (pending w) as [|n] eqn:P; [cbn; rewrite P; exact I|].
      pose proof (onSubmit_settled_cases isEdit outcome (state w)) as C.
      destruct (exec (onSubmit_settled isEdit outcome) (state w)) as [s' log].
      destruct C as (F & _). cbn. rewrite F. discriminate. }
  apply G. discriminate.
Qed.

(** X23. The "Required" message under the policy id.  On a page that loads no
    policy, it is shown exactly when a submission has been attempted and
    the id is empty now. *)
Theorem policyIdError_shown (isEdit : bool) (es : list PageEvent) :
  existsb is_load es = false ->
  let s := state (fst (page_run isEdit mounted es)) in
  policyIdError s
  = if hasSubmitted s && (policyId s =? "")%string then "Required"%string
    else ""%string.
Proof.
  intros N. cbn zeta.
  assert (forall w,
             policyIdError (state w)
             = (if hasSubmitted (state w) && (policyId (state w) =? "")%string
                then "Required"%string else ""%string) ->
             let s := state (fst (page_run isEdit w es)) in
             policyIdError s
             = if hasSubmitted s && (policyId s =? "")%string then "Required"%string
               else ""%string) as G.
  { induction es as [|e es IH]; intros w I; [exact I|].
    cbn [existsb] in N. apply orb_false_iff in N. destruct N as [Ne Nes].
    rewrite page_run_cons. cbn [fst]. apply IH; [exact Nes|]. clear IH.
    destruct e as [outcome|value|value| | |outcome]; try discriminate Ne;
      cbn [page_step].
    - unfold onChange, exec, bind, get, set_state, modify.
      destruct (hasSubmitted (state w)) eqn:Hs; cbn.
      + rewrite Hs. cbn. now destruct (value =? "")%string.
      + rewrite Hs in *. cbn in *. exact I.
    - cbn. exact I.
    - unfold onAutoIndent, exec, bind, get, set_state, modify, ret.
      destruct (JSON_parse (jsonString (state w))); cbn; exact I.
    - pose proof (onSubmit_request_cases isEdit (state w)) as C.
      destruct (onSubmit_request isEdit (state w)) as [[sent s'] log].
      destruct C as (Hs & Hi & _ & _ & _ & He & _). cbn [fst state].
      rewrite He, Hs, Hi. cbn [andb].
      destruct (policyId (state w) =? "")%string eqn:E; [reflexivity|].
      rewrite I. now rewrite andb_false_r.
    - destruct (pending w) as [|n]; [exact I|].
      pose proof (onSubmit_settled_cases isEdit outcome (state w)) as C.
      destruct (exec (onSubmit_settled isEdit outcome) (state w)) as [s' log].
      destruct C as (_ & Hs & Hi & _ & _ & _ & He & _). cbn [fst state].
      now rewrite He, Hs, Hi. }
  apply G. reflexivity.
Qed.

Lemma page_step_seqNo isEdit w e :
  has_seqNo_and_primaryTerm (state (fst (page_step isEdit w e)))
  = has_seqNo_and_primaryTerm (state w) || is_loaded_ok e.
Proof.
  unfold has_seqNo_and_primaryTerm.
  destruct e as [outcome|value|value| | |outcome]; cbn [page_step is_loaded_ok].
  - destruct outcome as [[response|error]|err]; cbn; rewrite ?orb_false_r;
      try reflexivity.
    now rewrite orb_true_r.
  - unfold onChange, exec, bind, get, set_state, modify.
    destruct (hasSubmitted (state w)); cbn; now rewrite orb_false_r.
  - cbn. now rewrite orb_false_r.
  - unfold onAutoIndent, exec, bind, get, set_state, modify, ret.
    destruct (JSON_parse (jsonString (state w))); cbn; now rewrite orb_false_r.
  - pose proof (onSubmit_request_cases isEdit (state w)) as C.
    destruct (onSubmit_request isEdit (state w)) as [[sent s'] log].
    destruct C as (_ & _ & _ & Es & Et & _). cbn [fst state].
    rewrite Es, Et. now rewrite orb_false_r.
  - destruct (pending w) as [|n]; [now rewrite orb_false_r|].
    pose proof (onSubmit_settled_cases isEdit outcome (state w)) as C.
    destruct (exec (onSubmit_settled isEdit outcome) (state w)) as [s' log].
    destruct C as (_ & _ & _ & _ & Es & Et & _). cbn [fst state].
    rewrite Es, Et. now rewrite orb_false_r.
Qed.

Lemma page_step_putPolicy isEdit w e :
  existsb is_putPolicy (snd (page_step isEdit w e)) = true -> isEdit = true ->
  has_seqNo_and_primaryTerm (state w) = true.
Proof.
  destruct e as [outcome|value|value| | |outcome]; cbn [page_step].
  - destruct outcome as [[response|error]|err]; cbn; discriminate.
  - unfold onChange, exec, bind, get, set_state, modify.
    destruct (hasSubmitted (state w)); cbn; discriminate.
  - cbn. discriminate.
  - unfold onAutoIndent, exec, bind, get, set_state, modify, ret.
    destruct (JSON_parse (jsonString (state w))); cbn; discriminate.
  - pose proof (onSubmit_request_cases isEdit (state w)) as C.
    destruct (onSubmit_request isEdit (state w)) as [[sent s'] log].
    destruct C as (_ & _ & _ & _ & _ & _ & _ & P & K). cbn [snd].
    rewrite P. intros ->. now apply K.
  - destruct (pending w) as [|n]; [cbn; discriminate|].
    pose proof (onSubmit_settled_cases isEdit outcome (state w)) as C.
    destruct (exec (onSubmit_settled isEdit outcome) (state w)) as [s' log].
    destruct C as (_ & _ & _ & _ & _ & _ & _ & P). cbn [snd]. rewrite P. discriminate.
Qed.

(** X24. The sequence number and the primary term are known exactly from the
    moment a policy was loaded, and nothing forgets them; so a page that
    edits a policy sends [putPolicy] only after [getPolicyToEdit] has
    succeeded. *)
Theorem update_needs_load (isEdit : bool) (es : list PageEvent) :
  has_seqNo_and_primaryTerm (state (fst (page_run isEdit mounted es)))
  = existsb is_loaded_ok es /\
  (isEdit = true ->
   existsb is_putPolicy (snd (page_run isEdit mounted es)) = true ->
   existsb is_loaded_ok es = true).
Proof.
  assert (forall w,
             has_seqNo_and_primaryTerm (state (fst (page_run isEdit w es)))
             = has_seqNo_and_primaryTerm (state w) || existsb is_loaded_ok es /\
             (isEdit = true ->
              existsb is_putPolicy (snd (page_run isEdit w es)) = true ->
              has_seqNo_and_primaryTerm (state w) || existsb is_loaded_ok es = true))
    as G.
  { induction es as [|e es IH]; intros w.
    - cbn. rewrite orb_false_r. split; [reflexivity|discriminate].
    - rewrite page_run_cons. cbn [fst snd existsb].
      destruct (IH (fst (page_step isEdit w e))) as [S P].
      rewrite S, page_step_seqNo, orb_assoc. split; [reflexivity|].
      intros E. rewrite existsb_app, orb_true_iff. intros [X|X].
      + now rewrite (page_step_putPolicy isEdit w e X E).
      + specialize (P E X). now rewrite page_step_seqNo in P. }
  destruct (G mounted) as [S P]. split; [exact S|exact P].
Qed.

(** X25. [onAutoIndent] rewrites the text when it is valid JSON and does
    nothing otherwise; nothing else changes and nothing is shown.  When the
    platform reads the rewritten text back as the same value, the text stays
    free of a JSON error and indenting it again changes nothing. *)
Theorem onAutoIndent_outcome (s : CreatePolicyState) (v : json) :
  (JSON_parse (jsonString s) = None -> exec onAutoIndent s = (s, [])) /\
  (JSON_parse (jsonString s) = Some v ->
   exec onAutoIndent s = (set_jsonString (JSON_stringify4 v) s, []) /\
   (JSON_parse (JSON_stringify4 v) = Some v ->
    hasJSONError (fst (exec onAutoIndent s)) = false /\
    exec onAutoIndent (fst (exec onAutoIndent s)) = exec onAutoIndent s)).
Proof.
  unfold onAutoIndent, exec, bind, get, set_state, modify, ret, hasJSONError, parses.
  split.
  - intros ->. reflexivity.
  - intros ->. split; [reflexivity|]. cbn. intros ->. split; reflexivity.
Qed.

(** X26. A policy that was loaded goes back with what came with it.  After
    [getPolicyToEdit] has succeeded, a submission on the editing page sends
    one [putPolicy] with the loaded id, sequence number and primary term,
    and with what the platform reads from the text the policy was written
    to. *)
Theorem load_then_submit (response : PolicyDocument) (policy : json)
        (s : CreatePolicyState) :
  doc_id response <> "" ->
  JSON_parse (JSON_stringify4 (JObj [("policy", doc_policy response)])) = Some policy ->
  let loaded := fst (exec (getPolicyToEdit (Fulfilled (ResponseOk response))) s) in
  snd (exec (getPolicyToEdit (Fulfilled (ResponseOk response))) s) = [] /\
  onSubmit_request true loaded
  = (true,
     fold_left policy_update
       [Set_submitError ""; Set_isSubmitting true; Set_hasSubmitted true] loaded,
     [PutPolicy policy (doc_id response)
        (Some (doc_seqNo response)) (Some (doc_primaryTerm response))]).
Proof.
  intros N P. cbn zeta. split; [reflexivity|].
  unfold onSubmit_request, bind, get, setPolicyState, modify, emit, ret.
  cbn -[JSON_stringify4 String.eqb].
  destruct (String.eqb_spec (doc_id response) "") as [E|_]; [contradiction|].
  rewrite P. reflexivity.
Qed.

(** X27. How a save ends.  Only a [putPolicy] that succeeds leaves the page,
    with a success toast that names the policy; one that fails or throws
    stays, shows nothing but its error under the form, and keeps the id and
    the text as they are.  [isSubmitting] is cleared in each case. *)
Theorem save_outcome (isEdit : bool) (_id error : string) (err : Thrown)
        (s : CreatePolicyState) :
  exec (onSubmit_settled isEdit (Fulfilled (ResponseOk _id))) s
  = (policy_update s (Set_isSubmitting false),
     [ToastSuccess ((if isEdit then "Updated policy: " else "Created policy: ")
                      ++ _id)%string;
      HistoryPush ROUTES_POLICIES]) /\
  exec (onSubmit_settled isEdit (Fulfilled (ResponseError error))) s
  = (fold_left policy_update [Set_submitError error; Set_isSubmitting false] s, []) /\
  exec (onSubmit_settled isEdit (Rejected err)) s
  = (fold_left policy_update
       [Set_submitError
          (getErrorMessage err
             (if isEdit then "There was a problem updating the policy"
              else "There was a problem creating the policy"));
        Set_isSubmitting false] s, []) /\
  (forall outcome,
      let s' := fst (exec (onSubmit_settled isEdit outcome) s) in
      isSubmitting s' = false /\ policyId s' = policyId s /\
      jsonString s' = jsonString s).
Proof.
  destruct isEdit; repeat split; destruct outcome as [[id|e]|x]; reflexivity.
Qed.

(** X28. Where an editing page cannot get its policy it says so and leaves for
    the list of policies, with its state untouched: when the URL names no
    usable id (then nothing is asked for), when the response is an error,
    and when the request throws.  A page that creates a policy starts from
    the default policy text. *)
Theorem policy_not_loaded (id : QueryValue) (error : string) (err : Thrown)
        (s : CreatePolicyState) :
  existsb is_getPolicyToEdit (snd (exec (componentDidMount true id) s))
  = usable_id id /\
  (usable_id id = false ->
   exec (componentDidMount true id) s
   = (s, [BreadcrumbsSet [INDEX_MANAGEMENT; POLICIES];
          MountDanger ("Invalid policy id: " ++ template_text id)%string;
          MountPush ROUTES_POLICIES])) /\
  exec (getPolicyToEdit (Fulfilled (ResponseError error))) s
  = (s, [ToastDanger ("Could not load the policy: " ++ error)%string;
         HistoryPush ROUTES_POLICIES]) /\
  exec (getPolicyToEdit (Rejected err)) s
  = (s, [ToastDanger (getErrorMessage err "Could not load the policy");
         HistoryPush ROUTES_POLICIES]) /\
  exec (componentDidMount false id) s
  = (set_jsonString DEFAULT_POLICY s,
     [BreadcrumbsSet [INDEX_MANAGEMENT; POLICIES]; BreadcrumbsPush CREATE_POLICY]).
Proof.
  split; [|split; [|repeat split]].
  - destruct id as [| |i|l]; try reflexivity.
    unfold componentDidMount, usable_id. destruct (i =? "")%string; reflexivity.
  - destruct id as [| |i|l]; try reflexivity.
    unfold componentDidMount, usable_id.
    destruct (i =? "")%string; [reflexivity|discriminate].
Qed.

End Component.

Lemma update_needs_load_witness :
  has_seqNo_and_primaryTerm
    (state (fst (page_run (H := Examples.utils) (H0 := Examples.platform) true mounted
                   [EvLoaded (Fulfilled (ResponseOk Examples.policy_document));
                    EvChangeJSON "{}"; EvSubmit])))
  = true.
Proof.
  exact (proj1 (update_needs_load (H := Examples.utils) (H0 := Examples.platform) true
                  [EvLoaded (Fulfilled (ResponseOk Examples.policy_document));
                   EvChangeJSON "{}"; EvSubmit])).
Defined.

Lemma onAutoIndent_outcome_witness :
  let s := set_jsonString "[1, [true, null]]" initial_state in
  hasJSONError (H0 := Examples.platform)
    (fst (exec (onAutoIndent (H0 := Examples.platform)) s)) = false /\
  exec (onAutoIndent (H0 := Examples.platform))
    (fst (exec (onAutoIndent (H0 := Examples.platform)) s))
  = exec (onAutoIndent (H0 := Examples.platform)) s.
Proof.
  intro s.
  exact (proj2 (proj2 (onAutoIndent_outcome (H0 := Examples.platform) s
                         (JArr [JNum 1; JArr [JBool true; JNull]])) eq_refl)
           eq_refl).
Defined.

Lemma isSubmitting_has_request_witness :
  0 < pending
        (fst (page_run (H := Examples.utils) (H0 := Examples.platform) false mounted
                [EvChange "hot_cold"; EvChangeJSON "{}"; EvSubmit])).
Proof.
  apply (isSubmitting_has_request (H := Examples.utils) (H0 := Examples.platform)
           false [EvChange "hot_cold"; EvChangeJSON "{}"; EvSubmit]).
  reflexivity.
Defined.

Lemma policyIdError_shown_witness :
  policyIdError
    (state (fst (page_run (H := Examples.utils) (H0 := Examples.platform) false mounted
                   [EvSubmit; EvChange "hot"; EvChange ""])))
  = "Required"%string.
Proof.
  exact (policyIdError_shown (H := Examples.utils) (H0 := Examples.platform)
           false [EvSubmit; EvChange "hot"; EvChange ""] eq_refl).
Defined.

Lemma load_then_submit_witness :
  snd (onSubmit_request (H0 := Examples.platform) true
         (fst (exec (getPolicyToEdit (H := Examples.utils)
                       (Fulfilled (ResponseOk Examples.policy_document)))
                 initial_state)))
  = [PutPolicy (JObj [("policy", JObj [("description", JStr "hot, then cold")])])
       "hot_cold" (Some 7%Z) (Some 1%Z)].
Proof.
  refine (f_equal snd
            (proj2 (load_then_submit (H := Examples.utils) (H0 := Examples.platform)
                      Examples.policy_document
                      (JObj [("policy", JObj [("description", JStr "hot, then cold")])])
                      initial_state _ _))).
  - discriminate.
  - reflexivity.
Defined.

End PolicyPageFacts.

(** ** IndexDetail: sections and validation by mode *)

Module SectionsFacts.
Import JS Sections.

Section Component.
Context `{UpdateModes}.

(** X30. Which sections the form shows, and which of them [validate] asks.
    Without a mode all three sections are shown in panels and all three
    must report no error.  When an index is edited in one of the modes
    alias, settings or mappings, only the section of that mode is shown,
    without its panel, and [validate] depends on that section alone: what
    the other two would report is not asked for. *)
Theorem validate_by_mode (isEdit : bool) (a m s : option json) :
  forallb mode_truthy [mode_alias; mode_settings; mode_mappings] = true ->
  map (fun x => map (mode_eqb x) [mode_alias; mode_settings; mode_mappings])
      [mode_alias; mode_settings; mode_mappings]
  = [[true; false; false]; [false; true; false]; [false; false; true]] ->
  render isEdit None
  = {| defineIndex := InPanel; indexSettings := InPanel; indexMappings := InPanel |} /\
  validate isEdit None a m s = no_error a && no_error m && no_error s /\
  render true (Some mode_alias)
  = {| defineIndex := Bare; indexSettings := Hidden; indexMappings := Hidden |} /\
  validate true (Some mode_alias) a m s = no_error a /\
  render true (Some mode_settings)
  = {| defineIndex := Hidden; indexSettings := Bare; indexMappings := Hidden |} /\
  validate true (Some mode_settings) a m s = no_error s /\
  render true (Some mode_mappings)
  = {| defineIndex := Hidden; indexSettings := Hidden; indexMappings := Bare |} /\
  validate true (Some mode_mappings) a m s = no_error m.
Proof.
  cbn [forallb map]. rewrite !andb_true_iff. intros (Ta & Ts & Tm & _) E.
  injection E as Eaa Eas Eam Esa Ess Esm Ema Ems Emm.
  unfold validate, render, section_of, is_mode, is_other_mode.
  rewrite Ta, Ts, Tm, Eaa, Eas, Eam, Esa, Ess, Esm, Ema, Ems, Emm.
  cbn. rewrite !andb_true_r.
  repeat split; try reflexivity.
  - now destruct isEdit.
  - destruct isEdit; cbn; now rewrite andb_assoc.
Qed.

End Component.

Lemma validate_by_mode_witness :
  validate (H := Examples.updateModes) true (Some Examples.Settings)
    (Some (JStr "Index name can not be null.")) None None
  = true.
Proof.
  exact (proj1 (proj2 (proj2 (proj2 (proj2 (proj2
           (validate_by_mode (H := Examples.updateModes) true
              (Some (JStr "Index name can not be null.")) None None
              eq_refl eq_refl))))))).
Defined.

End SectionsFacts.

(** ** SimplePopover *)

Module SimplePopoverFacts.
Import SimplePopover.

Lemma clicks_toggle (es : list PopoverEvent) : forall popVisible,
  existsb closes es = false ->
  fold_left (handle click) es popVisible
  = xorb popVisible (Nat.odd (List.length (filter is_onClick es))).
Proof.
  induction es as [|e es IH]; intros b N; cbn [fold_left filter List.length].
  - cbn. now rewrite xorb_false_r.
  - cbn [existsb] in N. apply orb_false_iff in N. destruct N as [Ne Nes].
    rewrite IH by exact Nes.
    destruct e; try discriminate Ne; cbn [handle is_onClick List.length]; try reflexivity.
    rewrite Nat.odd_succ, <- Nat.negb_odd.
    destruct b, (Nat.odd (List.length (filter is_onClick es))); reflexivity.
Qed.

(** X29. With the click trigger the popover is open exactly after an odd number
    of clicks on its button since it was last closed from outside (or since
    it was mounted); moving the mouse over the button changes nothing. *)
Theorem popover_clicks (before after : list PopoverEvent) (closing : PopoverEvent) :
  closes closing = true -> existsb closes after = false ->
  isOpen click (before ++ closing :: after)
  = Nat.odd (List.length (filter is_onClick after)) /\
  isOpen click after = Nat.odd (List.length (filter is_onClick after)).
Proof.
  intros C N. unfold isOpen. rewrite fold_left_app. cbn [fold_left].
  assert (handle click (fold_left (handle click) before false) closing = false) as ->
      by (destruct closing; try discriminate C; reflexivity).
  rewrite !clicks_toggle by exact N. split; reflexivity.
Qed.

Lemma popover_clicks_witness :
  isOpen click [OnClick; OutsideClick; OnClick; OnMouseEnter; OnClick; OnClick] = true.
Proof.
  exact (proj1 (popover_clicks [OnClick] [OnClick; OnMouseEnter; OnClick; OnClick]
                  OutsideClick eq_refl eq_refl)).
Defined.

End SimplePopoverFacts.

(** ** lodash merge *)

Module MergeFacts.
Import JS Notions KeyFacts ObjFacts Lodash.

(** Induction on JSON values, through arrays and objects. *)
Lemma json_ind (P : json -> Prop) :
  P JNull -> (forall b, P (JBool b)) -> (forall z, P (JNum z)) ->
  (forall s, P (JStr s)) ->
  (forall l, Forall P l -> P (JArr l)) ->
  (forall o, Forall (fun kv => P (snd kv)) o -> P (JObj o)) ->
  forall j, P j.
Proof.
  intros Hnull Hbool Hnum Hstr Harr Hobj.
  fix IH 1. intros [| b | z | s | l | o].
  - exact Hnull.
  - apply Hbool.
  - apply Hnum.
  - apply Hstr.
  - apply Harr. revert l. fix IHl 1. intros [|x r]; constructor; [apply IH|apply IHl].
  - apply Hobj. revert o. fix IHo 1. intros [|[k v] r]; constructor; [apply IH|apply IHo].
Qed.













Lemma get_path_get_in p : forall j v, get_path p j = Some v -> get_in p j = Some v.
Proof.
  induction p as [|k p IH]; intros j v G; [exact G|].
  destruct j as [| | | | |o]; try discriminate G.
  cbn [get_path get_in get_prop] in *.
  destruct (obj_get k o); [now apply IH|discriminate].
Qed.


End MergeFacts.

(** ** IndexDetail: template simulation *)

Module IndexDetailFacts.
Import JS Server Notions KeyFacts ObjFacts Lodash MergeFacts IndexDetail.

Section Component.
Context `{IndexMapping} `{LodashSet}.

Lemma form_of_get data k :
  keys_canonical (obj_keys data) = true ->
  obj_get k (form_of data)
  = if (k =? "mappings")%string
    then Some (JObj [("properties",
                      transformObjectToArray
                        (or_else (mappings_properties data) (JObj [])))])
    else obj_get k data.
Proof.
  intros C. unfold form_of. rewrite obj_get_set, obj_spread_id by exact C.
  reflexivity.
Qed.

Lemma form_of_keys data k :
  keys_canonical (obj_keys data) = true ->
  In k (obj_keys (form_of data)) <-> k = "mappings" \/ In k (obj_keys data).
Proof.
  intros C. unfold form_of. rewrite In_keys_set, obj_spread_id by exact C.
  reflexivity.
Qed.

(** C2. When the simulation succeeds and nothing but the index name was
    edited since the last reconciliation, the response becomes the form
    value at once, with no dialog: every field is the response's, except
    that [mappings] holds the response's mapping properties as an array;
    [hasEdit] ends false and [isMatchingTemplate] true. *)
Theorem simulate_without_edit (response : JS.obj) (h : Hooks) :
  hasEdit h = false -> destroyRef h = false ->
  keys_canonical (obj_keys response) = true ->
  exists h' form,
    onIndexInputBlur_simulated (Some (ResponseOk response)) h
    = (h', Finished,
       [SetTemplateSimulateLoading false; OnChange form; SetIsMatchingTemplate true]) /\
    hasEdit h' = false /\ isMatchingTemplate h' = true /\
    templateSimulateLoading h' = false /\
    (forall k,
        obj_get k form
        = if (k =? "mappings")%string
          then Some (JObj [("properties",
                            transformObjectToArray
                              (or_else (mappings_properties response) (JObj [])))])
          else obj_get k response) /\
    (forall k, In k (obj_keys form) <-> k = "mappings" \/ In k (obj_keys response)).
Proof.
  intros E D C. unfold onIndexInputBlur_simulated. rewrite D.
  cbn [hasEdit setTemplateSimulateLoading].
  rewrite E. cbn. do 2 eexists. split; [reflexivity|]. cbn.
  repeat split; auto using form_of_get; now apply form_of_keys.
Qed.

(** *** Merging the draft with the template *)







End Component.

Lemma simulate_without_edit_witness :
  exists h' form,
    onIndexInputBlur_simulated (H := Examples.indexMapping)
      (Some (ResponseOk Examples.template)) initial
    = (h', Finished,
       [SetTemplateSimulateLoading false; OnChange form; SetIsMatchingTemplate true]) /\
    hasEdit h' = false /\ isMatchingTemplate h' = true /\
    obj_get "aliases" form = Some (JObj [("all-logs", JObj [])]).
Proof.
  destruct (simulate_without_edit (H := Examples.indexMapping)
              Examples.template initial eq_refl eq_refl eq_refl)
    as (h' & form & E & He & Hm & _ & G & _).
  exists h', form. repeat split; auto.
Defined.

End IndexDetailFacts.

(** ** IndexDetail: blur events, requests and unmounting *)

Module BlurFacts.
Import JS Server Notions IndexDetail.
Local Open Scope nat_scope.

Lemma count_set_task (f : Task -> bool) x : forall l t old,
  nth_error l t = Some old ->
  List.length (filter f (set_task t x l)) + (if f old then 1 else 0)
  = List.length (filter f l) + (if f x then 1 else 0).
Proof.
  induction l as [|y r IH]; intros [|t] old E; cbn in E; try discriminate.
  - injection E as ->. cbn. destruct (f old), (f x); cbn; lia.
  - cbn. specialize (IH t old E). destruct (f y); cbn; lia.
Qed.

Section Component.
Context `{IndexMapping} `{LodashSet}.

Lemma onValueChange_hasEdit value name val h :
  hasEdit (fst (onValueChange value name val h))
  = hasEdit h || negb (is_index_name name).
Proof.
  unfold onValueChange. cbn. destruct (is_index_name name); cbn.
  - now rewrite orb_false_r.
  - now rewrite orb_true_r.
Qed.

Lemma onIndexInputBlur_delayed_cases fv sim h :
  onIndexInputBlur_delayed fv sim h = (h, Finished, []) \/
  (destroyRef h = false /\
   exists index,
     onIndexInputBlur_delayed fv sim h
     = (setTemplateSimulateLoading true h, Simulating,
        [SetTemplateSimulateLoading true; SimulateIndexTemplate index])).
Proof.
  unfold onIndexInputBlur_delayed. destruct (destroyRef h); [now left|].
  destruct (obj_get "index" fv) as [index|]; [|now left].
  destruct (truthy index && sim); [right; eauto|now left].
Qed.

Lemma onIndexInputBlur_simulated_quiet result h :
  let '(h', task, acts) := onIndexInputBlur_simulated result h in
  filter is_request acts = [] /\ is_sleeping task = false /\
  destroyRef h' = destroyRef h /\
  (destroyRef h = true -> acts = [] /\ h' = h).
Proof.
  unfold onIndexInputBlur_simulated. destruct (destroyRef h) eqn:D; [cbn; auto|].
  destruct result as [[response|error]|]; cbn;
    try destruct (hasEdit h); cbn; repeat split; auto; discriminate.
Qed.

(** One step: a request uses up a sleeping call, and only a blur adds one. *)
Lemma step_requests w e :
  List.length (filter is_request (snd (step w e))) + sleeping (fst (step w e))
  <= sleeping w + (if is_blur e then 1 else 0).
Proof.
  unfold sleeping.
  destruct e as [value name val| |t fv sim|t result|t|t|t fv|]; cbn [step is_blur].
  - cbn. lia.
  - cbn. rewrite filter_app, length_app. cbn. lia.
  - unfold resume. destruct (nth_error (tasks w) t) as [task|] eqn:Ht; [|cbn; lia].
    destruct task; try (cbn; lia).
    pose proof (count_set_task is_sleeping Finished _ _ _ Ht) as Cf.
    pose proof (count_set_task is_sleeping Simulating _ _ _ Ht) as Cs.
    cbn in Cf, Cs.
    destruct (onIndexInputBlur_delayed_cases fv sim (hooks w)) as [->|(_ & index & ->)];
      cbn; lia.
  - unfold resume. destruct (nth_error (tasks w) t) as [task|] eqn:Ht; [|cbn; lia].
    destruct task; try (cbn; lia).
    pose proof (onIndexInputBlur_simulated_quiet result (hooks w)) as Q.
    destruct (onIndexInputBlur_simulated result (hooks w)) as [[h' task'] acts].
    destruct Q as (Qr & Qs & _). cbn [fst snd tasks]. rewrite Qr.
    pose proof (count_set_task is_sleeping task' _ _ _ Ht) as Cf.
    rewrite Qs in Cf. cbn in Cf |- *. lia.
  - unfold resume. destruct (nth_error (tasks w) t) as [task|] eqn:Ht; [|cbn; lia].
    destruct task; try (cbn; lia).
    pose proof (count_set_task is_sleeping Finished _ _ _ Ht) as Cf.
    cbn in Cf |- *. lia.
  - unfold resume. destruct (nth_error (tasks w) t) as [task|] eqn:Ht; [|cbn; lia].
    destruct task as [| |response|]; try (cbn; lia).
    pose proof (count_set_task is_sleeping Finished _ _ _ Ht) as Cf.
    cbn in Cf |- *. lia.
  - unfold resume. destruct (nth_error (tasks w) t) as [task|] eqn:Ht; [|cbn; lia].
    destruct task as [| |response|]; try (cbn; lia).
    pose proof (count_set_task is_sleeping Finished _ _ _ Ht) as Cf.
    cbn in Cf |- *. lia.
  - cbn. lia.
Qed.

Lemma run_cons w e es :
  run w (e :: es)
  = (fst (run (fst (step w e)) es), snd (step w e) :: snd (run (fst (step w e)) es)).
Proof.
  cbn [run]. destruct (step w e) as [w1 acts]. cbn [fst snd].
  now destruct (run w1 es).
Qed.

Lemma run_requests es : forall w,
  requests (snd (run w es)) + sleeping (fst (run w es))
  <= sleeping w + List.length (filter is_blur es).
Proof.
  unfold requests. induction es as [|e es IH]; intros w.
  - cbn. lia.
  - rewrite run_cons. cbn [fst snd List.concat filter].
    rewrite filter_app, length_app.
    pose proof (step_requests w e) as S. specialize (IH (fst (step w e))).
    destruct (is_blur e); cbn [List.length]; lia.
Qed.

(** One step of an unmounted component. *)
Lemma step_unmounted w e :
  destroyRef (hooks w) = true ->
  destroyRef (hooks (fst (step w e))) = true /\
  filter is_request (snd (step w e)) = [] /\
  (tests_destroyRef e = true ->
   snd (step w e) = [] /\ hooks (fst (step w e)) = hooks w).
Proof.
  intros D.
  destruct e as [value name val| |t fv sim|t result|t|t|t fv|];
    cbn [step tests_destroyRef]; unfold resume;
    try (destruct (nth_error (tasks w) t) as [[| |response|]|]);
    try (unfold onIndexInputBlur_delayed; rewrite D);
    try (unfold onIndexInputBlur_simulated; rewrite D);
    try (unfold onValueChange; destruct (is_index_name name));
    cbn; repeat (split || intro); auto; try discriminate.
  destruct w as [[a b c d] ts]. cbn in *. now subst.
Qed.

(** Two whole scenarios from a freshly mounted component: the index name is
    typed, the input is left, the timer fires and the simulation answers. *)
Lemma scenario_name_only value name val fv index response :
  is_index_name name = true ->
  obj_get "index" fv = Some index -> truthy index = true ->
  snd (run start [EvValueChange value name val; EvBlur; EvTimeout 0 fv true;
                  EvSimulated 0 (Some (ResponseOk response))])
  = [[OnChange (obj_spread (lodash_set (or_empty value) name val))];
     [];
     [SetTemplateSimulateLoading true; SimulateIndexTemplate index];
     [SetTemplateSimulateLoading false; OnChange (form_of response);
      SetIsMatchingTemplate true]].
Proof.
  intros N G T. cbn [run step]. unfold onValueChange. rewrite N.
  cbn [hooks tasks start app]. unfold resume. cbn [nth_error tasks hooks].
  unfold onIndexInputBlur_delayed. cbn [destroyRef initial]. rewrite G, T.
  reflexivity.
Qed.

Lemma scenario_merge value name val fv index response :
  is_index_name name = false ->
  obj_get "index" fv = Some index -> truthy index = true ->
  snd (run start [EvValueChange value name val; EvBlur; EvTimeout 0 fv true;
                  EvSimulated 0 (Some (ResponseOk response)); EvModalCancel 0 fv])
  = [[OnChange (obj_spread (lodash_set (or_empty value) name val))];
     [];
     [SetTemplateSimulateLoading true; SimulateIndexTemplate index];
     [SetTemplateSimulateLoading false; ModalShow];
     [OnChange (form_of (mergedValue fv response)); SetIsMatchingTemplate true]].
Proof.
  intros N G T. cbn [run step]. unfold onValueChange. rewrite N.
  cbn [hooks tasks start app]. unfold resume. cbn [nth_error tasks hooks].
  unfold onIndexInputBlur_delayed. cbn [destroyRef initial set_hasEdit]. rewrite G, T.
  reflexivity.
Qed.

(** C3 (amended). Over any sequence of events, the simulation requests are
    no more than the blurs: a blur sends at most one.  Once the component
    is unmounted no request is sent, and the handlers that test
    [destroyRef] (the timer and the response continuations of
    [onIndexInputBlur]) update nothing. *)
Theorem blur_requests (es : list Event) (w : World) (es' : list Event) :
  requests (snd (run start es)) <= List.length (filter is_blur es) /\
  (destroyRef (hooks w) = true ->
   destroyRef (hooks (fst (run w es'))) = true /\
   requests (snd (run w es')) = 0 /\
   Forall2 (fun e acts => tests_destroyRef e = true -> acts = [])
           es' (snd (run w es'))).
Proof.
  split.
  - pose proof (run_requests es start) as R. cbn in R. lia.
  - revert w. unfold requests. induction es' as [|e r IH]; intros w D.
    + cbn. auto.
    + rewrite run_cons. cbn [fst snd List.concat].
      destruct (step_unmounted w e D) as (D' & Q & S).
      destruct (IH _ D') as (D'' & Q' & F).
      repeat split; auto.
      * rewrite filter_app, length_app, Q. exact Q'.
      * constructor; auto. intros T. now apply S.
Qed.

End Component.

Lemma blur_requests_witness :
  requests (snd (run (H := Examples.indexMapping) (H0 := Examples.lodashSet)
                   {| hooks := Examples.unmounted; tasks := [Sleeping] |}
                   [EvTimeout 0 Examples.index_draft true])) = 0.
Proof.
  exact (proj1 (proj2 (proj2 (blur_requests (H := Examples.indexMapping)
                                (H0 := Examples.lodashSet) []
                                {| hooks := Examples.unmounted; tasks := [Sleeping] |}
                                [EvTimeout 0 Examples.index_draft true]) eq_refl))).
Defined.

(** C3, as stated, fails twice.  Two blurs in a row, before either timer
    has fired (so while [templateSimulateLoading] is still false), send two
    requests that are in flight together.  And when the component is
    unmounted while the dialog is open, choosing "Merge your changes with
    template" still calls [onChange] and [setIsMatchingTemplate]. *)
Lemma overlapping_simulations :
  let run := run (H := Examples.indexMapping) (H0 := Examples.lodashSet) in
  let draft := Examples.index_draft in
  let timers := [EvTimeout 0 draft true; EvTimeout 1 draft true] in
  templateSimulateLoading (hooks (fst (run start [EvBlur; EvBlur]))) = false /\
  in_flight (fst (run start ([EvBlur; EvBlur] ++ timers))) = 2 /\
  requests (snd (run start ([EvBlur; EvBlur] ++ timers))) = 2 /\
  let dialog :=
    [EvValueChange (Some draft)
       (["aliases"] : @FieldName Examples.lodashSet) (JObj []);
     EvBlur; EvTimeout 0 draft true;
     EvSimulated 0 (Some (ResponseOk Examples.template)); EvUnmount] in
  destroyRef (hooks (fst (run start dialog))) = true /\
  map is_state_update
    (snd (step (H := Examples.indexMapping) (H0 := Examples.lodashSet)
            (fst (run start dialog)) (EvModalCancel 0 draft)))
  = [true; true].
Proof. repeat split. Qed.

End BlurFacts.

(** ** IndexDetail: the dialog, the overlay and the draft *)

Module SimulationFacts.
Import JS Server Notions DraftNotions IndexDetail BlurFacts.
Local Open Scope nat_scope.

Section Component.
Context `{IndexMapping} `{LodashSet}.

Lemma step_no_dialog w e :
  hasEdit (hooks w) = false -> is_edit e = false ->
  existsb is_dialog (snd (step w e)) = false /\
  hasEdit (hooks (fst (step w e))) = false.
Proof.
  intros E NE.
  destruct e as [value name val| |t fv sim|t result|t|t|t fv|];
    cbn [step is_edit] in *; unfold resume;
    try (destruct (nth_error (tasks w) t) as [[| |response|]|]);
    cbn; auto.
  - unfold onValueChange. apply negb_false_iff in NE. rewrite NE. cbn. auto.
  - unfold onIndexInputBlur_delayed. destruct (destroyRef (hooks w)); cbn; auto.
    destruct (obj_get "index" fv) as [index|]; cbn; auto.
    destruct (truthy index && sim); cbn; auto.
  - unfold onIndexInputBlur_simulated. destruct (destroyRef (hooks w)); cbn; auto.
    rewrite E. destruct result as [[response|error]|]; cbn; auto.
Qed.

Lemma existsb_concat_cons {A} (f : A -> bool) l ls :
  existsb f (List.concat (l :: ls)) = existsb f l || existsb f (List.concat ls).
Proof. cbn. apply existsb_app. Qed.

Lemma run_no_dialog es : forall w,
  hasEdit (hooks w) = false -> existsb is_edit es = false ->
  existsb is_dialog (List.concat (snd (run w es))) = false /\
  hasEdit (hooks (fst (run w es))) = false.
Proof.
  induction es as [|e es IH]; intros w E NE; [cbn; auto|].
  cbn [existsb] in NE. apply orb_false_iff in NE. destruct NE as [Ne Nes].
  rewrite run_cons. cbn [fst snd]. rewrite existsb_concat_cons.
  destruct (step_no_dialog w e E Ne) as [D E'].
  destruct (IH _ E' Nes) as [D' E'']. now rewrite D, D'.
Qed.

(** X6. The dialog is for edited drafts only.  From a freshly mounted
    component it is shown only after a field other than the index name was
    changed; and answering it, either way, clears [hasEdit], so that it is
    not shown again before the next such change. *)
Theorem dialog_needs_edit (es : list Event) (w : World) (t : nat)
        (response finalValue : JS.obj) :
  (existsb is_dialog (List.concat (snd (run start es))) = true ->
   existsb is_edit es = true) /\
  (nth_error (tasks w) t = Some (Confirming response) ->
   forall answer, answer = EvModalOk t \/ answer = EvModalCancel t finalValue ->
   hasEdit (hooks (fst (step w answer))) = false /\
   (existsb is_dialog (List.concat (snd (run (fst (step w answer)) es))) = true ->
    existsb is_edit es = true)).
Proof.
  split.
  - intros D. destruct (existsb is_edit es) eqn:X; [reflexivity|].
    destruct (run_no_dialog es start eq_refl X) as [D' _]. congruence.
  - intros Ht answer A.
    assert (hasEdit (hooks (fst (step w answer))) = false) as E.
    { destruct A as [->| ->]; cbn [step]; unfold resume; rewrite Ht; reflexivity. }
    split; [exact E|]. intros D.
    destruct (existsb is_edit es) eqn:X; [reflexivity|].
    destruct (run_no_dialog es _ E X) as [D' _]. congruence.
Qed.

(** *** The loading overlay *)

Lemma in_flight_set_task w t old x :
  nth_error (tasks w) t = Some old ->
  List.length (filter is_simulating (set_task t x (tasks w)))
  + (if is_simulating old then 1 else 0)
  = in_flight w + (if is_simulating x then 1 else 0).
Proof. intros Ht. unfold in_flight. now apply count_set_task. Qed.

(** While nothing cuts a call short, the overlay is up only while a request
    is in flight. *)
Lemma step_overlay w e :
  cuts_short e = false ->
  destroyRef (hooks w) = false ->
  (templateSimulateLoading (hooks w) = true -> 0 < in_flight w) ->
  destroyRef (hooks (fst (step w e))) = false /\
  (templateSimulateLoading (hooks (fst (step w e))) = true ->
   0 < in_flight (fst (step w e))).
Proof.
  intros Q D I.
  destruct e as [value name val| |t fv sim|t result|t|t|t fv|];
    try discriminate Q; cbn [step]; unfold resume.
  - unfold onValueChange. destruct (is_index_name name); cbn; auto.
  - cbn. split; [exact D|]. intros L. unfold in_flight in *. cbn.
    rewrite filter_app, length_app. cbn. specialize (I L). lia.
  - destruct (nth_error (tasks w) t) as [[| |response|]|] eqn:Ht; cbn; auto.
    pose proof (in_flight_set_task w t _ Simulating Ht) as Cs.
    pose proof (in_flight_set_task w t _ Finished Ht) as Cf.
    cbn in Cs, Cf.
    destruct (onIndexInputBlur_delayed_cases fv sim (hooks w)) as [->|(_ & index & ->)];
      cbn; unfold in_flight; cbn; (split; [exact D|]); intros L.
    + specialize (I L). lia.
    + lia.
  - destruct (nth_error (tasks w) t) as [[| |response|]|] eqn:Ht; cbn; auto.
    unfold onIndexInputBlur_simulated. rewrite D.
    destruct result as [[response|error]|]; [destruct (hasEdit _)| |];
      cbn; split; auto; discriminate.
  - destruct (nth_error (tasks w) t) as [[| |response|]|] eqn:Ht; cbn; auto.
    pose proof (in_flight_set_task w t _ Finished Ht) as Cf. cbn in Cf.
    split; [exact D|]. intros L. specialize (I L). unfold in_flight in *. cbn. lia.
  - destruct (nth_error (tasks w) t) as [[| |response|]|] eqn:Ht; cbn; auto.
    pose proof (in_flight_set_task w t _ Finished Ht) as Cf. cbn in Cf.
    split; [exact D|]. intros L. specialize (I L). unfold in_flight in *. cbn. lia.
Qed.

(** X7. As long as no request is rejected and the component stays mounted, the
    loading overlay is shown only while a simulation request is awaiting
    its response. *)
Theorem overlay_has_request (es : list Event) :
  existsb cuts_short es = false ->
  templateSimulateLoading (hooks (fst (run start es))) = true ->
  0 < in_flight (fst (run start es)).
Proof.
  intros Q.
  assert (forall w,
             destroyRef (hooks w) = false ->
             (templateSimulateLoading (hooks w) = true -> 0 < in_flight w) ->
             destroyRef (hooks (fst (run w es))) = false /\
             (templateSimulateLoading (hooks (fst (run w es))) = true ->
              0 < in_flight (fst (run w es)))) as G.
  { induction es as [|e es IH]; intros w D I; [cbn; auto|].
    cbn [existsb] in Q. apply orb_false_iff in Q. destruct Q as [Qe Qes].
    rewrite run_cons. cbn [fst].
    destruct (step_overlay w e Qe D I) as [D' I']. now apply IH. }
  apply G; [reflexivity|discriminate].
Qed.

Lemma step_keeps_overlay w e :
  is_simulated e = false ->
  templateSimulateLoading (hooks w) = true ->
  templateSimulateLoading (hooks (fst (step w e))) = true.
Proof.
  intros N L.
  destruct e as [value name val| |t fv sim|t result|t|t|t fv|];
    try discriminate N; cbn [step]; unfold resume;
    try (destruct (nth_error (tasks w) t) as [[| |response|]|]); cbn; auto.
  - unfold onValueChange. destruct (is_index_name name); cbn; auto.
  - destruct (onIndexInputBlur_delayed_cases fv sim (hooks w)) as [->|(_ & index & ->)];
      cbn; auto.
Qed.

(** X8. A rejected simulation request leaves the overlay up with nothing in
    flight, and nothing but the response of a later request takes it
    down. *)
Theorem rejected_simulation_keeps_overlay
        (finalValue : JS.obj) (index : json) (es : list Event) :
  obj_get "index" finalValue = Some index -> truthy index = true ->
  let w := fst (run start [EvBlur; EvTimeout 0 finalValue true;
                           EvSimulateRejected 0]) in
  templateSimulateLoading (hooks w) = true /\
  in_flight w = 0 /\
  (existsb is_simulated es = false ->
   templateSimulateLoading (hooks (fst (run w es))) = true).
Proof.
  intros G T. cbn zeta.
  assert (fst (run start [EvBlur; EvTimeout 0 finalValue true; EvSimulateRejected 0])
          = {| hooks := setTemplateSimulateLoading true initial;
               tasks := [Finished] |}) as ->.
  { cbn [run step]. cbn [hooks tasks start app]. unfold resume.
    cbn [nth_error tasks hooks]. unfold onIndexInputBlur_delayed.
    cbn [destroyRef initial]. rewrite G, T. reflexivity. }
  split; [reflexivity|]. split; [reflexivity|].
  assert (forall w, templateSimulateLoading (hooks w) = true ->
                    existsb is_simulated es = false ->
                    templateSimulateLoading (hooks (fst (run w es))) = true) as K.
  { induction es as [|e r IH]; intros w L N; [exact L|].
    cbn [existsb] in N. apply orb_false_iff in N. destruct N as [Ne Nr].
    rewrite run_cons. cbn [fst]. apply IH; auto. now apply step_keeps_overlay. }
  intros N. now apply K.
Qed.

(** *** The callout *)

Lemma existsb_set_task (f : Task -> bool) x : forall l t,
  existsb f (set_task t x l) = true -> f x = true \/ existsb f l = true.
Proof.
  induction l as [|y r IH]; intros [|t]; cbn; auto.
  - rewrite orb_true_iff. intros [?|?]; auto. right. rewrite orb_true_iff. auto.
  - rewrite !orb_true_iff. intros [?|X]; auto. destruct (IH t X); auto.
Qed.

Lemma step_match w e :
  isMatchingTemplate (hooks (fst (step w e))) = true
  \/ existsb is_confirming (tasks (fst (step w e))) = true ->
  (isMatchingTemplate (hooks w) = true \/ existsb is_confirming (tasks w) = true)
  \/ is_match e = true.
Proof.
  destruct e as [value name val| |t fv sim|t result|t|t|t fv|];
    cbn [step is_match]; unfold resume.
  - unfold onValueChange. destruct (is_index_name name); cbn; auto.
  - cbn. rewrite existsb_app. cbn. rewrite !orb_false_r. auto.
  - destruct (nth_error (tasks w) t) as [[| |response|]|] eqn:Ht; cbn; auto.
    destruct (onIndexInputBlur_delayed_cases fv sim (hooks w)) as [->|(_ & index & ->)];
      cbn; intros [X|X]; auto; apply existsb_set_task in X;
      destruct X as [X|X]; auto; discriminate X.
  - destruct (nth_error (tasks w) t) as [[| |response|]|] eqn:Ht; cbn; auto.
    unfold onIndexInputBlur_simulated. destruct (destroyRef (hooks w)).
    + cbn. intros [X|X]; auto. apply existsb_set_task in X.
      destruct X as [X|X]; auto; discriminate X.
    + destruct result as [[response|error]|]; cbn [is_ok]; auto.
      * cbn. intros [X|X]; [discriminate X|]. apply existsb_set_task in X.
        destruct X as [X|X]; auto; discriminate X.
      * cbn. intros [X|X]; [discriminate X|]. apply existsb_set_task in X.
        destruct X as [X|X]; auto; discriminate X.
  - destruct (nth_error (tasks w) t) as [[| |response|]|] eqn:Ht; cbn; auto.
    intros [X|X]; auto. apply existsb_set_task in X.
    destruct X as [X|X]; auto; discriminate X.
  - destruct (nth_error (tasks w) t) as [[| |response|]|] eqn:Ht; cbn; auto.
    intros _. left. right. apply nth_error_In in Ht.
    apply existsb_exists. exists (Confirming response). auto.
  - destruct (nth_error (tasks w) t) as [[| |response|]|] eqn:Ht; cbn; auto.
    intros _. left. right. apply nth_error_In in Ht.
    apply existsb_exists. exists (Confirming response). auto.
  - cbn. auto.
Qed.

Lemma run_match es : forall w,
  isMatchingTemplate (hooks (fst (run w es))) = true
  \/ existsb is_confirming (tasks (fst (run w es))) = true ->
  (isMatchingTemplate (hooks w) = true \/ existsb is_confirming (tasks w) = true)
  \/ existsb is_match es = true.
Proof.
  induction es as [|e es IH]; intros w X; [cbn in *; auto|].
  rewrite run_cons in X. cbn [fst] in X. cbn [existsb].
  destruct (IH _ X) as [Y|Y]; [|right; rewrite Y; apply orb_true_r].
  destruct (step_match w e Y) as [Z|Z]; [auto|right; now rewrite Z].
Qed.

(** X9. The callout that tells of matching index templates is shown only after
    a simulation has found some, and never while an index is edited; a
    simulation that fails, or comes back with nothing, hides it again. *)
Theorem callout_needs_match (isEdit : bool) (es : list Event) (w : World) (t : nat)
        (result : option (ServerResponse JS.obj)) :
  (TemplateInfoCallout_visible isEdit (hooks (fst (run start es))) = true ->
   isEdit = false /\ existsb is_match es = true) /\
  (nth_error (tasks w) t = Some Simulating -> destroyRef (hooks w) = false ->
   is_ok result = false ->
   TemplateInfoCallout_visible isEdit (hooks (fst (step w (EvSimulated t result))))
   = false).
Proof.
  unfold TemplateInfoCallout_visible. split.
  - rewrite andb_true_iff, negb_true_iff. intros [E M]. split; [exact E|].
    destruct (run_match es start (or_introl M)) as [[X|X]|X];
      [discriminate X|discriminate X|exact X].
  - intros Ht D N. cbn [step]. unfold resume. rewrite Ht.
    unfold onIndexInputBlur_simulated. rewrite D.
    destruct result as [[response|error]|]; [discriminate N| |];
      cbn; apply andb_false_r.
Qed.

End Component.

Lemma dialog_needs_edit_witness :
  existsb (is_edit (H0 := Examples.lodashSet))
    [EvValueChange (Some Examples.index_draft)
       (["aliases"] : @FieldName Examples.lodashSet) (JObj []);
     EvBlur; EvTimeout 0 Examples.index_draft true;
     EvSimulated 0 (Some (ResponseOk Examples.template))]
  = true.
Proof.
  refine (proj1 (dialog_needs_edit (H := Examples.indexMapping) (H0 := Examples.lodashSet)
                   [EvValueChange (Some Examples.index_draft)
                      (["aliases"] : @FieldName Examples.lodashSet) (JObj []);
                    EvBlur; EvTimeout 0 Examples.index_draft true;
                    EvSimulated 0 (Some (ResponseOk Examples.template))]
                   start 0 [] []) _).
  reflexivity.
Defined.

Lemma callout_needs_match_witness :
  existsb (is_match (H0 := Examples.lodashSet))
    [EvBlur; EvTimeout 0 Examples.index_draft true;
     EvSimulated 0 (Some (ResponseOk Examples.template))]
  = true.
Proof.
  refine (proj2 (proj1 (callout_needs_match
                          (H := Examples.indexMapping) (H0 := Examples.lodashSet)
                          false
                          [EvBlur; EvTimeout 0 Examples.index_draft true;
                           EvSimulated 0 (Some (ResponseOk Examples.template))]
                          start 0 None) _)).
  reflexivity.
Defined.

Lemma overlay_has_request_witness :
  0 < in_flight
        (fst (run (H := Examples.indexMapping) (H0 := Examples.lodashSet) start
                [EvBlur; EvTimeout 0 Examples.index_draft true])).
Proof.
  apply (overlay_has_request (H := Examples.indexMapping) (H0 := Examples.lodashSet)
           [EvBlur; EvTimeout 0 Examples.index_draft true]); reflexivity.
Defined.

Lemma rejected_simulation_keeps_overlay_witness :
  let w := fst (run (H := Examples.indexMapping) (H0 := Examples.lodashSet) start
                  [EvBlur; EvTimeout 0 Examples.index_draft true;
                   EvSimulateRejected 0]) in
  templateSimulateLoading (hooks w) = true /\ in_flight w = 0.
Proof.
  destruct (rejected_simulation_keeps_overlay
              (H := Examples.indexMapping) (H0 := Examples.lodashSet)
              Examples.index_draft (JStr "logs-1") [] eq_refl eq_refl)
    as (L & F & _).
  split; [exact L|exact F].
Defined.

End SimulationFacts.

(** ** [JSON.stringify] with a gap *)

Module StringifyFacts.
Import JS MergeFacts PolicyPage.

(** With a gap of two spaces the general serialisation is the one the
    diff editor uses. *)
Lemma stringify_gap_two j : forall indent,
  stringify_gap "  " indent j = stringify_at indent j.
Proof.
  induction j as [| b | z | s | l IH | o IH] using json_ind; intros indent;
    try reflexivity.
  - cbn [stringify_gap stringify_at]. unfold stringify_block_gap, stringify_block.
    assert (map (stringify_gap "  " ("  " ++ indent)) l
            = map (stringify_at ("  " ++ indent)) l) as ->; [|reflexivity].
    induction IH as [|x r Hx _ IHr]; cbn [map]; [reflexivity|].
    now rewrite Hx, IHr.
  - cbn [stringify_gap stringify_at]. unfold stringify_block_gap, stringify_block.
    match goal with
    | |- context [map ?f o] =>
        match goal with
        | |- context [map ?g o] =>
            tryif constr_eq f g then fail else
              assert (map f o = map g o) as ->; [|reflexivity]
        end
    end.
    induction IH as [|x r Hx _ IHr]; cbn [map]; [reflexivity|].
    now rewrite Hx, IHr.
Qed.

End StringifyFacts.

(** ** IndexDetail: merging with nothing, and importing *)

Module DraftFacts.
Import JS Server Notions KeyFacts ObjFacts Lodash MergeFacts IndexDetail.
Import IndexDetailFacts ImportSettingsHandler.


Lemma get_delete k k' (o : obj) :
  obj_get k (obj_delete k' o) = if (k =? k')%string then None else obj_get k o.
Proof.
  unfold obj_delete. induction o as [|[k0 v0] r IH]; cbn [filter obj_get fst].
  - now destruct (k =? k')%string.
  - destruct (String.eqb_spec k0 k') as [->|N0]; cbn [negb].
    + rewrite IH. destruct (String.eqb_spec k k'); [reflexivity|reflexivity].
    + cbn [obj_get]. rewrite IH.
      destruct (String.eqb_spec k k0) as [->|]; [|reflexivity].
      destruct (String.eqb_spec k0 k'); [contradiction|reflexivity].
Qed.

Section Component.
Context `{IndexMapping} `{LodashSet} `{ImportSettings}.


(** *** Arrays in the draft and in the template *)




(** *** [onImportSettings] *)

Lemma omit_get (d : JS.obj) k :
  keys_canonical (obj_keys d) = true ->
  obj_get k (omit (Some d) ["aliases"; "data_stream"])
  = if (k =? "aliases")%string || (k =? "data_stream")%string then None
    else obj_get k d.
Proof.
  intros C. unfold omit. cbn [fold_right]. rewrite !get_delete, obj_spread_id by exact C.
  destruct (k =? "aliases")%string, (k =? "data_stream")%string; reflexivity.
Qed.

Lemma omit_canonical (d : JS.obj) paths :
  keys_canonical (obj_keys d) = true ->
  keys_canonical (obj_keys (omit (Some d) paths)) = true.
Proof.
  intros C. unfold omit. rewrite obj_spread_id by exact C.
  induction paths as [|p r IH]; cbn [fold_right]; [exact C|].
  revert IH. generalize (fold_right obj_delete d r). intros o. unfold obj_delete.
  induction o as [|[k v] o IHo]; cbn [filter obj_keys map fst keys_canonical];
    [reflexivity|].
  rewrite andb_true_iff, forallb_forall. intros [F Co].
  destruct (negb (k =? p)%string); [|now apply IHo].
  cbn [map fst keys_canonical]. rewrite andb_true_iff, forallb_forall.
  split; [|now apply IHo]. intros x Ix. apply F.
  apply in_map_iff in Ix. destruct Ix as (e & <- & Ie).
  apply filter_In in Ie. apply in_map. tauto.
Qed.

(** X13. What an import puts into the form: the detail of the source index
    without its [aliases] and [data_stream], its mapping properties as an
    array, and of its settings only what [pick] takes for
    [INDEX_IMPORT_SETTINGS]; every other field is handed on as it is. *)
Theorem import_form_fields (indexDetail : JS.obj) :
  keys_canonical (obj_keys indexDetail) = true ->
  let form := import_form (Some indexDetail) in
  obj_get "aliases" form = None /\
  obj_get "data_stream" form = None /\
  obj_get "mappings" form
  = Some (JObj [("properties",
                 transformObjectToArray
                   (or_else (mappings_properties indexDetail) (JObj [])))]) /\
  obj_get "settings" form
  = Some (JObj (lodash_pick (or_else (obj_get "settings" indexDetail) (JObj []))
                  INDEX_IMPORT_SETTINGS)) /\
  (forall k, k <> "aliases" -> k <> "data_stream" ->
             k <> "mappings" -> k <> "settings" ->
             obj_get k form = obj_get k indexDetail) /\
  keys_canonical (obj_keys form) = true.
Proof.
  intros C. cbn zeta. unfold import_form.
  pose proof (omit_canonical indexDetail ["aliases"; "data_stream"] C) as Co.
  rewrite (obj_spread_id _ Co).
  split; [|split; [|split; [|split; [|split]]]].
  - rewrite !obj_get_set, omit_get by exact C. reflexivity.
  - rewrite !obj_get_set, omit_get by exact C. reflexivity.
  - rewrite !obj_get_set. reflexivity.
  - rewrite obj_get_set. reflexivity.
  - intros k N1 N2 N3 N4. rewrite !obj_get_set, omit_get by exact C.
    destruct (String.eqb_spec k "settings"); [contradiction|].
    destruct (String.eqb_spec k "mappings"); [contradiction|].
    destruct (String.eqb_spec k "aliases"); [contradiction|].
    destruct (String.eqb_spec k "data_stream"); [contradiction|reflexivity].
  - now apply canonical_set, canonical_set.
Qed.

(** X14. An import marks the draft as unedited.  So, whatever was edited
    before, the next import fetches without asking, and the next
    simulation that succeeds replaces the imported form without the
    dialog. *)
Theorem import_clears_hasEdit (index : string) (indexDetail : option JS.obj)
        (h : Hooks) (response : JS.obj) :
  destroyRef h = false ->
  let h' := fst (onImportSettings_resolved index indexDetail h) in
  hasEdit h' = false /\
  snd (onImportSettings_resolved index indexDetail h)
  = [ImportOnChange (import_form indexDetail);
     AddSuccess ("Settings and mappings of [" ++ index
                   ++ "] have been import successfully")%string] /\
  onImportSettings true index h' = (Fetching, [GetIndexDetail index]) /\
  exists h'',
    onIndexInputBlur_simulated (Some (ResponseOk response)) h'
    = (h'', Finished,
       [SetTemplateSimulateLoading false; OnChange (form_of response);
        SetIsMatchingTemplate true]).
Proof.
  intros D. cbn zeta. unfold onImportSettings_resolved. cbn [fst snd].
  repeat split.
  unfold onIndexInputBlur_simulated. cbn [destroyRef set_hasEdit]. rewrite D.
  cbn. eauto.
Qed.

End Component.



Lemma import_form_fields_witness :
  let form := import_form (H := Examples.indexMapping) (H0 := Examples.importSettings)
                (Some Examples.source_index) in
  obj_get "aliases" form = None /\
  obj_get "settings" form = Some (JObj [("index.number_of_shards", JNum 5)]).
Proof.
  intro form.
  destruct (import_form_fields (H := Examples.indexMapping) (H1 := Examples.importSettings)
              Examples.source_index eq_refl)
    as (A & _ & _ & S & _).
  split; [exact A|exact S].
Defined.

Lemma import_clears_hasEdit_witness :
  hasEdit (fst (onImportSettings_resolved
                  (H := Examples.indexMapping) (H0 := Examples.importSettings)
                  "logs-0" (Some Examples.source_index) Examples.edited)) = false.
Proof.
  exact (proj1 (import_clears_hasEdit
                  (H := Examples.indexMapping) (H1 := Examples.importSettings)
                  "logs-0" (Some Examples.source_index) Examples.edited []
                  eq_refl)).
Defined.

End DraftFacts.

(** ** IndexDetail: the draft a blur handler holds *)

Module RendersFacts.
Import JS Server Notions KeyFacts ObjFacts Lodash MergeFacts IndexDetail.
Import IndexDetailFacts BlurFacts ImportSettingsHandler Renders.



(** *** Reading the store *)

Lemma read_cells s s' kc : cells s = cells s' -> read s kc = read s' kc.
Proof. unfold read, cell. now intros ->. Qed.

Lemma prop_get_read s k o :
  obj_get k (map (read s) o) = option_map (cell s) (prop_get k o).
Proof.
  induction o as [|[k' c] r IH]; cbn; [reflexivity|].
  destruct (k =? k')%string; [reflexivity|exact IH].
Qed.

(** Defining a property of a stored object defines it in its value. *)
Lemma read_prop_set s k c o :
  map (read s) (prop_set k c o) = obj_set k (cell s c) (map (read s) o).
Proof.
  unfold prop_set, obj_set, obj_has. rewrite prop_get_read.
  destruct (prop_get k o) as [c0|]; cbn [option_map].
  - clear c0. induction o as [|[k' c'] r IH]; cbn; [reflexivity|].
    destruct (k =? k')%string; cbn; [reflexivity|now rewrite IH].
  - destruct (array_index k) as [i|].
    + induction o as [|[k' c'] r IH]; cbn; [reflexivity|].
      destruct (array_index k') as [j|]; [|reflexivity].
      destruct (i <? j)%N; cbn; [reflexivity|now rewrite IH].
    + now rewrite map_app.
Qed.

Lemma content_new_object o s :
  content (snd (new_object o s)) (fst (new_object o s)) = map (read s) o.
Proof.
  unfold new_object, content, props_of. cbn [fst snd objects].
  rewrite nth_middle. apply map_ext. intros kc. now apply read_cells.
Qed.

(** The copy [{...finalValue}] reads as the spread of the value. *)
Lemma content_spread s r :
  content (snd (spread r s)) (fst (spread r s)) = obj_spread (content s r).
Proof.
  unfold spread. rewrite content_new_object.
  unfold obj_spread, obj_assign, content.
  generalize (props_of s r). intros l.
  change (@nil (string * json)) with (map (read s) []).
  generalize (@nil (string * Ref)).
  induction l as [|[k c] l IH]; intros acc; [reflexivity|].
  cbn [fold_left map fst snd]. rewrite IH, read_prop_set. reflexivity.
Qed.




(** A render in which [finalValue.index] or [onSimulateIndexTemplate] is not
    what the handler was made with makes a new handler, which holds the
    form value of that render: the current draft. *)
Lemma renewed_handler_holds_draft value sim w r :
  m_value (render value sim w) = Some r ->
  Object_is (m_store (render value sim w))
    (prop_get "index" (props_of (m_store (render value sim w)) r))
    (dep_index (m_onIndexInputBlur w))
  && same_function sim (onSimulateIndexTemplate (m_onIndexInputBlur w)) = false ->
  held (render value sim w) (m_onIndexInputBlur (render value sim w))
  = draft (render value sim w).
Proof.
  unfold render, held, draft.
  destruct (match value with
            | Unchanged => _ | Handed => _ | Object o => _ | Undefined => _ end)
    as [v s1].
  destruct v as [r'|]; cbn [finalValue_of m_value m_store m_onIndexInputBlur].
  - intros [= ->]. unfold useCallback. intros ->. reflexivity.
  - discriminate.
Qed.

(** The equations [calls_onChange] leaves for a list of effects. *)
Ltac sources C :=
  destruct C as [C|C]; cbn in C;
  repeat (destruct C as [C|C]; [try discriminate C|]);
  try contradiction;
  try (injection C as <-).

Section Component.
Context `{IndexMapping} `{ImportSettings}.


(** X10. [props.onChange] is called only by [onValueChange] (with a copy of
    the form value after the [set]), by a successful simulation on a draft
    without edits (with the response), by the answered dialog (with the
    response, or with the response merged with the form value the handler
    holds), and by [onImportSettings] once the index detail has arrived
    (with the imported form).  A render, a blur, the timer, a failed, empty
    or rejected simulation, the choice of an index to import from, the
    confirmation of the import and unmounting never call it. *)
Theorem onChange_sources (w w' : Mounted) (e : Event) (effects : list Effect)
        (form : JS.obj) :
  step w e = Some (w', effects) -> calls_onChange form effects ->
  match e with
  | EvValueChange name val =>
      exists path s1,
        castPath name
          (props_of (snd (finalValue_of (m_value w) (m_store w)))
             (fst (finalValue_of (m_value w) (m_store w)))) = Some path /\
        lodash_set (fst (finalValue_of (m_value w) (m_store w))) path val
          (snd (finalValue_of (m_value w) (m_store w))) = Some s1 /\
        form = obj_spread (content s1 (fst (finalValue_of (m_value w) (m_store w))))
  | EvSimulated t (Some (ResponseOk response)) =>
      (exists c, nth_error (m_calls w) t = Some (Simulating, c)) /\
      destroyRef (m_hooks w) = false /\ hasEdit (m_hooks w) = false /\
      form = form_of response
  | EvModalOk t =>
      exists response c,
        nth_error (m_calls w) t = Some (Confirming response, c) /\
        form = form_of response
  | EvModalCancel t =>
      exists response c,
        nth_error (m_calls w) t = Some (Confirming response, c) /\
        form = form_of (mergedValue (held w c) response)
  | EvImportResolved i indexDetail =>
      exists index,
        nth_error (m_imports w) i = Some (Importing Fetching index) /\
        form = import_form indexDetail
  | _ => False
  end.
Proof.
  destruct e as [value sim|name val| |t|t result|t|t|t|g index|i|i indexDetail|];
    cbn [step]; unfold resume.
  - intros [= <- <-] C. sources C.
  - unfold onValueChange.
    destruct (finalValue_of (m_value w) (m_store w)) as [fv s0]. cbn [fst snd].
    destruct (castPath name (props_of s0 fv)) as [path|]; [|discriminate].
    destruct (lodash_set fv path val s0) as [s1|] eqn:L; [|discriminate].
    pose proof (content_spread s1 fv) as S.
    destruct (spread fv s1) as [copy s2]. cbn [fst snd] in S.
    intros [= <- <-] C. sources C. exists path, s1. auto.
  - intros [= <- <-] C. sources C.
  - destruct (nth_error (m_calls w) t) as [[[| |response|] c]|];
      try solve [intros [= <- <-] C; sources C].
    destruct (onIndexInputBlur_delayed_cases (held w c)
                (match onSimulateIndexTemplate c with Some _ => true | None => false end)
                (m_hooks w)) as [->|(_ & index & ->)];
      intros [= <- <-] C; sources C.
  - destruct (nth_error (m_calls w) t) as [[[| |response|] c]|];
      try solve [destruct result as [[?|?]|]; intros [= <- <-] C; sources C].
    unfold onIndexInputBlur_simulated.
    destruct (destroyRef (m_hooks w)) eqn:D;
      [destruct result as [[?|?]|]; intros [= <- <-] C; sources C|].
    destruct result as [[response|error]|]; cbn [setTemplateSimulateLoading hasEdit].
    + destruct (hasEdit (m_hooks w)) eqn:E; cbn;
        intros [= <- <-] C; sources C. eauto.
    + intros [= <- <-] C; sources C.
    + intros [= <- <-] C; sources C.
  - destruct (nth_error (m_calls w) t) as [[[| |response|] c]|];
      intros [= <- <-] C; sources C.
  - destruct (nth_error (m_calls w) t) as [[[| |response|] c]|];
      try solve [intros [= <- <-] C; sources C].
    cbn. intros [= <- <-] C. sources C. eauto.
  - destruct (nth_error (m_calls w) t) as [[[| |response|] c]|];
      try solve [intros [= <- <-] C; sources C].
    cbn. intros [= <- <-] C. sources C. eauto.
  - unfold onImportSettings. destruct g; [destruct (hasEdit (m_hooks w))|];
      intros [= <- <-] C; sources C.
  - destruct (nth_error (m_imports w) i) as [[[| |] index|]|];
      intros [= <- <-] C; sources C.
  - destruct (nth_error (m_imports w) i) as [[[| |] index|]|];
      intros [= <- <-] C; sources C. eauto.
  - intros [= <- <-] C. sources C.
Qed.

End Component.

Lemma tasks_update (l : list (Task * BlurHandler)) : forall t task c,
  map fst (update t (task, c) l) = set_task t task (map fst l).
Proof.
  induction l as [|a r IH]; intros [|t] task c; cbn; try reflexivity.
  now rewrite IH.
Qed.

Lemma nth_error_tasks (l : list (Task * BlurHandler)) t :
  nth_error (map fst l) t = option_map fst (nth_error l t).
Proof. apply nth_error_map. Qed.

Lemma props_onChange_frame v w :
  m_hooks (props_onChange v w) = m_hooks w /\
  m_calls (props_onChange v w) = m_calls w.
Proof. unfold props_onChange. destruct (alloc _ _). now split. Qed.

Lemma deliver_frame acts : forall w,
  m_hooks (deliver acts w) = m_hooks w /\ m_calls (deliver acts w) = m_calls w.
Proof.
  unfold deliver. induction acts as [|a r IH]; intros w; [now split|].
  cbn [fold_left]. destruct a as [v| | | |]; try apply IH.
  destruct (IH (props_onChange v w)) as [Eh Ec].
  destruct (props_onChange_frame v w) as [Fh Fc].
  split; congruence.
Qed.

(** *** The calls of [onIndexInputBlur]

    On the events of the blur calls the component does what [IndexDetail.step]
    does on the event that carries what the handler of the call holds. *)
Section Calls.
Context `{IndexMapping} `{LodashSet} `{ImportSettings}.

Lemma resume_refines t w k k' :
  (forall task c, nth_error (m_calls w) t = Some (task, c) -> k task c = k' task) ->
  world_of (fst (Renders.resume t w k)) = fst (IndexDetail.resume t (world_of w) k') /\
  snd (Renders.resume t w k) = map Form (snd (IndexDetail.resume t (world_of w) k')).
Proof.
  intros K. unfold Renders.resume, IndexDetail.resume.
  change (tasks (world_of w)) with (map fst (m_calls w)).
  change (hooks (world_of w)) with (m_hooks w).
  rewrite nth_error_tasks.
  destruct (nth_error (m_calls w) t) as [[task c]|] eqn:T; cbn [option_map fst];
    [|now split].
  rewrite <- (K task c eq_refl).
  destruct (k task c) as [[[h task'] acts]|]; cbn [fst snd]; [|now split].
  split; [|reflexivity]. unfold world_of.
  destruct (deliver_frame acts
              (with_calls (update t (task', c) (m_calls w)) (with_hooks h w)))
    as [-> ->].
  cbn. now rewrite tasks_update.
Qed.

Ltac split_result X :=
  match type of X with
  | ?r = (?w, ?effects) =>
      assert (w = fst r /\ effects = snd r) as [-> ->]
        by (rewrite X; split; reflexivity);
      clear X
  end.

(** The refs, the state, the calls and the actions are those of
    [IndexDetail.step]. *)
Theorem step_refines (w w' : Mounted) (e : Event) (e' : IndexDetail.Event)
        (effects : list Effect) :
  event_of w e = Some e' -> Renders.step w e = Some (w', effects) ->
  world_of w' = fst (IndexDetail.step (world_of w) e') /\
  effects = map Form (snd (IndexDetail.step (world_of w) e')).
Proof.
  destruct e as [value sim|name val| |t|t result|t|t|t|g index|i|i indexDetail|];
    cbn [event_of Renders.step]; try discriminate.
  - intros [= <-] X. injection X as <- <-. cbn. unfold world_of. cbn. now rewrite map_app.
  - destruct (nth_error (m_calls w) t) as [[task0 c0]|] eqn:T; [|discriminate].
    intros [= <-] [= X]. split_result X. cbn [IndexDetail.step].
    apply resume_refines. intros task c T'. rewrite T in T'. injection T' as <- <-.
    reflexivity.
  - intros [= <-] [= X]. split_result X. cbn [IndexDetail.step].
    apply resume_refines. reflexivity.
  - intros [= <-] [= X]. split_result X. cbn [IndexDetail.step].
    apply resume_refines. reflexivity.
  - intros [= <-] [= X]. split_result X. cbn [IndexDetail.step].
    apply resume_refines. intros [| |response|] c _; reflexivity.
  - destruct (nth_error (m_calls w) t) as [[task0 c0]|] eqn:T; [|discriminate].
    intros [= <-] [= X]. split_result X. cbn [IndexDetail.step].
    apply resume_refines. intros task c T'. rewrite T in T'. injection T' as <- <-.
    destruct task0; reflexivity.
  - intros [= <-] X. injection X as <- <-. now split.
Qed.
End Calls.



Lemma onChange_sources_witness :
  exists index,
    nth_error [Importing Fetching "logs-0"] 0 = Some (Importing Fetching index) /\
    import_form (H := Examples.indexMapping) (H0 := Examples.importSettings)
      (Some Examples.source_index)
    = [("settings", JObj [("index.number_of_shards", JNum 5)]);
       ("mappings",
        JObj [("properties",
               JArr [JObj [("type", JStr "text"); ("fieldName", JStr "message")]])])].
Proof.
  refine (onChange_sources (H := Examples.indexMapping) (H0 := Examples.importSettings)
            (with_imports [Importing Fetching "logs-0"] Examples.mounted) _
            (EvImportResolved 0 (Some Examples.source_index)) _
            [("settings", JObj [("index.number_of_shards", JNum 5)]);
             ("mappings",
              JObj [("properties",
                     JArr [JObj [("type", JStr "text");
                                 ("fieldName", JStr "message")]])])]
            eq_refl _).
  right. left. reflexivity.
Defined.

End RendersFacts.
